(** * AntigravityMobile: the CDP automation layer and the bridge server

    A shallow embedding of the parts of [cdp-client.mjs] and of the HTTP
    bridge server ([http-server.mjs]) that the specification talks about:
    target selection, the request/response correlation of the protocol
    connection, the DOM heuristics of the model/mode reader and setter, the
    workspace-path inferencer, the workspace polling loop, the debounced
    file watcher and the message store.

    Conventions.
    - JavaScript strings are modelled as [string] restricted to ASCII;
      [toLowerCase] and [trim] are the ASCII fragments of the JS methods.
    - [null]/[undefined] results are [None]; a thrown exception or a
      rejected promise is an explicit constructor.
    - Mutable module-level variables become fields of a state record that
      every operation takes and returns.
    - Timers ([setTimeout]) are entries of the state carrying their
      deadline on a millisecond clock. *)

From Stdlib Require Import ZArith Lia List Ascii String Bool.
From stdpp Require Import base tactics option list gmap strings.

Local Open Scope string_scope.

(** ** JavaScript string methods (ASCII fragment) *)

Module Js.

Definition isUpper (c : ascii) : bool :=
  let n := nat_of_ascii c in (65 <=? n)%nat && (n <=? 90)%nat.

Definition isLower (c : ascii) : bool :=
  let n := nat_of_ascii c in (97 <=? n)%nat && (n <=? 122)%nat.

Definition isDigit (c : ascii) : bool :=
  let n := nat_of_ascii c in (48 <=? n)%nat && (n <=? 57)%nat.

Definition isLetter (c : ascii) : bool := isUpper c || isLower c.

(** [\s] restricted to ASCII: space, TAB, LF, VT, FF, CR. *)
Definition isSpace (c : ascii) : bool :=
  let n := nat_of_ascii c in (n =? 32)%nat || ((9 <=? n)%nat && (n <=? 13)%nat).

Definition lowerChar (c : ascii) : ascii :=
  if isUpper c then ascii_of_nat (nat_of_ascii c + 32) else c.

(** [s.toLowerCase()] *)
Fixpoint toLowerCase (s : string) : string :=
  match s with
  | EmptyString => EmptyString
  | String c r => String (lowerChar c) (toLowerCase r)
  end.

(** [s.startsWith(p)] *)
Definition startsWith (s p : string) : bool := String.prefix p s.

(** [s.includes(sub)] *)
Fixpoint includes (s sub : string) : bool :=
  String.prefix sub s ||
  match s with
  | EmptyString => false
  | String _ r => includes r sub
  end.

(** [s.indexOf(sub)], with [None] for -1. *)
Fixpoint indexOf (s sub : string) : option nat :=
  if String.prefix sub s then Some 0
  else match s with
       | EmptyString => None
       | String _ r => S <$> indexOf r sub
       end.

(** [s.substring(k)] for [0 <= k]. *)
Fixpoint substringFrom (k : nat) (s : string) : string :=
  match k, s with
  | 0, _ => s
  | S k', String _ r => substringFrom k' r
  | S _, EmptyString => EmptyString
  end.

(** [s.substring(0, n)] for [0 <= n]. *)
Fixpoint substringTo (n : nat) (s : string) : string :=
  match n, s with
  | S n', String c r => String c (substringTo n' r)
  | _, _ => EmptyString
  end.

Fixpoint trimStart (s : string) : string :=
  match s with
  | String c r => if isSpace c then trimStart r else s
  | EmptyString => EmptyString
  end.

Fixpoint trimEnd (s : string) : string :=
  match s with
  | EmptyString => EmptyString
  | String c r =>
      match trimEnd r with
      | EmptyString => if isSpace c then EmptyString else String c EmptyString
      | r' => String c r'
      end
  end.

(** [s.trim()] *)
Definition trim (s : string) : string := trimEnd (trimStart s).

(** [a || b] on strings: the empty string is falsy. *)
Definition orElse (a b : string) : string :=
  match a with EmptyString => b | _ => a end.

(** Truthiness of a possibly-null string: [null] and [''] are falsy. *)
Definition truthy (o : option string) : bool :=
  match o with
  | Some (String _ _) => true
  | _ => false
  end.

(** [s.split(re)] for a regular expression [re = /[C]+/] where [C] is
    the character class decided by [sep]: the string is cut at every
    maximal run of separator characters.  A leading or trailing run
    yields an empty first or last field, as in JavaScript. *)
Fixpoint splitRuns (sep : ascii -> bool) (inRun : bool) (s : string)
  : string * list string :=
  match s with
  | EmptyString => (EmptyString, [])
  | String c r =>
      if sep c then
        let '(w, ws) := splitRuns sep true r in
        if inRun then (w, ws) else (EmptyString, w :: ws)
      else
        let '(w, ws) := splitRuns sep false r in
        (String c w, ws)
  end.

Definition split (sep : ascii -> bool) (s : string) : list string :=
  let '(w, ws) := splitRuns sep false s in w :: ws.

(** [xs.filter(Boolean)] on an array of strings. *)
Definition filterBoolean (xs : list string) : list string :=
  filter (fun s => s <> EmptyString) xs.

(** [xs.join(sep)] *)
Definition join (sep : string) (xs : list string) : string :=
  String.concat sep xs.

(** [xs.slice(-n)] on an array, for [0 < n]. *)
Definition sliceLast {A} (n : nat) (xs : list A) : list A :=
  drop (length xs - n) xs.

(** [xs.slice(a, b)] for [0 <= a], [0 <= b]. *)
Definition slice {A} (a b : nat) (xs : list A) : list A :=
  take (b - a) (drop a xs).

(** [xs.slice(0, -1)] *)
Definition sliceButLast {A} (xs : list A) : list A :=
  take (length xs - 1) xs.

(** [xs[i]] used in a string concatenation: a missing element is
    [undefined], which concatenates as the text "undefined". *)
Definition elemText (xs : list string) (i : nat) : string :=
  match xs !! i with
  | Some s => s
  | None => "undefined"
  end.

(** [s.split(d)] for a one-character string [d]: no run collapsing. *)
Fixpoint splitCharAux (d : ascii) (s : string) : string * list string :=
  match s with
  | EmptyString => (EmptyString, [])
  | String c r =>
      let '(w, ws) := splitCharAux d r in
      if Ascii.eqb c d then (EmptyString, w :: ws) else (String c w, ws)
  end.

Definition splitChar (d : ascii) (s : string) : list string :=
  let '(w, ws) := splitCharAux d s in w :: ws.

(** [xs.slice(a)] for [0 <= a]. *)
Definition sliceFrom {A} (a : nat) (xs : list A) : list A := drop a xs.

End Js.

(** ** Target Resolver: [findEditorTarget] *)

Record Target := mkTarget {
  t_id : string;
  t_type : string;
  t_title : string;
  t_url : string;
  webSocketDebuggerUrl : option string
}.

(** The predicate of the first [targets.find(...)]. *)
Definition isMainEditor (t : Target) : bool :=
  String.eqb (t_type t) "page" &&
  Js.includes (t_title t) "Antigravity" &&
  negb (Js.includes (t_title t) "Launchpad") &&
  negb (Js.includes (t_url t) "devtools").

Definition isPage (t : Target) : bool := String.eqb (t_type t) "page".

(** [Array.prototype.find]: the first element satisfying the predicate,
    [undefined] when there is none. *)
Fixpoint js_find {A} (p : A -> bool) (xs : list A) : option A :=
  match xs with
  | [] => None
  | x :: r => if p x then Some x else js_find p r
  end.

(** [editor || targets.find(t => t.type === 'page')]: a target object is
    always truthy, so the second search runs only when the first one found
    nothing. *)
Definition findEditorTarget (targets : list Target) : option Target :=
  match js_find isMainEditor targets with
  | Some editor => Some editor
  | None => js_find isPage targets
  end.

(** ** Workspace-path inferencer: [getWorkspacePath] *)

Definition backslash : ascii := ascii_of_nat 92.
Definition slash : ascii := "/"%char.
Definition BS : string := String backslash EmptyString.

(** The title pattern [/^([^-]+)\s*-\s*Antigravity/].  The group is greedy
    and cannot contain a dash, and what follows it must start (after
    optional blanks, which the group has already consumed) with a dash: the
    group is the text before the first dash, which must not be empty, and the
    expression matches when the text after that dash is, blanks skipped,
    "Antigravity...". *)
Fixpoint beforeDash (s : string) : string * option string :=
  match s with
  | EmptyString => (EmptyString, None)
  | String c r =>
      if Ascii.eqb c "-" then (EmptyString, Some r)
      else let '(g, rest) := beforeDash r in (String c g, rest)
  end.

Definition titleMatch (title : string) : option string :=
  match beforeDash title with
  | (String c g, Some rest) =>
      if Js.startsWith (Js.trimStart rest) "Antigravity"
      then Some (String c g) else None
  | _ => None
  end.

(** [titleMatch ? titleMatch[1].trim() : null] *)
Definition projectNameOfTitle (title : string) : option string :=
  Js.trim <$> titleMatch title.

(** *** The in-page script *)

Record Tab := mkTab {
  ariaLabel : option string;   (* getAttribute('aria-label') *)
  tabTitle : option string     (* getAttribute('title') *)
}.

Record DomResult := mkDomResult {
  d_path : option string;
  d_isWindows : bool
}.

(** The delimiter loop: [endIdx] shrinks to the smallest positive index
    of a delimiter. *)
Fixpoint cutIndex (pathPart : string) (delims : list string) (endIdx : nat) : nat :=
  match delims with
  | [] => endIdx
  | d :: ds =>
      match Js.indexOf pathPart d with
      | Some idx =>
          if (0 <? idx)%nat && (idx <? endIdx)%nat
          then cutIndex pathPart ds idx
          else cutIndex pathPart ds endIdx
      | None => cutIndex pathPart ds endIdx
      end
  end.

Definition cutAtDelims (pathPart : string) (delims : list string) : string :=
  Js.trim (Js.substringTo (cutIndex pathPart delims (String.length pathPart)) pathPart).

(** Windows: the first position [k] with a letter followed by a colon;
    the result is [src.substring(k)]. *)
Fixpoint fromDriveLetter (src : string) : option string :=
  match src with
  | String ch (String next _ as tl) =>
      if Js.isLetter ch && Ascii.eqb next ":" then Some src
      else fromDriveLetter tl
  | _ => None
  end.

Definition unixRoots : list string := ["/home/"; "/Users/"; "/var/"; "/opt/"].

Fixpoint fromUnixRoot (src : string) (roots : list string) : option string :=
  match roots with
  | [] => None
  | r :: rs =>
      match Js.indexOf src r with
      | Some idx => Some (Js.substringFrom idx src)
      | None => fromUnixRoot src rs
      end
  end.

Definition quoteChar : string := String (ascii_of_nat 34) EmptyString.

(** One [sources[j]]: [None] stands for [continue]. *)
Definition scanSource (src : string) : option DomResult :=
  if (String.length src <? 5)%nat then None
  else
    match fromDriveLetter src with
    | Some pathPart =>
        Some (mkDomResult (Some (cutAtDelims pathPart [","; ";"; " - "])) true)
    | None =>
        match fromUnixRoot src unixRoots with
        | Some pathPart =>
            Some (mkDomResult
                    (Some (cutAtDelims pathPart [","; ";"; " - "; "'"; quoteChar]))
                    false)
        | None => None
        end
    end.

Definition orEmpty (o : option string) : string :=
  match o with Some s => s | None => EmptyString end.

Fixpoint scanTabs (tabs : list Tab) : option DomResult :=
  match tabs with
  | [] => None
  | tab :: rest =>
      match scanSource (orEmpty (ariaLabel tab)) with
      | Some r => Some r
      | None =>
          match scanSource (orEmpty (tabTitle tab)) with
          | Some r => Some r
          | None => scanTabs rest
          end
      end
  end.

Section DataUri.

(** [decodeURIComponent] of the host; [None] when it throws. *)
Variable decodeURIComponent : string -> option string.

Definition charAt1IsColon (s : string) : bool :=
  match s with
  | String _ (String c _) => Ascii.eqb c ":"
  | _ => false
  end.

(** Method 2 of the script: elements with a [data-uri] attribute. *)
Fixpoint scanUris (uris : list string) : option DomResult :=
  match uris with
  | [] => None
  | uri :: rest =>
      if Js.startsWith uri "file:///" then
        match decodeURIComponent (Js.substringFrom 8 uri) with
        | Some decoded =>
            let isWin := charAt1IsColon decoded in
            let decoded' :=
              if isWin then Js.join BS (Js.splitChar slash decoded) else decoded in
            Some (mkDomResult (Some decoded') isWin)
        | None => scanUris rest
        end
      else scanUris rest
  end.

(** The whole in-page expression. *)
Definition workspaceScript (tabs : list Tab) (uris : list string) : DomResult :=
  match scanTabs tabs with
  | Some r => r
  | None =>
      match scanUris uris with
      | Some r => r
      | None => mkDomResult None false
      end
  end.

End DataUri.

(** *** The host side *)

(** [filePath.split(sep).filter(Boolean)] with
    [sep = isWindows ? /[\\/]+/ : /\/+/]. *)
Definition isPathSep (isWindows : bool) (c : ascii) : bool :=
  Ascii.eqb c slash || (isWindows && Ascii.eqb c backslash).

Definition pathParts (isWindows : bool) (filePath : string) : list string :=
  Js.filterBoolean (Js.split (isPathSep isWindows) filePath).

(** The [for] loop over [pathParts]: the index of the first segment whose
    lower-cased text equals the lower-cased project name. *)
Fixpoint anchorIndex (projectName : string) (parts : list string) (i : nat) : option nat :=
  match parts with
  | [] => None
  | p :: rest =>
      if String.eqb (Js.toLowerCase p) (Js.toLowerCase projectName)
      then Some i
      else anchorIndex projectName rest (S i)
  end.

Definition workspaceAt (isWindows : bool) (parts : list string) (i : nat) : string :=
  if isWindows
  then Js.elemText parts 0 ++ BS ++ Js.join BS (Js.slice 1 (i + 1) parts)
  else "/" ++ Js.join "/" (Js.slice 0 (i + 1) parts).

Definition workspaceFallback (isWindows : bool) (parts : list string) : string :=
  let parentParts := Js.sliceButLast parts in
  if isWindows
  then Js.elemText parentParts 0 ++ BS ++ Js.join BS (Js.sliceFrom 1 parentParts)
  else "/" ++ Js.join "/" parentParts.

(** Lines 619-642 of [getWorkspacePath]: from the detected file path to
    the workspace root. *)
Definition workspaceOfFile (projectName : option string) (filePath : string)
    (isWindows : bool) : string :=
  let parts := pathParts isWindows filePath in
  let found :=
    if Js.truthy projectName
    then anchorIndex (orEmpty projectName) parts 0
    else None in
  match found with
  | Some i => workspaceAt isWindows parts i
  | None => workspaceFallback isWindows parts
  end.

(** The completion of an asynchronous function. *)
Inductive Completion (A : Type) : Type :=
| Returned (a : A)
| Thrown (message : string).
Arguments Returned {A} a.
Arguments Thrown {A} message.

(** [getWorkspacePath]: [targets] is the answer of [/json/list]; [evalResult]
    is the completion of connecting and of the single [Runtime.evaluate]
    call, whose value is [result.result?.value]. *)
Definition getWorkspacePath (targets : list Target)
    (evalResult : Completion (option DomResult)) : Completion (option string) :=
  match findEditorTarget targets with
  | None => Returned None
  | Some target =>
      let projectName := projectNameOfTitle (t_title target) in
      match webSocketDebuggerUrl target with
      | None => Thrown "No WebSocket URL for target"
      | Some _ =>
          match evalResult with
          | Thrown m => Thrown m
          | Returned data =>
              match data with
              | None => Returned None
              | Some d =>
                  if Js.truthy (d_path d)
                  then Returned (Some (workspaceOfFile projectName
                                         (orEmpty (d_path d)) (d_isWindows d)))
                  else Returned None
              end
          end
      end
  end.

(** ** Broadcast hub: what the server emits *)

Inductive Payload : Type :=
| WorkspaceChanged (path projectName : string)
| FileChanged (type filename folder : string) (timestamp : nat).

Inductive LogLine : Type :=
| LogNoPath (failures : nat)
| LogPollError (failures : nat) (message : string)
| LogDetected (detected current : string) (equal : bool)
| LogWorkspaceChanged (oldPath newPath : string).

(** The observable actions of a callback, in program order:
    [console.log(...)] and [broadcast(event, data)]. *)
Inductive Output : Type :=
| ConsoleLog (line : LogLine)
| Broadcast (event : string) (data : Payload).

Definition isBroadcastOf (event : string) (o : Output) : bool :=
  match o with
  | Broadcast e _ => String.eqb e event
  | ConsoleLog _ => false
  end.

(** How many times [broadcast(event, ...)] was called. *)
Definition broadcastCount (event : string) (out : list Output) : nat :=
  length (List.filter (isBroadcastOf event) out).

(** ** Workspace reconciliation loop: the [poll] closure of
    [startWorkspacePolling] *)

Record WorkspaceState := mkWorkspaceState {
  workspacePath : string;
  lastValidWorkspacePath : option string;
  consecutiveFailures : nat
}.

(** [detectedPath.replace(/\\\\/g, '\\')]: every pair of backslashes, left
    to right and without overlap, becomes one backslash. *)
Fixpoint normalizeBackslashes (s : string) : string :=
  match s with
  | EmptyString => EmptyString
  | String c r =>
      match r with
      | String c' r' =>
          if Ascii.eqb c backslash && Ascii.eqb c' backslash
          then String backslash (normalizeBackslashes r')
          else String c (normalizeBackslashes r)
      | EmptyString => String c EmptyString
      end
  end.

Section Polling.

(** [process.platform === 'win32'] *)
Variable isWindows : bool.
(** [path.basename] of the host platform. *)
Variable basename : string -> string.

Definition pathEquals (path1 path2 : string) : bool :=
  if isWindows
  then String.eqb (Js.toLowerCase path1) (Js.toLowerCase path2)
  else String.eqb path1 path2.

Definition pathStartsWith (path prefix : string) : bool :=
  if isWindows
  then Js.startsWith (Js.toLowerCase path) (Js.toLowerCase prefix)
  else Js.startsWith path prefix.

(** [consecutiveFailures <= 3 || consecutiveFailures % 10 === 0] *)
Definition shouldLogFailure (n : nat) : bool :=
  (n <=? 3)%nat || (n mod 10 =? 0)%nat.

(** One run of [poll]; [detected] is the completion of
    [await CDP.getWorkspacePath()]. *)
Definition poll (detected : Completion (option string)) (st : WorkspaceState)
  : WorkspaceState * list Output :=
  match detected with
  | Thrown message =>
      let n := S (consecutiveFailures st) in
      (mkWorkspaceState (workspacePath st) (lastValidWorkspacePath st) n,
       if shouldLogFailure n then [ConsoleLog (LogPollError n message)] else [])
  | Returned detectedPath =>
      if negb (Js.truthy detectedPath) then
        let n := S (consecutiveFailures st) in
        (mkWorkspaceState (workspacePath st) (lastValidWorkspacePath st) n,
         if shouldLogFailure n then [ConsoleLog (LogNoPath n)] else [])
      else
        let detectedPath := normalizeBackslashes (orEmpty detectedPath) in
        let logDetected :=
          ConsoleLog (LogDetected detectedPath (workspacePath st)
                        (pathEquals detectedPath (workspacePath st))) in
        if negb (pathEquals detectedPath (workspacePath st)) then
          (mkWorkspaceState detectedPath (Some detectedPath) 0,
           [logDetected;
            ConsoleLog (LogWorkspaceChanged (workspacePath st) detectedPath);
            Broadcast "workspace_changed"
              (WorkspaceChanged detectedPath (basename detectedPath))])
        else
          (mkWorkspaceState (workspacePath st) (Some detectedPath) 0,
           [logDetected])
  end.

(** Successive polls: the state is threaded, the outputs concatenated. *)
Fixpoint polls (ds : list (Completion (option string))) (st : WorkspaceState)
  : WorkspaceState * list Output :=
  match ds with
  | [] => (st, [])
  | d :: rest =>
      let '(st1, out1) := poll d st in
      let '(st2, out2) := polls rest st1 in
      (st2, (out1 ++ out2)%list)
  end.

End Polling.

(** ** Timers of the event loop *)

Record Timer (A : Type) := mkTimer {
  handle : nat;
  deadline : nat;
  callback : A
}.
Arguments mkTimer {A} handle deadline callback.
Arguments handle {A} t.
Arguments deadline {A} t.
Arguments callback {A} t.

Section Timers.

Context {A : Type}.

(** [clearTimeout(h)]: disarms the timer; a no-op for a timer that has
    fired or was cleared before. *)
Definition clearTimeout (h : nat) (armed : list (Timer A)) : list (Timer A) :=
  List.filter (fun t => negb (handle t =? h)%nat) armed.

Definition isDue (now : nat) (t : Timer A) : bool := (deadline t <=? now)%nat.

(** The timers that run when the clock has reached [now], in the order
    in which they were armed, and those that stay armed. *)
Definition dueTimers (now : nat) (armed : list (Timer A)) : list (Timer A) :=
  List.filter (isDue now) armed.

Definition stillArmed (now : nat) (armed : list (Timer A)) : list (Timer A) :=
  List.filter (fun t => negb (isDue now t)) armed.

End Timers.

(** ** Filesystem change watcher: [startWatching] / [stopWatching] *)

Record DebouncedEvent := mkDebounced {
  ev_type : string;
  ev_filename : string;
  ev_folder : string
}.

Record WatchState := mkWatchState {
  activeWatcher : option string;        (* the folder of the live [fs.watch] handle *)
  watchedPath : option string;
  watchDebounceTimer : option nat;      (* handle returned by the last [setTimeout] *)
  armedTimers : list (Timer DebouncedEvent);
  nextTimerHandle : nat
}.

Definition debounceMs : nat := 300.

Definition stopWatching (st : WatchState) : WatchState :=
  let st1 :=
    match activeWatcher st with
    | Some _ => mkWatchState None None (watchDebounceTimer st)
                  (armedTimers st) (nextTimerHandle st)
    | None => st
    end in
  match watchDebounceTimer st1 with
  | Some h => mkWatchState (activeWatcher st1) (watchedPath st1) None
                (clearTimeout h (armedTimers st1)) (nextTimerHandle st1)
  | None => st1
  end.

(** [startWatching(folderPath)]; [exists_] is [existsSync(folderPath)] and
    [watchOk] tells whether [fs.watch] returned a handle (it can throw). *)
Definition startWatching (folderPath : string) (exists_ watchOk : bool)
    (st : WatchState) : WatchState :=
  let st1 := stopWatching st in
  if negb exists_ then st1
  else
    mkWatchState (if watchOk then Some folderPath else None) (Some folderPath)
      (watchDebounceTimer st1) (armedTimers st1) (nextTimerHandle st1).

(** The listener given to [fs.watch], run at time [now] for the folder the
    watcher was created on. *)
Definition onFsEvent (now : nat) (folderPath eventType filename : string)
    (st : WatchState) : WatchState :=
  let armed :=
    match watchDebounceTimer st with
    | Some h => clearTimeout h (armedTimers st)
    | None => armedTimers st
    end in
  let h := nextTimerHandle st in
  mkWatchState (activeWatcher st) (watchedPath st) (Some h)
    (armed ++ [mkTimer h (now + debounceMs) (mkDebounced eventType filename folderPath)])%list
    (S h).

(** The body of the debounce timer; it runs when its deadline is reached,
    which is the time [new Date()] reads. *)
Definition fireDebounce (t : Timer DebouncedEvent) : Output :=
  Broadcast "file_changed"
    (FileChanged (ev_type (callback t)) (ev_filename (callback t))
       (ev_folder (callback t)) (deadline t)).

(** The event loop reaching time [now]: the due timers run. *)
Definition watchAdvance (now : nat) (st : WatchState) : WatchState * list Output :=
  (mkWatchState (activeWatcher st) (watchedPath st) (watchDebounceTimer st)
     (stillArmed now (armedTimers st)) (nextTimerHandle st),
   map fireDebounce (dueTimers now (armedTimers st))).

(** A raw OS change event, stamped with its arrival time. *)
Record RawEvent := mkRaw {
  raw_time : nat;
  raw_type : string;
  raw_filename : string
}.

(** The watcher fed with raw events in arrival order.  Before the listener
    runs for an event, the timers that are due at its arrival time have
    run. *)
Fixpoint watchRun (events : list RawEvent) (st : WatchState)
  : WatchState * list Output :=
  match events with
  | [] => (st, [])
  | e :: rest =>
      let '(st1, out1) := watchAdvance (raw_time e) st in
      let st2 :=
        match activeWatcher st1 with
        | Some folder => onFsEvent (raw_time e) folder (raw_type e) (raw_filename e) st1
        | None => st1
        end in
      let '(st3, out3) := watchRun rest st2 in
      (st3, (out1 ++ out3)%list)
  end.

(** Raw events, then the clock runs on to [horizon]. *)
Definition watchSession (events : list RawEvent) (horizon : nat) (st : WatchState)
  : WatchState * list Output :=
  let '(st1, out1) := watchRun events st in
  let '(st2, out2) := watchAdvance horizon st1 in
  (st2, (out1 ++ out2)%list).

(** ** Message store: [saveMessages] *)

Record ChatMessage := mkChatMessage {
  msg_type : string;
  msg_content : string;
  msg_context_summary : option string;
  msg_timestamp : string
}.

Record Store := mkStore {
  messages : list ChatMessage;              (* the module variable *)
  messagesFile : option (list ChatMessage)  (* the array in MESSAGES_FILE, if the file exists *)
}.

Definition maxMessages : nat := 500.

(** [saveMessages()]; [writeOk] is false when [writeFileSync] throws, which
    the [catch] swallows after the truncation has been assigned. *)
Definition saveMessages (writeOk : bool) (st : Store) : Store :=
  let messages' :=
    if (maxMessages <? length (messages st))%nat
    then Js.sliceLast maxMessages (messages st)
    else messages st in
  mkStore messages' (if writeOk then Some messages' else messagesFile st).

(** The two request handlers that change [messages]. *)
Inductive StoreOp : Type :=
| PostBroadcast (msg : ChatMessage) (writeOk : bool)   (* POST /api/broadcast *)
| PostClear (writeOk : bool).                          (* POST /api/messages/clear *)

Definition storeStep (op : StoreOp) (st : Store) : Store :=
  match op with
  | PostBroadcast msg writeOk =>
      saveMessages writeOk (mkStore (messages st ++ [msg])%list (messagesFile st))
  | PostClear writeOk =>
      saveMessages writeOk (mkStore [] (messagesFile st))
  end.

Definition storeRun (ops : list StoreOp) (st : Store) : Store :=
  fold_left (fun s op => storeStep op s) ops st.

(** ** Remote call transport: request/response correlation

    [connectToTarget] (its [send]) and the [call] helpers of
    [getModelAndMode], [setModel], [setMode], [getPendingApprovals] and
    [respondToApproval] share one shape: a counter [messageId] starting at
    1, a [pending] map from request id to the resolver pair of the promise
    created by that call, and a message handler.  The helpers arm a timer
    per call; [send] does not. *)

Module Transport.

(** The operations that open a connection. *)
Inductive Operation : Type :=
| ConnectToTarget
| GetModelAndMode
| SetModel
| SetMode
| GetPendingApprovals
| RespondToApproval.

(** The delay given to [setTimeout] in the operation's [call], if any. *)
Definition timeoutMs (op : Operation) : option nat :=
  match op with
  | ConnectToTarget => None
  | GetModelAndMode => Some 3000
  | SetModel => Some 5000
  | SetMode => Some 5000
  | GetPendingApprovals => Some 5000
  | RespondToApproval => Some 5000
  end.

(** Whether the message handler has the
    [Runtime.executionContextCreated] branch. *)
Definition tracksContexts (op : Operation) : bool :=
  match op with
  | ConnectToTarget => false
  | _ => true
  end.

(** How the promise of a call was settled. *)
Inductive Outcome : Type :=
| Resolved (result : string)          (* resolve(msg.result) *)
| RejectedError (message : string)    (* reject(new Error(msg.error.message)) *)
| RejectedTimeout.                    (* rej(new Error('Timeout')) *)

(** The resolver pair stored in [pending]: it settles the promise of
    the call that created it. *)
Record Resolver := mkResolver { promiseOf : nat }.

(** An outbound frame [{id, method, params}]. *)
Record Frame := mkFrame {
  f_id : nat;
  f_method : string;
  f_params : string
}.

(** A parsed inbound frame. *)
Record Inbound := mkInbound {
  m_id : option nat;          (* [None]: no numeric [id] field *)
  m_error : option string;    (* [error.message] when [error] is present *)
  m_result : string;
  m_method : option string;
  m_context : option nat      (* [params.context.id] when present *)
}.

Record Conn := mkConn {
  op : Operation;
  messageId : nat;
  pending : gmap nat Resolver;
  contexts : list nat;
  sent : list Frame;                       (* frames given to [ws.send], oldest first *)
  settled : list (nat * Outcome);          (* calls of a resolver: promise and outcome, oldest first *)
  timers : list (Timer nat);               (* armed timeout timers; the callback closes over the id *)
  nextHandle : nat;
  clock : nat;
  wsFailed : bool;                         (* an 'error' event was delivered *)
  wsClosed : bool                          (* [ws.close()] was called *)
}.

(** A fresh connection at time [now]. *)
Definition connect (o : Operation) (now : nat) : Conn :=
  mkConn o 1 ∅ [] [] [] [] 0 now false false.

(** [send(method, params)] / [call(method, params)]: returns the id. *)
Definition call (method params : string) (c : Conn) : nat * Conn :=
  let id := messageId c in
  let armed :=
    match timeoutMs (op c) with
    | Some ms => (timers c ++ [mkTimer (nextHandle c) (clock c + ms) id])%list
    | None => timers c
    end in
  (id,
   mkConn (op c) (S id) (<[id := mkResolver id]> (pending c)) (contexts c)
     (sent c ++ [mkFrame id method params])%list (settled c)
     armed (S (nextHandle c)) (clock c) (wsFailed c) (wsClosed c)).

(** [msg.id && pending.has(msg.id)]: 0 is falsy. *)
Definition matchedResolver (m : Inbound) (c : Conn) : option (nat * Resolver) :=
  match m_id m with
  | Some id =>
      if (id =? 0)%nat then None
      else match pending c !! id with
           | Some r => Some (id, r)
           | None => None
           end
  | None => None
  end.

(** The ['message'] handler. *)
Definition onMessage (m : Inbound) (c : Conn) : Conn :=
  match matchedResolver m c with
  | Some (id, r) =>
      let outcome :=
        match m_error m with
        | Some message => RejectedError message
        | None => Resolved (m_result m)
        end in
      mkConn (op c) (messageId c) (delete id (pending c)) (contexts c) (sent c)
        (settled c ++ [(promiseOf r, outcome)])%list
        (timers c) (nextHandle c) (clock c) (wsFailed c) (wsClosed c)
  | None =>
      if tracksContexts (op c) then
        match m_method m, m_context m with
        | Some method, Some ctx =>
            if String.eqb method "Runtime.executionContextCreated"
            then mkConn (op c) (messageId c) (pending c) (contexts c ++ [ctx])%list
                   (sent c) (settled c) (timers c) (nextHandle c) (clock c)
                   (wsFailed c) (wsClosed c)
            else c
        | _, _ => c
        end
      else c
  end.

(** The body of the timeout timer of call [id]. *)
Definition onTimeout (id : nat) (c : Conn) : Conn :=
  match pending c !! id with
  | Some _ =>
      mkConn (op c) (messageId c) (delete id (pending c)) (contexts c) (sent c)
        (settled c ++ [(id, RejectedTimeout)])%list
        (timers c) (nextHandle c) (clock c) (wsFailed c) (wsClosed c)
  | None => c
  end.

(** The ['error'] handler: it settles the promise of the whole
    operation ([reject] of [connectToTarget], [resolve] with a default
    value elsewhere) and touches neither [pending] nor any call. *)
Definition onError (c : Conn) : Conn :=
  mkConn (op c) (messageId c) (pending c) (contexts c) (sent c) (settled c)
    (timers c) (nextHandle c) (clock c) true (wsClosed c).

(** The clock moves on by [ms]; the timers that became due run in the
    order in which they were armed. *)
Definition elapse (ms : nat) (c : Conn) : Conn :=
  let now := clock c + ms in
  let due := dueTimers now (timers c) in
  let c1 :=
    mkConn (op c) (messageId c) (pending c) (contexts c) (sent c) (settled c)
      (stillArmed now (timers c)) (nextHandle c) now (wsFailed c) (wsClosed c) in
  fold_left (fun acc t => onTimeout (callback t) acc) due c1.

(** What can happen to a connection. *)
Inductive Event : Type :=
| Call (method params : string)
| Message (m : Inbound)
| WsError
| Elapse (ms : nat).

Definition step (e : Event) (c : Conn) : Conn :=
  match e with
  | Call method params => snd (call method params c)
  | Message m => onMessage m c
  | WsError => onError c
  | Elapse ms => elapse ms c
  end.

Definition run (es : list Event) (c : Conn) : Conn :=
  fold_left (fun acc e => step e acc) es c.

(** The outcomes recorded for the promise of call [id]. *)
Definition outcomesOf (id : nat) (c : Conn) : list Outcome :=
  map snd (List.filter (fun p => (fst p =? id)%nat) (settled c)).

(** The ids issued so far, oldest first. *)
Definition issued (c : Conn) : list nat := map f_id (sent c).

(** A reply frame [{id, result}] or [{id, error: {message}}]. *)
Definition reply (id : nat) (error : option string) (result : string) : Inbound :=
  mkInbound (Some id) error result None None.

End Transport.

(** ** State extractors: the DOM seen by the in-page scripts *)

Record Elem := mkElem {
  el_id : nat;                     (* identity of the DOM node *)
  innerText : string;              (* [''] when absent *)
  textContent : string;
  closestButton : option nat       (* [el.closest('button') || el.closest('[role="button"]')] *)
}.

(** [(el.innerText || el.textContent || '')] *)
Definition rawText (el : Elem) : string := Js.orElse (innerText el) (textContent el).

Definition someIncludes (text : string) (keywords : list string) : bool :=
  existsb (fun k => Js.includes text k) keywords.

Definition someStartsWith (text : string) (keywords : list string) : bool :=
  existsb (fun k => Js.startsWith text k) keywords.

(** ** Model/mode reader: [getModelAndMode] *)

Record ModelAndMode := mkModelAndMode {
  model : option string;
  mode : option string
}.

(** [/^(claude|gemini|gpt)/i.test(text) &&
     /(opus|sonnet|flash|pro|thinking|high|low|medium)/i.test(text)] *)
Definition looksLikeModel (text : string) : bool :=
  let t := Js.toLowerCase text in
  someStartsWith t ["claude"; "gemini"; "gpt"] &&
  someIncludes t ["opus"; "sonnet"; "flash"; "pro"; "thinking"; "high"; "low"; "medium"].

(** [/^(planning|fast)$/i.test(text)] *)
Definition looksLikeMode (text : string) : bool :=
  let t := Js.toLowerCase text in
  String.eqb t "planning" || String.eqb t "fast".

Definition isSome {A} (o : option A) : bool :=
  match o with Some _ => true | None => false end.

(** The [for (const el of allElements)] loop of the reader script. *)
Fixpoint readerLoop (els : list Elem) (model mode : option string)
  : option string * option string :=
  match els with
  | [] => (model, mode)
  | el :: rest =>
      let text := Js.trim (rawText el) in
      if (String.length text <? 4)%nat || (50 <? String.length text)%nat
      then readerLoop rest model mode
      else
        let model1 :=
          if negb (isSome model) && looksLikeModel text then Some text else model in
        let mode1 :=
          if negb (isSome mode) && looksLikeMode text then Some text else mode in
        if isSome model1 && isSome mode1 then (model1, mode1)
        else readerLoop rest model1 mode1
  end.

(** The reader script on the elements of one execution context. *)
Definition readerScript (els : list Elem) : ModelAndMode :=
  let '(m, d) := readerLoop els None None in mkModelAndMode m d.

(** How one connection of an extractor went: the socket failed, the first
    call ([Runtime.enable]) was rejected, or the script ran in the known
    contexts in discovery order.  A context is the list of the elements its
    selector query returns; [None] is a context whose [Runtime.evaluate]
    call was rejected (error reply or timeout) or returned no value. *)
Inductive Session : Type :=
| SocketError
| EnableRejected (message : string)
| Contexts (ctxs : list (option (list Elem))).

Definition defaultModelAndMode : ModelAndMode :=
  mkModelAndMode (Some "Unknown") (Some "Planning").

(** The [for (const ctx of contexts)] loop of [getModelAndMode]. *)
Fixpoint readContexts (ctxs : list (option (list Elem))) : ModelAndMode :=
  match ctxs with
  | [] => defaultModelAndMode
  | None :: rest => readContexts rest
  | Some els :: rest =>
      let value := readerScript els in
      if Js.truthy (model value) then value else readContexts rest
  end.

(** [getModelAndMode], once a target was found. *)
Definition getModelAndMode (s : Session) : ModelAndMode :=
  match s with
  | SocketError => defaultModelAndMode
  | EnableRejected _ => defaultModelAndMode
  | Contexts ctxs => readContexts ctxs
  end.

(** [GET /api/models]: [currentMode: modeResult.mode || 'Unknown']. *)
Definition apiCurrentMode (modeResult : ModelAndMode) : string :=
  if Js.truthy (mode modeResult) then orEmpty (mode modeResult) else "Unknown".

(** ** Model/mode setter: [setModel], [setMode] *)

(** What a setter script does to the page, and the [console.log] line that
    tells which check selected the candidate. *)
Inductive Tier : Type := ExactTier | AllPartsTier | RelaxedTier.

Inductive Effect : Type :=
| Click (el : nat)
| ScrollIntoView (el : nat)
| DispatchKeydown (key : string)
| LogTier (t : Tier).

(** The value a setter script returns. *)
Record SetResult := mkSetResult {
  r_found : bool;
  r_success : bool;
  r_selected : option string;
  r_error : option string;
  r_candidatesFound : option (list string);
  r_allTexts : option (list string)
}.

(** The page as the setter script queries it: the elements of
    ['button, div[role="button"], p, span'] before the click, and, 600 ms
    after it, the ['[class*="cursor-pointer"]'] elements and the elements
    of each of the four menu selectors. *)
Record SetterDom := mkSetterDom {
  allElements : list Elem;
  cursorPointerItems : list Elem;
  menuItems : list (list Elem)
}.

Record Candidate := mkCandidate {
  c_el : Elem;
  c_text : string
}.

(** [getNorm] *)
Definition getNorm (el : Elem) : string := Js.toLowerCase (Js.trim (rawText el)).

(** [el.closest('button') || el.closest('[role="button"]') || el] *)
Definition clickableOf (el : Elem) : nat :=
  match closestButton el with
  | Some b => b
  | None => el_id el
  end.

Definition modelKeywords : list string :=
  ["gemini"; "claude"; "gpt"; "opus"; "sonnet"; "flash"; "model"].

(** The search for the model selector button. *)
Fixpoint findModelButton (els : list Elem) : option nat :=
  match els with
  | [] => None
  | el :: rest =>
      let text := Js.toLowerCase (Js.trim (innerText el)) in
      if (String.length text <? 3)%nat || (60 <? String.length text)%nat
      then findModelButton rest
      else if someIncludes text modelKeywords then Some (clickableOf el)
      else findModelButton rest
  end.

(** Candidates among the cursor-pointer elements. *)
Fixpoint modelCandidates (items : list Elem) : list Candidate :=
  match items with
  | [] => []
  | item :: rest =>
      let text := getNorm item in
      if (3 <? String.length text)%nat && (String.length text <? 100)%nat
         && someIncludes text modelKeywords
      then mkCandidate item text :: modelCandidates rest
      else modelCandidates rest
  end.

(** The fall-back: the items of one menu selector, appended to
    [candidates] unless the same node is already there. *)
Fixpoint menuCandidates (items : list Elem) (candidates : list Candidate)
  : list Candidate :=
  match items with
  | [] => candidates
  | item :: rest =>
      let text := getNorm item in
      if (3 <? String.length text)%nat && (String.length text <? 80)%nat
         && negb (existsb (fun c => (el_id (c_el c) =? el_id item)%nat) candidates)
      then menuCandidates rest (candidates ++ [mkCandidate item text])%list
      else menuCandidates rest candidates
  end.

(** [for (const sel of menuSelectors)], stopping at the first selector
    that produced candidates. *)
Fixpoint menuFallback (menus : list (list Elem)) : list Candidate :=
  match menus with
  | [] => []
  | items :: rest =>
      match menuCandidates items [] with
      | [] => menuFallback rest
      | cs => cs
      end
  end.

Definition collectModelCandidates (dom : SetterDom) : list Candidate :=
  match modelCandidates (cursorPointerItems dom) with
  | [] => menuFallback (menuItems dom)
  | cs => cs
  end.

Definition isAlnum (c : ascii) : bool := Js.isLetter c || Js.isDigit c.

(** [targetModel.split(/[^a-z0-9]+/i).filter(p => p.length > 1)] *)
Definition targetPartsOf (targetModel : string) : list string :=
  List.filter (fun p => (1 <? String.length p)%nat)
    (Js.split (fun c => negb (isAlnum c)) targetModel).

(** Check 1 *)
Definition exactMatch (targetModel : string) (candText : string) : bool :=
  String.eqb candText targetModel.

(** Check 2: [targetParts.every(part => candText.includes(part))] *)
Definition allPartsMatch (targetParts : list string) (candText : string) : bool :=
  forallb (fun part => Js.includes candText part) targetParts.

(** The inner counting loop of check 3. *)
Definition matchCount (targetParts : list string) (candText : string) : nat :=
  length (List.filter (fun part => Js.includes candText part) (drop 1 targetParts)).

(** Check 3: at least two parts, the first one is in the candidate, and
    [matchCount >= (targetParts.length - 1) / 2] (a real division). *)
Definition relaxedMatch (targetParts : list string) (candText : string) : bool :=
  (2 <=? length targetParts)%nat &&
  match targetParts with
  | family :: _ =>
      Js.includes candText family &&
      (length targetParts - 1 <=? 2 * matchCount targetParts candText)%nat
  | [] => false
  end.

(** The [for (const cand of candidates)] loop of [setModel].  Checks 1
    and 2 assign [bestMatch] and [break]; check 3 assigns it and goes on. *)
Fixpoint matchLoop (targetModel : string) (targetParts : list string)
    (candidates : list Candidate) (bestMatch : option (Candidate * Tier))
  : option (Candidate * Tier) :=
  match candidates with
  | [] => bestMatch
  | cand :: rest =>
      if exactMatch targetModel (c_text cand) then Some (cand, ExactTier)
      else if allPartsMatch targetParts (c_text cand) then Some (cand, AllPartsTier)
      else if relaxedMatch targetParts (c_text cand)
      then matchLoop targetModel targetParts rest (Some (cand, RelaxedTier))
      else matchLoop targetModel targetParts rest bestMatch
  end.

(** The candidate that [setModel] clicks for [modelName]. *)
Definition selectModel (modelName : string) (candidates : list Candidate)
  : option (Candidate * Tier) :=
  let targetModel := Js.toLowerCase modelName in
  matchLoop targetModel (targetPartsOf targetModel) candidates None.

(** The script of [setModel]. *)
Definition setModelScript (modelName : string) (dom : SetterDom)
  : SetResult * list Effect :=
  match findModelButton (allElements dom) with
  | None =>
      (mkSetResult true false None (Some "Model button not found") None None, [])
  | Some modelButton =>
      match selectModel modelName (collectModelCandidates dom) with
      | Some (cand, tier) =>
          let best := c_el cand in
          (mkSetResult true true (Some (innerText best)) None None None,
           [Click modelButton; LogTier tier;
            ScrollIntoView (el_id best); Click (el_id best)])
      | None =>
          (mkSetResult true false None (Some "Model option not found") None None,
           [Click modelButton; DispatchKeydown "Escape"])
      end
  end.

Definition modeKeywords : list string := ["planning"; "fast"].

(** [modeKeywords.some(k => text === k || text.startsWith(k))] *)
Definition isModeLabel (text : string) : bool :=
  existsb (fun k => String.eqb text k || Js.startsWith text k) modeKeywords.

Fixpoint findModeButton (els : list Elem) : option nat :=
  match els with
  | [] => None
  | el :: rest =>
      let text := Js.toLowerCase (Js.trim (innerText el)) in
      if (String.length text <? 2)%nat || (30 <? String.length text)%nat
      then findModeButton rest
      else if isModeLabel text then Some (clickableOf el)
      else findModeButton rest
  end.

(** The loop over the cursor-pointer elements of [setMode]: it fills
    [allCursorPointerTexts] and [candidates]. *)
Fixpoint modeCandidates (items : list Elem) : list string * list Candidate :=
  match items with
  | [] => ([], [])
  | item :: rest =>
      let text := getNorm item in
      let '(texts, cands) := modeCandidates rest in
      if (1 <? String.length text)%nat && (String.length text <? 150)%nat then
        (Js.substringTo 60 text :: texts,
         if someIncludes text modeKeywords || (String.length text <? 30)%nat
         then mkCandidate item text :: cands
         else cands)
      else (texts, cands)
  end.

(** The first candidate whose text includes the target. *)
Definition selectMode (targetMode : string) (candidates : list Candidate)
  : option Candidate :=
  js_find (fun cand => Js.includes (c_text cand) targetMode) candidates.

(** The script of [setMode]. *)
Definition setModeScript (modeName : string) (dom : SetterDom)
  : SetResult * list Effect :=
  let targetMode := Js.toLowerCase modeName in
  match findModeButton (allElements dom) with
  | None =>
      (mkSetResult true false None (Some "Mode button not found") None None, [])
  | Some modeButton =>
      let '(allCursorPointerTexts, candidates) :=
        modeCandidates (cursorPointerItems dom) in
      match selectMode targetMode candidates with
      | Some cand =>
          let best := c_el cand in
          (mkSetResult true true (Some (innerText best)) None None None,
           [Click modeButton; ScrollIntoView (el_id best); Click (el_id best)])
      | None =>
          let candidateTexts := map (fun c => Js.substringTo 50 (c_text c)) candidates in
          (mkSetResult true false None (Some "Mode option not found")
             (Some candidateTexts) (Some (take 10 allCursorPointerTexts)),
           [Click modeButton; DispatchKeydown "Escape"])
      end
  end.

(** The context loop of [setModel] and [setMode]: the value of the first
    context whose evaluation returned a value with [found] set.  [None] is
    a context whose call was rejected. *)
Fixpoint firstFound (script : SetterDom -> SetResult * list Effect)
    (ctxs : list (option SetterDom)) : SetResult * list Effect :=
  match ctxs with
  | [] =>
      (mkSetResult false false None (Some "Webview context not found") None None, [])
  | None :: rest => firstFound script rest
  | Some dom :: rest =>
      let '(value, effects) := script dom in
      if r_found value then (value, effects)
      else
        let '(value', effects') := firstFound script rest in
        (value', (effects ++ effects')%list)
  end.

Definition setModel (modelName : string) (ctxs : list (option SetterDom))
  : SetResult * list Effect :=
  firstFound (setModelScript modelName) ctxs.

Definition setMode (modeName : string) (ctxs : list (option SetterDom))
  : SetResult * list Effect :=
  firstFound (setModeScript modeName) ctxs.

(** ** The watcher under arbitrary use *)

(** What can happen to the watcher: the file-listing request starts a watch,
    the unwatch request stops it, the OS reports a change, time passes. *)
Inductive WatchOp : Type :=
| OpWatch (folderPath : string) (exists_ watchOk : bool)
| OpUnwatch
| OpRaw (e : RawEvent)
| OpTick (now : nat).

Definition watchStep (o : WatchOp) (st : WatchState) : WatchState * list Output :=
  match o with
  | OpWatch folderPath exists_ watchOk => (startWatching folderPath exists_ watchOk st, [])
  | OpUnwatch => (stopWatching st, [])
  | OpRaw e => watchRun [e] st
  | OpTick now => watchAdvance now st
  end.

Fixpoint watchOps (ops : list WatchOp) (st : WatchState) : WatchState * list Output :=
  match ops with
  | [] => (st, [])
  | o :: rest =>
      let '(st1, out1) := watchStep o st in
      let '(st2, out2) := watchOps rest st1 in
      (st2, (out1 ++ out2)%list)
  end.

(** ** Reading the message store: [GET /api/messages] *)

(** [xs.slice(start)] for any integer [start]: a negative [start] counts
    from the end of the array. *)
Definition sliceFromZ {A} (start : Z) (xs : list A) : list A :=
  if (start <? 0)%Z
  then drop (Z.to_nat (Z.max (Z.of_nat (length xs) + start) 0)) xs
  else drop (Z.to_nat start) xs.

(** [parseInt(req.query.limit) || 100]: [None] is NaN; NaN and 0 are
    falsy. *)
Definition messagesLimit (parsed : option Z) : Z :=
  match parsed with
  | Some n => if (n =? 0)%Z then 100%Z else n
  | None => 100%Z
  end.

(** The body of the answer: [{messages: messages.slice(-limit), count:
    messages.length}]. *)
Definition getMessages (parsed : option Z) (st : Store) : list ChatMessage * nat :=
  (sliceFromZ (- messagesLimit parsed) (messages st), length (messages st)).

(** ** Authentication *)

Record AuthState := mkAuthState {
  authEnabled : bool;
  authPinHash : option string;
  validSessions : gset string
}.

Definition initialAuthState : AuthState := mkAuthState false None ∅.

(** [/^\d+$/.test(pin)] *)
Fixpoint allDigits (s : string) : bool :=
  match s with
  | EmptyString => true
  | String c r => Js.isDigit c && allDigits r
  end.

Definition digitsOnly (pin : string) : bool :=
  match pin with
  | EmptyString => false
  | _ => allDigits pin
  end.

(** [pin.length >= 4 && pin.length <= 6 && /^\d+$/.test(pin)] *)
Definition acceptablePin (pin : string) : bool :=
  (4 <=? String.length pin)%nat && (String.length pin <=? 6)%nat && digitsOnly pin.

(** What [promptForAuth] reads: the environment variable, whether the
    standard input is a terminal, and the two answers typed there. *)
Record AuthSetup := mkAuthSetup {
  envMobilePin : option string;
  stdinIsTTY : bool;
  answerEnable : string;
  answerPin : string
}.

(** [s.replace(pat, '')] for a string pattern: the first occurrence of
    [pat] is removed. *)
Fixpoint removeFirst (pat s : string) : string :=
  if String.prefix pat s then Js.substringFrom (String.length pat) s
  else match s with
       | EmptyString => EmptyString
       | String c r => String c (removeFirst pat r)
       end.

Inductive LoginResponse : Type :=
| LoginOk (token : string)                 (* 200 {success: true, token} *)
| LoginPinRequired                         (* 400 *)
| LoginInvalidPin.                         (* 401 *)

Section Auth.

(** [createHash('sha256').update(pin).digest('hex')] *)
Variable hashPin : string -> string.

Definition promptForAuth (setup : AuthSetup) (st : AuthState) : AuthState :=
  if Js.truthy (envMobilePin setup) then
    let pin := orEmpty (envMobilePin setup) in
    if acceptablePin pin
    then mkAuthState true (Some (hashPin pin)) (validSessions st)
    else st
  else if negb (stdinIsTTY setup) then st
  else if String.eqb (Js.toLowerCase (answerEnable setup)) "y" then
    if acceptablePin (answerPin setup)
    then mkAuthState true (Some (hashPin (answerPin setup))) (validSessions st)
    else st
  else st.

(** [validateSession(token)]; [None] is [undefined]. *)
Definition validateSession (token : option string) (st : AuthState) : bool :=
  if negb (authEnabled st) then true
  else match token with
       | Some t => bool_decide (t ∈ validSessions st)
       | None => false
       end.

(** [req.headers.authorization?.replace('Bearer ', '')] *)
Definition bearerToken (authorization : option string) : option string :=
  removeFirst "Bearer " <$> authorization.

(** [POST /api/auth/login]; [freshToken] is what [generateSessionToken()]
    would return. *)
Definition login (pin : option string) (freshToken : string) (st : AuthState)
  : LoginResponse * AuthState :=
  if negb (authEnabled st) then (LoginOk "no-auth-required", st)
  else if negb (Js.truthy pin) then (LoginPinRequired, st)
  else if bool_decide (Some (hashPin (orEmpty pin)) = authPinHash st)
  then (LoginOk freshToken,
        mkAuthState (authEnabled st) (authPinHash st) ({[freshToken]} ∪ validSessions st))
  else (LoginInvalidPin, st).

(** [POST /api/auth/logout] *)
Definition logout (authorization : option string) (st : AuthState) : AuthState :=
  let token := bearerToken authorization in
  if Js.truthy token
  then mkAuthState (authEnabled st) (authPinHash st) (validSessions st ∖ {[orEmpty token]})
  else st.

(** The middleware mounted on [/api]: [true] is [next()], [false] the 401
    answer.  [path] is the request path below [/api]. *)
Definition authMiddleware (path : string) (authorization : option string)
    (st : AuthState) : bool :=
  if Js.startsWith path "/auth/" then true
  else if negb (authEnabled st) then true
  else validateSession (bearerToken authorization) st.

End Auth.

(** ** Approval responder: [respondToApproval] *)





Record ApprovalResult := mkApprovalResult {
  a_found : bool;
  a_success : bool;
  a_action : option string;
  a_buttonText : option string;
  a_error : option string
}.




(** ** [POST /api/approvals/respond] *)

(** A call of [broadcast(event, data)] with the fields of [data]. *)
Record HubEvent := mkHubEvent {
  hub_event : string;
  hub_data : list (string * string)
}.

Inductive ApprovalAnswer : Type :=
| ApprovalBadRequest                          (* 400 *)
| ApprovalJson (result : ApprovalResult)      (* res.json(result) *)
| ApprovalServerError (message : string).     (* 500 *)

(** The handler; [cdp] is [CDP.respondToApproval], whose completion is
    [Thrown] when target discovery fails. *)
Definition postApprovalsRespond (action : option string)
    (cdp : string -> Completion ApprovalResult) : ApprovalAnswer * list HubEvent :=
  if negb (Js.truthy action)
     || negb (existsb (String.eqb (orEmpty action)) ["approve"; "reject"])
  then (ApprovalBadRequest, [])
  else
    match cdp (orEmpty action) with
    | Thrown message => (ApprovalServerError message, [])
    | Returned result =>
        (ApprovalJson result,
         if a_success result
         then [mkHubEvent "approval_responded" [("action", orEmpty (a_action result))]]
         else [])
    end.

(** ** [getAvailableModels] and [GET /api/models] *)

Definition knownModels : list string :=
  [ "Gemini 3 Pro (High)"; "Gemini 3 Pro (Low)"; "Gemini 3 Flash";
    "Claude Sonnet 4.5"; "Claude Sonnet 4.5 (Thinking)";
    "Claude Opus 4.5 (Thinking)"; "GPT-OSS 120B (Medium)" ].

Record AvailableModels := mkAvailableModels {
  am_models : list string;
  am_current : string
}.

(** [getAvailableModels]; the argument is the completion of its call of
    [getModelAndMode], which throws when no target is found. *)
Definition getAvailableModels (current : Completion ModelAndMode) : AvailableModels :=
  match current with
  | Returned value =>
      mkAvailableModels knownModels
        (if Js.truthy (model value) then orEmpty (model value) else "Unknown")
  | Thrown _ => mkAvailableModels knownModels "Unknown"
  end.

Record ModelsAnswer := mkModelsAnswer {
  ma_models : list string;
  ma_currentModel : string;
  ma_currentMode : string;
  ma_error : option string
}.

(** The handler of [GET /api/models]: [first] is the reading made inside
    [getAvailableModels], [second] the one the handler makes itself. *)
Definition getApiModels (first second : Completion ModelAndMode) : ModelsAnswer :=
  let result := getAvailableModels first in
  match second with
  | Returned modeResult =>
      mkModelsAnswer (am_models result)
        (if Js.truthy (model modeResult) then orEmpty (model modeResult)
         else Js.orElse (am_current result) "Unknown")
        (apiCurrentMode modeResult)
        None
  | Thrown message =>
      mkModelsAnswer
        [ "Gemini 3 Pro (High)"; "Gemini 3 Pro (Low)"; "Gemini 3 Flash";
          "Claude Sonnet 4.5"; "Claude Sonnet 4.5 (Thinking)";
          "Claude Opus 4.5 (Thinking)"; "GPT-OSS 120B (Medium)" ]
        "Unknown" "Unknown" (Some message)
  end.

(** A reading of the model and mode, as the handlers obtain it: the call
    throws when there is no editor target. *)
Definition readModelAndMode (target : option Target) (s : Session)
  : Completion ModelAndMode :=
  match target with
  | None => Thrown "No editor target found"
  | Some _ => Returned (getModelAndMode s)
  end.

(** ** Operations on a [connectToTarget] client: [injectCommand],
    [injectAndSubmit] *)

(** The scripts given to [Runtime.evaluate] by these operations. *)
Inductive PageScript : Type :=
| FocusInputField.          (* the expression of [injectCommand] *)

(** The [params] objects of the requests. *)
Inductive CdpParams : Type :=
| ParamsEvaluate (expression : PageScript) (returnByValue : bool)
| ParamsKeyEvent (type : string) (text : option string) (key code : string)
    (virtualKeyCode : option nat)
| ParamsInsertText (text : string).

(** What the wire does with a request: a result frame, an error frame, or
    nothing at all. *)
Inductive Reply : Type :=
| ReplyResult (result : string)
| ReplyError (message : string)
| ReplyNever.

(** How an [await client.send(...)] continues. *)
Inductive Await : Type :=
| Resumed (result : string)
| Raised (message : string)
| Suspended.

(** How the body of an operation ends. *)
Inductive Run : Type :=
| Completed (results : list string)
| Failed (message : string)
| Hung.

(** [char.toUpperCase()] on an ASCII character. *)
Definition upperChar (c : ascii) : ascii :=
  if Js.isLower c then ascii_of_nat (nat_of_ascii c - 32) else c.

Definition charString (c : ascii) : string := String c EmptyString.

Fixpoint charsOf (s : string) : list ascii :=
  match s with
  | EmptyString => []
  | String c r => c :: charsOf r
  end.

(** [client.close()] *)
Definition closeConn (c : Transport.Conn) : Transport.Conn :=
  Transport.mkConn (Transport.op c) (Transport.messageId c) (Transport.pending c)
    (Transport.contexts c) (Transport.sent c) (Transport.settled c) (Transport.timers c)
    (Transport.nextHandle c) (Transport.clock c) (Transport.wsFailed c) true.

(** The promise of call [id] as an [await] sees it. *)
Definition awaited (id : nat) (c : Transport.Conn) : Await :=
  match Transport.outcomesOf id c with
  | Transport.Resolved result :: _ => Resumed result
  | Transport.RejectedError message :: _ => Raised message
  | Transport.RejectedTimeout :: _ => Raised "Timeout"
  | [] => Suspended
  end.

(** The two requests of one typed character. *)
Definition keyRequests (c : ascii) : list (string * CdpParams) :=
  [ ("Input.dispatchKeyEvent",
     ParamsKeyEvent "keyDown" (Some (charString c)) (charString c)
       ("Key" ++ charString (upperChar c)) None);
    ("Input.dispatchKeyEvent",
     ParamsKeyEvent "keyUp" None (charString c)
       ("Key" ++ charString (upperChar c)) None) ].

(** The requests of [injectCommand(text)], in program order. *)
Definition injectCommandRequests (text : string) : list (string * CdpParams) :=
  ("Runtime.evaluate", ParamsEvaluate FocusInputField true)
  :: flat_map keyRequests (charsOf text).

(** The requests of [injectAndSubmit(text)]. *)
Definition injectAndSubmitRequests (text : string) : list (string * CdpParams) :=
  [ ("Input.insertText", ParamsInsertText text);
    ("Input.dispatchKeyEvent", ParamsKeyEvent "keyDown" None "Enter" "Enter" (Some 13));
    ("Input.dispatchKeyEvent", ParamsKeyEvent "keyUp" None "Enter" "Enter" (Some 13)) ].

Section Client.

(** [JSON.stringify] of a [params] object. *)
Variable stringify : CdpParams -> string.

(** [await client.send(method, params)] up to the point where the wire has
    done what it does with the request. *)
Definition awaitSend (method : string) (params : CdpParams) (r : Reply)
    (c : Transport.Conn) : Transport.Conn :=
  let '(id, c1) := Transport.call method (stringify params) c in
  match r with
  | ReplyResult result => Transport.onMessage (Transport.reply id None result) c1
  | ReplyError message =>
      Transport.onMessage (Transport.reply id (Some message) EmptyString) c1
  | ReplyNever => c1
  end.

(** Awaited sends one after the other: the next request is sent only when
    the promise of the one before is fulfilled. *)
Fixpoint sendAll (requests : list (string * CdpParams)) (replies : list Reply)
    (c : Transport.Conn) : Run * Transport.Conn :=
  match requests with
  | [] => (Completed [], c)
  | (method, params) :: rest =>
      let id := Transport.messageId c in
      let c1 := awaitSend method params (hd ReplyNever replies) c in
      match awaited id c1 with
      | Resumed result =>
          let '(run, c2) := sendAll rest (tl replies) c1 in
          (match run with
           | Completed results => Completed (result :: results)
           | other => other
           end, c2)
      | Raised message => (Failed message, c1)
      | Suspended => (Hung, c1)
      end
  end.

(** [try { body } finally { client.close() }]: the [finally] block runs
    when the body returns or throws, not while it is suspended. *)
Definition withClient (requests : list (string * CdpParams)) (replies : list Reply)
    (c : Transport.Conn) : Run * Transport.Conn :=
  let '(run, c1) := sendAll requests replies c in
  match run with
  | Hung => (Hung, c1)
  | _ => (run, closeConn c1)
  end.

(** An operation from target discovery on: [discovery] is the completion
    of [getTargets()], and the socket of [connectToTarget] opens at time
    [now].  [None] for the connection means that none was opened.  The
    pauses between the requests ([setTimeout] of 100 and 50 ms) change
    nothing on a connection without timers. *)
Definition clientOperation (requests : list (string * CdpParams))
    (discovery : Completion (list Target)) (now : nat) (replies : list Reply)
  : Run * option Transport.Conn :=
  match discovery with
  | Thrown message => (Failed message, None)
  | Returned targets =>
      match findEditorTarget targets with
      | None => (Failed "No editor target found", None)
      | Some target =>
          if negb (Js.truthy (webSocketDebuggerUrl target))
          then (Failed "No WebSocket URL for target", None)
          else
            let '(run, c) :=
              withClient requests replies
                (Transport.connect Transport.ConnectToTarget now) in
            (run, Some c)
      end
  end.

Definition injectCommand (text : string) :=
  clientOperation (injectCommandRequests text).

Definition injectAndSubmit (text : string) :=
  clientOperation (injectAndSubmitRequests text).

End Client.

(** ** [POST /api/cdp/inject] *)

Inductive InjectAnswer : Type :=
| InjectBadRequest                                  (* 400, 'Text required' *)
| InjectJson (submitted : bool) (text : string)     (* res.json(result) *)
| InjectServerError (message : string)              (* 500 *)
| InjectNoAnswer.                                   (* suspended in the [await] *)

Record InjectEffect := mkInjectEffect {
  inj_answer : InjectAnswer;
  inj_store : Store;
  inj_events : list HubEvent;
  inj_connection : option Transport.Conn
}.

(** The handler; [text] is given as a string or is absent, [timestamp] is
    the [new Date().toISOString()] of the log entry. *)
Definition postCdpInject (stringify : CdpParams -> string)
    (text : option string) (submit : bool) (timestamp : string) (writeOk : bool)
    (discovery : Completion (list Target)) (now : nat) (replies : list Reply)
    (st : Store) : InjectEffect :=
  if negb (Js.truthy text) then mkInjectEffect InjectBadRequest st [] None
  else
    let text := orEmpty text in
    let '(run, conn) :=
      if submit
      then injectAndSubmit stringify text discovery now replies
      else injectCommand stringify text discovery now replies in
    match run with
    | Completed _ =>
        mkInjectEffect (InjectJson submit text)
          (saveMessages writeOk
             (mkStore (messages st ++ [mkChatMessage "mobile_command" text None timestamp])%list
                (messagesFile st)))
          [mkHubEvent "mobile_command"
             [("text", text); ("submitted", if submit then "true" else "false")]]
          conn
    | Failed message => mkInjectEffect (InjectServerError message) st [] conn
    | Hung => mkInjectEffect InjectNoAnswer st [] conn
    end.

(** ** The inbox: [POST /api/inbox], [GET /api/inbox/read] *)

Record InboxEntry := mkInboxEntry {
  in_content : string;
  in_from : string;
  in_timestamp : string
}.

Inductive InboxAnswer : Type :=
| InboxBadRequest                                           (* 400, 'Message required' *)
| InboxAccepted (inbox_count : nat)                         (* {success, inbox_count} *)
| InboxRead (entries : list InboxEntry) (count : nat).      (* {messages, count} *)

(** [POST /api/inbox] with [message] a string or absent; the number in the
    third component is the [count] of the [inbox_updated] broadcast. *)
Definition postInbox (message : option string) (timestamp : string)
    (inbox : list InboxEntry) : InboxAnswer * list InboxEntry * option nat :=
  if negb (Js.truthy message) then (InboxBadRequest, inbox, None)
  else
    let inbox' := (inbox ++ [mkInboxEntry (orEmpty message) "mobile" timestamp])%list in
    (InboxAccepted (length inbox'), inbox', Some (length inbox')).

(** [GET /api/inbox/read] *)
Definition readInbox (inbox : list InboxEntry)
  : InboxAnswer * list InboxEntry * option nat :=
  (InboxRead inbox (length inbox), [], None).

Inductive InboxOp : Type :=
| InboxPost (message : option string) (timestamp : string)
| InboxGet.

Definition inboxStep (op : InboxOp) (inbox : list InboxEntry)
  : InboxAnswer * list InboxEntry * option nat :=
  match op with
  | InboxPost message timestamp => postInbox message timestamp inbox
  | InboxGet => readInbox inbox
  end.

(** The answers of a sequence of requests, and the inbox after them. *)
Fixpoint inboxRun (ops : list InboxOp) (inbox : list InboxEntry)
  : list InboxAnswer * list InboxEntry :=
  match ops with
  | [] => ([], inbox)
  | op :: rest =>
      let '(answer, inbox', _) := inboxStep op inbox in
      let '(answers, final) := inboxRun rest inbox' in
      (answer :: answers, final)
  end.

(** ** File endpoints: [/api/files/content], [/api/files/save],
    [/api/files/raw] *)

Record Stat := mkStat {
  stat_isDirectory : bool;
  stat_size : N
}.

(** The file system as the handlers see it. *)
Record Fs := mkFs {
  existsSync : string -> bool;
  statSync : string -> Completion Stat;
  readFileSync : string -> Completion string;
  writeFileSync : string -> string -> Completion unit
}.

Inductive FileAnswer : Type :=
| FileError (status : nat) (error : string)
| FileContent (path name extension : string) (size : N) (content : string)
| FileSaved (path : string)
| FileRaw (contentType : string) (path : string).

Definition textExtensions : list string :=
  [ ".txt"; ".md"; ".js"; ".mjs"; ".ts"; ".json"; ".html"; ".css"; ".py"; ".sh";
    ".bat"; ".yml"; ".yaml"; ".xml"; ".csv"; ".log"; ".env"; ".gitignore" ].

Definition imageExtensions : list string :=
  [ ".png"; ".jpg"; ".jpeg"; ".gif"; ".webp"; ".svg"; ".ico"; ".bmp" ].

Definition mimeTypes : list (string * string) :=
  [ (".png", "image/png"); (".jpg", "image/jpeg"); (".jpeg", "image/jpeg");
    (".gif", "image/gif"); (".webp", "image/webp"); (".svg", "image/svg+xml");
    (".ico", "image/x-icon"); (".bmp", "image/bmp") ].

(** [xs.includes(x)] on an array of strings. *)
Definition includesString (x : string) (xs : list string) : bool :=
  existsb (String.eqb x) xs.

(** [mimeTypes[ext] || 'application/octet-stream'] *)
Fixpoint mimeOf (ext : string) (table : list (string * string)) : string :=
  match table with
  | [] => "application/octet-stream"
  | (e, mime) :: rest => if String.eqb e ext then mime else mimeOf ext rest
  end.

Section Files.

Variable isWindows : bool.
(** [resolve], [extname] and [basename] of the [path] module. *)
Variable resolve : string -> string.
Variable extname : string -> string.
Variable basename : string -> string.

(** The handler of [GET /api/files/content]; [workspace] is the module
    variable [workspacePath]. *)
Definition getFilesContent (filePath : option string) (workspace : string) (fs : Fs)
  : FileAnswer :=
  if negb (Js.truthy filePath) then FileError 400 "Path required"
  else
    let filePath := orEmpty filePath in
    if negb (existsSync fs filePath) then FileError 404 "File not found"
    else if negb (pathStartsWith isWindows (resolve filePath) (resolve workspace))
    then FileError 403 "Access denied - outside workspace"
    else
      match statSync fs filePath with
      | Thrown message => FileError 500 message
      | Returned stats =>
          if stat_isDirectory stats then FileError 400 "Cannot read directory"
          else if (1024 * 1024 <? stat_size stats)%N
          then FileError 400 "File too large (max 1MB)"
          else
            let ext := Js.toLowerCase (extname filePath) in
            if negb (includesString ext textExtensions)
            then FileError 400 "Binary file - cannot display"
            else
              match readFileSync fs filePath with
              | Thrown message => FileError 500 message
              | Returned content =>
                  FileContent filePath (basename filePath) ext (stat_size stats) content
              end
      end.

(** The handler of [POST /api/files/save]; the second component is the
    call of [writeFileSync] that succeeded, if any. *)
Definition postFilesSave (filePath content : option string) (workspace : string) (fs : Fs)
  : FileAnswer * option (string * string) :=
  if negb (Js.truthy filePath) then (FileError 400 "Path required", None)
  else
    let filePath := orEmpty filePath in
    match content with
    | None => (FileError 400 "Content required", None)
    | Some content =>
        if negb (pathStartsWith isWindows (resolve filePath) (resolve workspace))
        then (FileError 403 "Access denied - outside workspace", None)
        else if negb (existsSync fs filePath) then (FileError 404 "File not found", None)
        else
          let ext := Js.toLowerCase (extname filePath) in
          if negb (includesString ext textExtensions)
          then (FileError 400 "Cannot edit binary files", None)
          else
            match writeFileSync fs filePath content with
            | Thrown message => (FileError 500 message, None)
            | Returned _ => (FileSaved filePath, Some (filePath, content))
            end
    end.

(** The handler of [GET /api/files/raw]. *)
Definition getFilesRaw (filePath : option string) (workspace : string) (fs : Fs)
  : FileAnswer :=
  if negb (Js.truthy filePath) then FileError 400 "Path required"
  else
    let filePath := orEmpty filePath in
    if negb (pathStartsWith isWindows (resolve filePath) (resolve workspace))
    then FileError 403 "Access denied - outside workspace"
    else if negb (existsSync fs filePath) then FileError 404 "File not found"
    else
      let ext := Js.toLowerCase (extname filePath) in
      if negb (includesString ext imageExtensions)
      then FileError 400 "Only image files supported"
      else
        match statSync fs filePath with
        | Thrown message => FileError 500 message
        | Returned stats =>
            if (10 * 1024 * 1024 <? stat_size stats)%N
            then FileError 400 "Image too large (max 10MB)"
            else FileRaw (mimeOf ext mimeTypes) (resolve filePath)
        end.

End Files.

(** * Vocabulary of the properties *)

(** [sub] occurs in [s]. *)
Definition Contains (s sub : string) : Prop :=
  exists a b : string, s = a ++ sub ++ b.

(** The preferred target, in the words of the specification. *)
Definition PreferredTarget (t : Target) : Prop :=
  t_type t = "page" /\
  Contains (t_title t) "Antigravity" /\
  ~ Contains (t_title t) "Launchpad" /\
  ~ Contains (t_url t) "devtools".

Definition PageTarget (t : Target) : Prop := t_type t = "page".

(** The three targets of the specification's example: two pages and an
    inspector target. *)
Definition exampleTargets : list Target :=
  [ mkTarget "1" "page" "Foo - Bar - x.ts" "vscode-file://workbench.html" (Some "ws://localhost:9222/1");
    mkTarget "2" "page" "Launchpad - Bar" "vscode-file://launchpad.html" (Some "ws://localhost:9222/2");
    mkTarget "3" "other" "DevTools" "devtools://devtools/inspector.html" (Some "ws://localhost:9222/3") ].

(** The same list with the product name in the titles. *)
Definition exampleProductTargets : list Target :=
  [ mkTarget "1" "page" "Foo - Antigravity - x.ts" "vscode-file://workbench.html" (Some "ws://localhost:9222/1");
    mkTarget "2" "page" "Launchpad - Antigravity" "vscode-file://launchpad.html" (Some "ws://localhost:9222/2");
    mkTarget "3" "page" "DevTools - Antigravity" "devtools://devtools/inspector.html" (Some "ws://localhost:9222/3") ].

(** The persisted array, when the file exists, has at most 500 entries. *)
Definition fileBounded (st : Store) : Prop :=
  match messagesFile st with
  | Some saved => length saved <= maxMessages
  | None => True
  end.

(** A poll cycle in which path inference yields nothing (null or the
    empty string) or throws. *)
Definition pollFailed (d : Completion (option string)) : Prop :=
  match d with
  | Thrown _ => True
  | Returned o => Js.truthy o = false
  end.

(** [i] is the position of the first segment that equals [anchor] up to
    letter case. *)
Definition FirstAnchor (anchor : string) (parts : list string) (i : nat) : Prop :=
  (exists seg, parts !! i = Some seg /\ Js.toLowerCase seg = Js.toLowerCase anchor) /\
  (forall j seg, j < i -> parts !! j = Some seg ->
                 Js.toLowerCase seg <> Js.toLowerCase anchor).

(** No segment equals [anchor] up to letter case. *)
Definition NoAnchor (anchor : string) (parts : list string) : Prop :=
  Forall (fun seg => Js.toLowerCase seg <> Js.toLowerCase anchor) parts.

(** The text of the path made of the given segments: drive, backslash and
    the other segments separated by backslashes on Windows; a slash and the
    segments separated by slashes elsewhere. *)
Definition pathOfSegments (isWindows : bool) (segs : list string) : string :=
  if isWindows then
    match segs with
    | drive :: rest => drive ++ BS ++ Js.join BS rest
    | [] => EmptyString
    end
  else "/" ++ Js.join "/" segs.

(** No character of [s] is a separator. *)
Fixpoint noSep (sep : ascii -> bool) (s : string) : bool :=
  match s with
  | EmptyString => true
  | String c r => negb (sep c) && noSep sep r
  end.

(** A path segment: not empty and without separator. *)
Definition Segment (isWindows : bool) (seg : string) : Prop :=
  seg <> EmptyString /\ noSep (isPathSep isWindows) seg = true.

(** The editor window and the open tab of the specification's example. *)
Definition demoTarget (title : string) : Target :=
  mkTarget "1" "page" title "vscode-file://workbench.html" (Some "ws://localhost:9222/1").

Definition demoTabs : list Tab :=
  [ mkTab (Some "C:\Users\a\Projects\Demo\src\index.ts") None ].

(** At most one debounce timer is armed, and it is the one whose handle
    [watchDebounceTimer] holds. *)
Definition WatchInv (st : WatchState) : Prop :=
  match armedTimers st with
  | [] => True
  | [t] => watchDebounceTimer st = Some (handle t)
  | _ => False
  end.

(** Raw events in arrival order, each less than 300 ms after the one
    before; [prev] is the arrival time of the event before the list. *)
Fixpoint burstAfter (prev : nat) (events : list RawEvent) : Prop :=
  match events with
  | [] => True
  | e :: rest =>
      prev <= raw_time e /\ raw_time e < prev + debounceMs /\
      burstAfter (raw_time e) rest
  end.

Definition initialWatchState : WatchState := mkWatchState None None None [] 0.

(** Five raw events, each within 300 ms of the one before. *)
Definition fiveEvents : list RawEvent :=
  [ mkRaw 1000 "rename" "a.txt"; mkRaw 1100 "change" "a.txt";
    mkRaw 1399 "change" "a.txt"; mkRaw 1500 "change" "b.txt";
    mkRaw 1799 "change" "c.txt" ].

(** How many outcomes the promise of call [id] must have received: none
    while the id is in [pending], one once an issued id has left it. *)
Definition expectedOutcomes (c : Transport.Conn) (id : nat) : nat :=
  match Transport.pending c !! id with
  | Some _ => 0
  | None => if (1 <=? id)%nat && (id <? Transport.messageId c)%nat then 1 else 0
  end.

(** The correlation invariant of a connection. *)
Record CoreInv (c : Transport.Conn) : Prop := mkCoreInv {
  ci_pos : 1 <= Transport.messageId c;
  ci_issued : Transport.issued c = seq 1 (Transport.messageId c - 1);
  ci_pending : forall id r,
      Transport.pending c !! id = Some r ->
      Transport.promiseOf r = id /\ 1 <= id < Transport.messageId c;
  ci_outcomes : forall id,
      length (Transport.outcomesOf id c) = expectedOutcomes c id
}.

(** The timers of a connection whose calls have a deadline: every pending
    call has an armed timer, and every armed timer is due within the
    operation's delay. *)
Record TimerInv (c : Transport.Conn) : Prop := mkTimerInv {
  ti_cover : forall ms id,
      Transport.timeoutMs (Transport.op c) = Some ms ->
      is_Some (Transport.pending c !! id) ->
      exists t, In t (Transport.timers c) /\ callback t = id;
  ti_deadline : forall ms t,
      Transport.timeoutMs (Transport.op c) = Some ms ->
      In t (Transport.timers c) ->
      Transport.clock c < deadline t <= Transport.clock c + ms;
  ti_ids : forall t, In t (Transport.timers c) -> callback t < Transport.messageId c
}.

(** The socket has failed and no timer is armed: nothing more will be
    delivered to the connection. *)
Definition Quiescent (c : Transport.Conn) : Prop :=
  Transport.wsFailed c = true /\ Transport.timers c = [].

(** Every issued request id has received exactly one outcome. *)
Definition EverySettledOnce (c : Transport.Conn) : Prop :=
  forall id, In id (Transport.issued c) -> length (Transport.outcomesOf id c) = 1.

(** Events other than inbound frames. *)
Definition notMessage (e : Transport.Event) : Prop :=
  match e with
  | Transport.Message _ => False
  | _ => True
  end.

(** The number of [Call] events of a trace. *)
Definition callsIn (es : list Transport.Event) : nat :=
  length (List.filter (fun e => match e with Transport.Call _ _ => true | _ => false end) es).

(** The timeout timers of [due] run one after the other. *)
Definition timeoutsOf (due : list (Timer nat)) (c : Transport.Conn) : Transport.Conn :=
  fold_left (fun acc t => Transport.onTimeout (callback t) acc) due c.

(** The reader looks at texts of 4 to 50 characters. *)
Definition admissibleText (text : string) : bool :=
  negb ((String.length text <? 4)%nat || (50 <? String.length text)%nat).

(** The trimmed texts of the elements, in document order. *)
Definition textsOf (els : list Elem) : list string :=
  map (fun el => Js.trim (rawText el)) els.

(** The first text of a context that matches the model pattern, and the
    first one that matches the mode names. *)
Definition firstModelText (els : list Elem) : option string :=
  js_find (fun t => admissibleText t && looksLikeModel t) (textsOf els).

Definition firstModeText (els : list Elem) : option string :=
  js_find (fun t => admissibleText t && looksLikeMode t) (textsOf els).

(** No context yields a model: its call failed or its texts have no match. *)
Definition NoModelIn (ctxs : list (option (list Elem))) : Prop :=
  Forall (fun ctx => match ctx with
                     | Some els => firstModelText els = None
                     | None => True
                     end) ctxs.

(** The value already found, else the candidate. *)
Definition keepFirst (found candidate : option string) : option string :=
  match found with
  | Some _ => found
  | None => candidate
  end.

(** An element with the given text. *)
Definition textElem (id : nat) (text : string) : Elem := mkElem id text text None.

(** Checks 1 and 2 of the matching loop: the candidate ends the loop. *)
Definition strongMatch (modelName : string) (cand : Candidate) : bool :=
  let targetModel := Js.toLowerCase modelName in
  exactMatch targetModel (c_text cand)
  || allPartsMatch (targetPartsOf targetModel) (c_text cand).

Definition strongTier (modelName : string) (cand : Candidate) : Tier :=
  if exactMatch (Js.toLowerCase modelName) (c_text cand) then ExactTier else AllPartsTier.

(** Check 3 of the matching loop. *)
Definition weakMatch (modelName : string) (cand : Candidate) : bool :=
  relaxedMatch (targetPartsOf (Js.toLowerCase modelName)) (c_text cand).

(** The selection rule in the words of the specification: the tokens of
    the requested name are its pieces between non-alphanumerics; tier 1 is
    equality of the normalised texts, tier 2 holds when the candidate
    contains every token, tier 3 when it contains the first token and at
    least half of the others; the first candidate of the highest tier that
    some candidate meets is selected. *)
Definition specTokens (requested : string) : list string :=
  Js.filterBoolean (Js.split (fun c => negb (isAlnum c)) (Js.toLowerCase requested)).

Definition specTier1 (requested : string) (cand : Candidate) : bool :=
  String.eqb (c_text cand) (Js.toLowerCase requested).

Definition specTier2 (requested : string) (cand : Candidate) : bool :=
  forallb (fun token => Js.includes (c_text cand) token) (specTokens requested).

Definition specTier3 (requested : string) (cand : Candidate) : bool :=
  match specTokens requested with
  | family :: others =>
      Js.includes (c_text cand) family &&
      (length others <=?
         2 * length (List.filter (fun token => Js.includes (c_text cand) token) others))%nat
  | [] => false
  end.

Definition specSelect (requested : string) (candidates : list Candidate)
  : option (Candidate * Tier) :=
  match js_find (specTier1 requested) candidates with
  | Some c => Some (c, ExactTier)
  | None =>
      match js_find (specTier2 requested) candidates with
      | Some c => Some (c, AllPartsTier)
      | None =>
          match js_find (specTier3 requested) candidates with
          | Some c => Some (c, RelaxedTier)
          | None => None
          end
      end
  end.

(** The candidate made by [getNorm] from an element with the given text. *)
Definition candidateOf (id : nat) (text : string) : Candidate :=
  mkCandidate (textElem id text) (getNorm (textElem id text)).

(** The page of the specification's example: the model button shows the
    current model, the opened list has two entries. *)
Definition exampleModelDom : SetterDom :=
  mkSetterDom
    [textElem 1 "Ask anything"; textElem 2 "Claude Opus 4.5 (Thinking)"]
    [textElem 10 "Claude Sonnet 4.5 (Thinking)"; textElem 11 "Gemini 3 Pro (High)"]
    [].

(** A page whose opened list has no entry for the requested name. *)
Definition noMatchModelDom : SetterDom :=
  mkSetterDom
    [textElem 1 "Gemini 3 Flash"]
    [textElem 10 "Gemini 3 Pro (High)"; textElem 11 "GPT-OSS 120B (Medium)"]
    [].

Definition noMatchModeDom : SetterDom :=
  mkSetterDom
    [textElem 1 "Planning"]
    [textElem 10 "Planning"; textElem 11 "Fast"]
    [].

(** Raw events in arrival order; [prev] is the arrival time of the event
    before the list. *)
Fixpoint arrivalOrder (prev : nat) (events : list RawEvent) : Prop :=
  match events with
  | [] => True
  | e :: rest => prev <= raw_time e /\ arrivalOrder (raw_time e) rest
  end.

(** The number of events that arrive 300 ms or more after the one before. *)
Fixpoint quietGaps (prev : nat) (events : list RawEvent) : nat :=
  match events with
  | [] => 0
  | e :: rest =>
      (if (prev + debounceMs <=? raw_time e)%nat then 1 else 0)
      + quietGaps (raw_time e) rest
  end.


(** The [console.log] lines of an output. *)
Definition logCount (out : list Output) : nat :=
  length (List.filter (fun o => match o with ConsoleLog _ => true | _ => false end) out).

(** The platform's reading of a path text in comparisons. *)
Definition foldCase (isWindows : bool) (path : string) : string :=
  if isWindows then Js.toLowerCase path else path.

(** No two backslashes in a row. *)
Fixpoint noDoubledBackslash (s : string) : bool :=
  match s with
  | EmptyString => true
  | String c r =>
      match r with
      | String c' _ =>
          negb (Ascii.eqb c backslash && Ascii.eqb c' backslash) && noDoubledBackslash r
      | EmptyString => true
      end
  end.

(** The console lines written over the first [n] failures in a row. *)
Definition logsUpTo (n : nat) : nat := Nat.min n 3 + n / 10.


(** The text has no dash. *)
Definition noDash (s : string) : bool := noSep (fun c => Ascii.eqb c "-") s.

(** The frames of [requests] when the first of them gets the id [id]. *)
Fixpoint framesFrom (stringify : CdpParams -> string) (id : nat)
    (requests : list (string * CdpParams)) : list Transport.Frame :=
  match requests with
  | [] => []
  | (method, params) :: rest =>
      Transport.mkFrame id method (stringify params) :: framesFrom stringify (S id) rest
  end.

(** The characters carried by the key-down events of [requests]. *)
Fixpoint typedBy (requests : list (string * CdpParams)) : string :=
  match requests with
  | [] => EmptyString
  | (_, ParamsKeyEvent "keyDown" (Some text) _ _ _) :: rest => text +:+ typedBy rest
  | _ :: rest => typedBy rest
  end.

(** A reply that carries a result. *)
Definition isResult (r : Reply) : bool :=
  match r with
  | ReplyResult _ => true
  | _ => false
  end.

(** The inbox entries of the accepted posts of [ops], in order. *)
Fixpoint acceptedPosts (ops : list InboxOp) : list InboxEntry :=
  match ops with
  | [] => []
  | InboxPost message timestamp :: rest =>
      if Js.truthy message
      then mkInboxEntry (orEmpty message) "mobile" timestamp :: acceptedPosts rest
      else acceptedPosts rest
  | InboxGet :: rest => acceptedPosts rest
  end.

(** The entries handed out by the reads among [answers], in order. *)
Fixpoint handedOut (answers : list InboxAnswer) : list InboxEntry :=
  match answers with
  | [] => []
  | InboxRead entries _ :: rest => entries ++ handedOut rest
  | _ :: rest => handedOut rest
  end.

(** Every read reports the number of entries it hands out. *)
Fixpoint countsAgree (answers : list InboxAnswer) : Prop :=
  match answers with
  | [] => True
  | InboxRead entries count :: rest => count = length entries /\ countsAgree rest
  | _ :: rest => countsAgree rest
  end.

(** A file system with the text file [notes.md] and the image [logo.png]
    in the workspace [/ws], and a text file in the sibling [/ws-old]. *)
Definition exampleFs : Fs :=
  mkFs (fun p => existsb (String.eqb p) ["/ws/notes.md"; "/ws/logo.png"; "/ws-old/a.txt"])
       (fun _ => Returned (mkStat false 120))
       (fun _ => Returned "# notes")
       (fun _ _ => Returned tt).

(** [extname] for the paths of [exampleFs]. *)
Definition exampleExtname (p : string) : string :=
  if String.eqb p "/ws/notes.md" then ".md"
  else if String.eqb p "/ws/logo.png" then ".png"
  else if String.eqb p "/ws-old/a.txt" then ".txt"
  else EmptyString.

(** * Properties *)

Local Open Scope list_scope.

(** ** Strings *)

Lemma append_cons (c : ascii) (a b : string) : String c a +:+ b = String c (a +:+ b).
Proof. reflexivity. Qed.

Lemma append_empty_l (b : string) : EmptyString +:+ b = b.
Proof. reflexivity. Qed.

Lemma prefix_true_iff (p s : string) :
  String.prefix p s = true <-> exists b, s = p +:+ b.
Proof.
  revert s. induction p as [|c p IH]; intros s.
  - split; [intros _; exists s; reflexivity | intros _; destruct s; reflexivity].
  - destruct s as [|d s]; cbn [String.prefix].
    + split; [discriminate | intros [b Hb]; rewrite append_cons in Hb; discriminate].
    + destruct (ascii_dec c d) as [->|Hne].
      * rewrite IH. split; intros [b Hb]; exists b; rewrite append_cons in *; congruence.
      * split; [discriminate | intros [b Hb]; rewrite append_cons in Hb; congruence].
Qed.

Lemma includes_true_iff (s sub : string) :
  Js.includes s sub = true <-> Contains s sub.
Proof.
  unfold Contains. induction s as [|c s IH].
  - cbn [Js.includes]. rewrite orb_false_r, prefix_true_iff. split.
    + intros [b Hb]. exists EmptyString, b. exact Hb.
    + intros [a [b Hab]]. destruct a; [rewrite append_empty_l in Hab; eauto|].
      rewrite append_cons in Hab. discriminate.
  - cbn [Js.includes]. rewrite orb_true_iff, prefix_true_iff, IH. split.
    + intros [[b Hb] | [a [b Hab]]].
      * exists EmptyString, b. exact Hb.
      * exists (String c a), b. rewrite append_cons. congruence.
    + intros [a [b Hab]]. destruct a as [|d a].
      * left. rewrite append_empty_l in Hab. eauto.
      * right. exists a, b. rewrite append_cons in Hab. congruence.
Qed.

Lemma includes_false_iff (s sub : string) :
  Js.includes s sub = false <-> ~ Contains s sub.
Proof.
  rewrite <- includes_true_iff. destruct (Js.includes s sub); split; intros; congruence.
Qed.

(** ** Target resolver *)

Lemma js_find_first {A} (p : A -> bool) (l1 : list A) (x : A) (l2 : list A) :
  Forall (fun y => p y = false) l1 -> p x = true ->
  js_find p (l1 ++ x :: l2) = Some x.
Proof.
  induction 1 as [|y l1 Hy _ IH]; intros Hx; simpl.
  - rewrite Hx. reflexivity.
  - rewrite Hy. apply IH, Hx.
Qed.

Lemma js_find_none {A} (p : A -> bool) (xs : list A) :
  Forall (fun y => p y = false) xs <-> js_find p xs = None.
Proof.
  induction xs as [|x xs IH]; simpl.
  - split; [reflexivity | constructor].
  - destruct (p x) eqn:Hx.
    + split; [|discriminate]. intros H. apply Forall_inv in H. congruence.
    + rewrite <- IH. split.
      * intros H. eapply Forall_inv_tail, H.
      * intros H. constructor; assumption.
Qed.

Lemma js_find_some {A} (p : A -> bool) (xs : list A) (x : A) :
  js_find p xs = Some x ->
  exists l1 l2, xs = l1 ++ x :: l2 /\ Forall (fun y => p y = false) l1 /\ p x = true.
Proof.
  induction xs as [|y xs IH]; simpl; [discriminate|].
  destruct (p y) eqn:Hy.
  - intros [= ->]. exists [], xs. repeat split; [constructor | assumption].
  - intros H. destruct (IH H) as (l1 & l2 & -> & Hl1 & Hx).
    exists (y :: l1), l2. repeat split; [constructor; assumption | assumption].
Qed.

Lemma isMainEditor_true_iff (t : Target) :
  isMainEditor t = true <-> PreferredTarget t.
Proof.
  unfold isMainEditor, PreferredTarget.
  rewrite !andb_true_iff, !negb_true_iff, String.eqb_eq,
    includes_true_iff, !includes_false_iff.
  tauto.
Qed.

Lemma isMainEditor_false_iff (t : Target) :
  isMainEditor t = false <-> ~ PreferredTarget t.
Proof.
  rewrite <- isMainEditor_true_iff. destruct (isMainEditor t); split; intros; congruence.
Qed.

Lemma isPage_true_iff (t : Target) : isPage t = true <-> PageTarget t.
Proof. apply String.eqb_eq. Qed.

Lemma isPage_false_iff (t : Target) : isPage t = false <-> ~ PageTarget t.
Proof. apply String.eqb_neq. Qed.

Lemma Forall_bool_prop {A} (p : A -> bool) (P : A -> Prop) (xs : list A) :
  (forall x, p x = false <-> ~ P x) ->
  Forall (fun x => ~ P x) xs -> Forall (fun x => p x = false) xs.
Proof.
  intros H. induction 1; constructor; [apply H|]; assumption.
Qed.

(** C5.  [findEditorTarget] returns the first page target whose title
    contains "Antigravity" but not "Launchpad" and whose URL does not
    contain "devtools"; when there is none, the first page target; when
    there is no page target, nothing.  On the example list it returns the
    first entry, also when the titles carry the product name, and then
    whatever the order of the list. *)
Theorem findEditorTarget_preference (targets : list Target) :
  (forall l1 t l2,
      targets = l1 ++ t :: l2 -> PreferredTarget t ->
      Forall (fun u => ~ PreferredTarget u) l1 ->
      findEditorTarget targets = Some t) /\
  (forall l1 t l2,
      Forall (fun u => ~ PreferredTarget u) targets ->
      targets = l1 ++ t :: l2 -> PageTarget t ->
      Forall (fun u => ~ PageTarget u) l1 ->
      findEditorTarget targets = Some t) /\
  (Forall (fun u => ~ PageTarget u) targets <-> findEditorTarget targets = None) /\
  findEditorTarget exampleTargets = nth_error exampleTargets 0 /\
  findEditorTarget exampleProductTargets = nth_error exampleProductTargets 0 /\
  findEditorTarget (rev exampleProductTargets) = nth_error exampleProductTargets 0.
Proof.
  unfold findEditorTarget.
  split; [|split; [|split; [split|repeat split; vm_compute; reflexivity]]].
  - intros l1 t l2 -> Ht Hl1.
    rewrite js_find_first; [reflexivity | | apply isMainEditor_true_iff, Ht].
    eapply Forall_bool_prop; [apply isMainEditor_false_iff | exact Hl1].
  - intros l1 t l2 Hnone -> Ht Hl1.
    apply (Forall_bool_prop isMainEditor) in Hnone; [|apply isMainEditor_false_iff].
    apply js_find_none in Hnone. rewrite Hnone.
    apply js_find_first; [|apply isPage_true_iff, Ht].
    eapply Forall_bool_prop; [apply isPage_false_iff | exact Hl1].
  - intros Hnone.
    assert (Hp : js_find isPage targets = None).
    { apply js_find_none. eapply Forall_bool_prop; [apply isPage_false_iff | exact Hnone]. }
    destruct (js_find isMainEditor targets) as [t|] eqn:Hm; [|exact Hp].
    apply js_find_some in Hm. destruct Hm as (l1 & l2 & -> & _ & Ht).
    apply js_find_none in Hp. apply Forall_app in Hp. destruct Hp as [_ Hp].
    apply Forall_inv in Hp. unfold isMainEditor in Ht. unfold isPage in Hp.
    rewrite Hp in Ht. discriminate.
  - destruct (js_find isMainEditor targets) as [t|] eqn:Hm; [discriminate|].
    intros Hp. apply js_find_none in Hp.
    eapply Forall_impl; [exact Hp | intros u Hu; apply isPage_false_iff, Hu].
Qed.

Lemma findEditorTarget_preference_witness :
  findEditorTarget
    [ mkTarget "0" "page" "Launchpad - Antigravity" "app://launchpad" None;
      mkTarget "1" "page" "Demo - Antigravity - x.ts" "app://workbench" None ]
  = Some (mkTarget "1" "page" "Demo - Antigravity - x.ts" "app://workbench" None).
Proof.
  apply (proj1 (findEditorTarget_preference _)
           [mkTarget "0" "page" "Launchpad - Antigravity" "app://launchpad" None]
           (mkTarget "1" "page" "Demo - Antigravity - x.ts" "app://workbench" None)
           []).
  - reflexivity.
  - apply isMainEditor_true_iff. vm_compute. reflexivity.
  - constructor; [|constructor]. apply isMainEditor_false_iff. vm_compute. reflexivity.
Defined.

(** ** Message store *)

Lemma sliceLast_length {A} (n : nat) (xs : list A) :
  n < length xs -> length (Js.sliceLast n xs) = n.
Proof. intros H. unfold Js.sliceLast. rewrite length_drop. lia. Qed.

Lemma sliceLast_suffix {A} (n : nat) (xs : list A) :
  xs = take (length xs - n) xs ++ Js.sliceLast n xs.
Proof. unfold Js.sliceLast. symmetry. apply take_drop. Qed.

Lemma saveMessages_length (writeOk : bool) (st : Store) :
  length (messages (saveMessages writeOk st)) <= maxMessages.
Proof.
  unfold saveMessages. cbn [messages].
  destruct (Nat.ltb_spec maxMessages (length (messages st))) as [Hlt|Hle].
  - rewrite sliceLast_length; [lia | exact Hlt].
  - exact Hle.
Qed.

Lemma saveMessages_fileBounded (writeOk : bool) (st : Store) :
  fileBounded st -> fileBounded (saveMessages writeOk st).
Proof.
  intros Hb. pose proof (saveMessages_length writeOk st) as Hlen.
  unfold fileBounded in *. destruct writeOk.
  - exact Hlen.
  - exact Hb.
Qed.

Lemma storeStep_fileBounded (o : StoreOp) (st : Store) :
  fileBounded st -> fileBounded (storeStep o st).
Proof.
  intros Hb. destruct o; cbn [storeStep]; apply saveMessages_fileBounded; exact Hb.
Qed.

Lemma storeStep_length (o : StoreOp) (st : Store) :
  length (messages (storeStep o st)) <= maxMessages.
Proof. destruct o; cbn [storeStep]; apply saveMessages_length. Qed.

Lemma storeRun_fileBounded (ops : list StoreOp) (st : Store) :
  fileBounded st -> fileBounded (storeRun ops st).
Proof.
  unfold storeRun. revert st.
  induction ops as [|o ops IH]; intros st Hb; cbn [fold_left].
  - exact Hb.
  - apply IH, storeStep_fileBounded, Hb.
Qed.

(** C10.  After [saveMessages] the in-memory store has at most 500
    entries; a longer store is cut to its last 500 entries before it is
    written, a shorter one is kept; what is written is the store after the
    cut, so that the file, once within the bound, stays within it through
    every sequence of store-changing requests. *)
Theorem saveMessages_at_most_500 (writeOk : bool) (st : Store) :
  length (messages (saveMessages writeOk st)) <= 500 /\
  (500 < length (messages st) ->
     length (messages (saveMessages writeOk st)) = 500 /\
     exists older, messages st = older ++ messages (saveMessages writeOk st)) /\
  (length (messages st) <= 500 ->
     messages (saveMessages writeOk st) = messages st) /\
  (writeOk = true ->
     messagesFile (saveMessages writeOk st) = Some (messages (saveMessages writeOk st))) /\
  (writeOk = false -> messagesFile (saveMessages writeOk st) = messagesFile st) /\
  (forall ops : list StoreOp,
     fileBounded st ->
     match messagesFile (storeRun ops st) with
     | Some saved => length saved <= 500
     | None => True
     end).
Proof.
  split; [apply saveMessages_length|].
  split; [|split; [|split; [|split]]].
  - intros Hlt. unfold saveMessages. cbn [messages].
    destruct (Nat.ltb_spec maxMessages (length (messages st))) as [H|H];
      [|unfold maxMessages in H; lia].
    split; [apply sliceLast_length, H|].
    eexists. apply sliceLast_suffix.
  - intros Hle. unfold saveMessages. cbn [messages].
    destruct (Nat.ltb_spec maxMessages (length (messages st))) as [H|H];
      [unfold maxMessages in H; lia | reflexivity].
  - intros ->. reflexivity.
  - intros ->. reflexivity.
  - intros ops Hb. apply (storeRun_fileBounded ops st Hb).
Qed.

Lemma saveMessages_at_most_500_witness :
  let st := mkStore (repeat (mkChatMessage "agent" "hi" None "t") 501 ++
                     [mkChatMessage "agent" "last" None "t"]) None in
  length (messages (saveMessages true st)) = 500 /\
  exists older, messages st = older ++ messages (saveMessages true st).
Proof.
  intros st.
  apply (proj1 (proj2 (saveMessages_at_most_500 true st))).
  vm_compute. lia.
Defined.

(** ** Workspace reconciliation loop *)

Section PollingFacts.

Variable isWindows : bool.
Variable basename : string -> string.

Lemma poll_failed (d : Completion (option string)) (st : WorkspaceState) :
  pollFailed d ->
  fst (poll isWindows basename d st) =
    mkWorkspaceState (workspacePath st) (lastValidWorkspacePath st)
      (S (consecutiveFailures st)) /\
  broadcastCount "workspace_changed" (snd (poll isWindows basename d st)) = 0.
Proof.
  intros Hd. destruct d as [o|m]; cbn [pollFailed] in Hd; cbn [poll].
  - rewrite Hd. cbn [negb fst snd].
    split; [reflexivity|]. destruct (shouldLogFailure _); reflexivity.
  - cbn [fst snd]. split; [reflexivity|]. destruct (shouldLogFailure _); reflexivity.
Qed.

Lemma poll_detected (p : string) (st : WorkspaceState) :
  Js.truthy (Some p) = true ->
  let detectedPath := normalizeBackslashes p in
  let result := poll isWindows basename (Returned (Some p)) st in
  consecutiveFailures (fst result) = 0 /\
  lastValidWorkspacePath (fst result) = Some detectedPath /\
  (if pathEquals isWindows detectedPath (workspacePath st)
   then workspacePath (fst result) = workspacePath st /\
        broadcastCount "workspace_changed" (snd result) = 0
   else workspacePath (fst result) = detectedPath /\
        broadcastCount "workspace_changed" (snd result) = 1 /\
        In (Broadcast "workspace_changed"
              (WorkspaceChanged detectedPath (basename detectedPath)))
           (snd result)).
Proof.
  intros Hp. cbn zeta. cbn [poll]. rewrite Hp. cbn [negb orEmpty].
  destruct (pathEquals isWindows (normalizeBackslashes p) (workspacePath st));
    cbn [negb fst snd consecutiveFailures lastValidWorkspacePath workspacePath].
  - repeat split; reflexivity.
  - repeat split; try reflexivity. right; right; left; reflexivity.
Qed.

Lemma polls_app (ds1 ds2 : list (Completion (option string))) (st : WorkspaceState) :
  polls isWindows basename (ds1 ++ ds2) st =
    let '(st1, out1) := polls isWindows basename ds1 st in
    let '(st2, out2) := polls isWindows basename ds2 st1 in
    (st2, out1 ++ out2).
Proof.
  revert st. induction ds1 as [|d ds1 IH]; intros st; cbn [polls app].
  - destruct (polls isWindows basename ds2 st). reflexivity.
  - destruct (poll isWindows basename d st) as [st1 out1]. rewrite IH.
    destruct (polls isWindows basename ds1 st1) as [st2 out2].
    destruct (polls isWindows basename ds2 st2) as [st3 out3].
    rewrite app_assoc. reflexivity.
Qed.

Lemma broadcastCount_app (e : string) (o1 o2 : list Output) :
  broadcastCount e (o1 ++ o2) = broadcastCount e o1 + broadcastCount e o2.
Proof. unfold broadcastCount. rewrite List.filter_app, length_app. reflexivity. Qed.

(** Any number of failing cycles in a row. *)
Lemma polls_failed (ds : list (Completion (option string))) (st : WorkspaceState) :
  Forall pollFailed ds ->
  fst (polls isWindows basename ds st) =
    mkWorkspaceState (workspacePath st) (lastValidWorkspacePath st)
      (length ds + consecutiveFailures st) /\
  broadcastCount "workspace_changed" (snd (polls isWindows basename ds st)) = 0.
Proof.
  intros Hds. revert st. induction Hds as [|d ds Hd _ IH]; intros st; cbn [polls].
  - destruct st; split; reflexivity.
  - destruct (poll_failed d st Hd) as [Hst Hout].
    destruct (poll isWindows basename d st) as [st1 out1]. cbn [fst snd] in Hst, Hout.
    specialize (IH st1). destruct (polls isWindows basename ds st1) as [st2 out2].
    cbn [fst snd] in *. destruct IH as [IH1 IH2]. subst st1.
    cbn [workspacePath lastValidWorkspacePath consecutiveFailures] in IH1.
    split.
    + rewrite IH1. f_equal. cbn [length]. lia.
    + rewrite broadcastCount_app. lia.
Qed.

End PollingFacts.

(** C1.  A poll cycle in which path inference yields nothing or throws
    adds one to [consecutiveFailures] and changes neither [workspacePath]
    nor [lastValidWorkspacePath]; after three such cycles from a count of
    zero the count is 3 and the path is the same.  A following detection
    sets the count to 0 and broadcasts [workspace_changed] exactly once if
    the detected path (doubled backslashes collapsed, as [poll] rewrites
    it before comparing) differs from [workspacePath] under [pathEquals],
    and not at all if it does not differ. *)
Theorem poll_reconciliation (isWindows : bool) (basename : string -> string)
    (st : WorkspaceState) :
  (forall d, pollFailed d ->
     let st' := fst (poll isWindows basename d st) in
     consecutiveFailures st' = consecutiveFailures st + 1 /\
     workspacePath st' = workspacePath st /\
     lastValidWorkspacePath st' = lastValidWorkspacePath st /\
     broadcastCount "workspace_changed" (snd (poll isWindows basename d st)) = 0) /\
  (forall p, Js.truthy (Some p) = true ->
     let st' := fst (poll isWindows basename (Returned (Some p)) st) in
     let out := snd (poll isWindows basename (Returned (Some p)) st) in
     consecutiveFailures st' = 0 /\
     (broadcastCount "workspace_changed" out = 1 <->
        pathEquals isWindows (normalizeBackslashes p) (workspacePath st) = false) /\
     (broadcastCount "workspace_changed" out = 0 <->
        pathEquals isWindows (normalizeBackslashes p) (workspacePath st) = true) /\
     (isWindows = false -> normalizeBackslashes p = p ->
        (broadcastCount "workspace_changed" out = 1 <-> p <> workspacePath st))) /\
  (forall d1 d2 d3 p,
     pollFailed d1 -> pollFailed d2 -> pollFailed d3 ->
     consecutiveFailures st = 0 ->
     Js.truthy (Some p) = true ->
     let st3 := fst (polls isWindows basename [d1; d2; d3] st) in
     let out3 := snd (polls isWindows basename [d1; d2; d3] st) in
     let st4 := fst (poll isWindows basename (Returned (Some p)) st3) in
     let out4 := snd (poll isWindows basename (Returned (Some p)) st3) in
     workspacePath st3 = workspacePath st /\
     lastValidWorkspacePath st3 = lastValidWorkspacePath st /\
     consecutiveFailures st3 = 3 /\
     broadcastCount "workspace_changed" out3 = 0 /\
     consecutiveFailures st4 = 0 /\
     (broadcastCount "workspace_changed" out4 = 1 <->
        pathEquals isWindows (normalizeBackslashes p) (workspacePath st) = false) /\
     (broadcastCount "workspace_changed" out4 = 0 <->
        pathEquals isWindows (normalizeBackslashes p) (workspacePath st) = true)).
Proof.
  assert (Hdet : forall st0 p, Js.truthy (Some p) = true ->
     consecutiveFailures (fst (poll isWindows basename (Returned (Some p)) st0)) = 0 /\
     (broadcastCount "workspace_changed"
        (snd (poll isWindows basename (Returned (Some p)) st0)) = 1 <->
        pathEquals isWindows (normalizeBackslashes p) (workspacePath st0) = false) /\
     (broadcastCount "workspace_changed"
        (snd (poll isWindows basename (Returned (Some p)) st0)) = 0 <->
        pathEquals isWindows (normalizeBackslashes p) (workspacePath st0) = true)).
  { intros st0 p Hp.
    pose proof (poll_detected isWindows basename p st0 Hp) as Hd. cbn zeta in Hd.
    destruct Hd as (Hc & _ & Hcase). split; [exact Hc|].
    destruct (pathEquals isWindows (normalizeBackslashes p) (workspacePath st0)).
    - destruct Hcase as [_ Hn]. rewrite Hn. split; split; intros; congruence.
    - destruct Hcase as (_ & Hn & _). rewrite Hn. split; split; intros; congruence. }
  split; [|split].
  - intros d Hd. destruct (poll_failed isWindows basename d st Hd) as [-> Hout].
    cbn [consecutiveFailures workspacePath lastValidWorkspacePath].
    repeat split; [lia | exact Hout].
  - intros p Hp. cbn zeta. destruct (Hdet st p Hp) as (Hc & H1 & H0).
    split; [exact Hc|]. split; [exact H1|]. split; [exact H0|].
    intros -> Hnorm. rewrite H1, Hnorm. unfold pathEquals. apply String.eqb_neq.
  - intros d1 d2 d3 p H1 H2 H3 H0 Hp.
    destruct (polls_failed isWindows basename [d1; d2; d3] st) as [Hst Hout].
    { repeat constructor; assumption. }
    cbn zeta. rewrite Hst, Hout.
    cbn [workspacePath lastValidWorkspacePath consecutiveFailures length].
    destruct (Hdet (mkWorkspaceState (workspacePath st) (lastValidWorkspacePath st)
                      (3 + consecutiveFailures st)) p Hp) as (Hc & Hone & Hzero).
    cbn [workspacePath] in Hone, Hzero.
    repeat split; try reflexivity; try lia; try exact Hc;
      try apply Hone; try apply Hzero.
Qed.

Lemma poll_reconciliation_witness :
  let st := mkWorkspaceState "/srv/bridge" None 0 in
  let st3 := fst (polls false (fun s => s)
                    [Returned None; Thrown "Timeout"; Returned (Some EmptyString)] st) in
  let out4 := snd (poll false (fun s => s) (Returned (Some "/home/u/demo")) st3) in
  workspacePath st3 = "/srv/bridge" /\
  consecutiveFailures st3 = 3 /\
  broadcastCount "workspace_changed" out4 = 1.
Proof.
  intros st st3 out4.
  destruct (proj2 (proj2 (poll_reconciliation false (fun s => s) st))
              (Returned None) (Thrown "Timeout") (Returned (Some EmptyString)) "/home/u/demo")
    as (Hpath & _ & Hcount & _ & _ & Hone & _).
  - reflexivity.
  - exact I.
  - reflexivity.
  - reflexivity.
  - reflexivity.
  - split; [exact Hpath|]. split; [exact Hcount|]. apply Hone. reflexivity.
Defined.

(** ** Workspace-path inferencer *)

Lemma anchorIndex_first (anchor : string) (parts : list string) (i k : nat) :
  FirstAnchor anchor parts i -> anchorIndex anchor parts k = Some (k + i).
Proof.
  revert i k. induction parts as [|p parts IH]; intros i k [[seg [Hi Heq]] Hbefore].
  - discriminate.
  - cbn [anchorIndex]. destruct i as [|i].
    + cbn in Hi. injection Hi as ->. rewrite Heq, String.eqb_refl. f_equal. lia.
    + destruct (String.eqb_spec (Js.toLowerCase p) (Js.toLowerCase anchor)) as [Hp|_].
      * exfalso. apply (Hbefore 0 p); [lia | reflexivity | exact Hp].
      * rewrite (IH i (S k)); [f_equal; lia|].
        split; [exists seg; split; assumption|].
        intros j s Hj Hs. apply (Hbefore (S j) s); [lia | exact Hs].
Qed.

Lemma anchorIndex_none (anchor : string) (parts : list string) (k : nat) :
  NoAnchor anchor parts -> anchorIndex anchor parts k = None.
Proof.
  intros H. revert k. induction H as [|p parts Hp _ IH]; intros k; cbn [anchorIndex].
  - reflexivity.
  - apply String.eqb_neq in Hp. rewrite Hp. apply IH.
Qed.

Lemma workspaceAt_segments (isWindows : bool) (parts : list string) (i : nat) :
  i < length parts ->
  workspaceAt isWindows parts i = pathOfSegments isWindows (take (S i) parts).
Proof.
  intros Hi. unfold workspaceAt, pathOfSegments, Js.slice, Js.elemText.
  destruct isWindows.
  - destruct parts as [|d rest]; [cbn in Hi; lia|].
    cbn [lookup list_lookup take drop]. replace (i + 1 - 1) with i by lia. reflexivity.
  - change (drop 0 parts) with parts. replace (i + 1 - 0) with (S i) by lia. reflexivity.
Qed.

Lemma workspaceFallback_segments (isWindows : bool) (parts : list string) :
  (isWindows = true -> 2 <= length parts) ->
  workspaceFallback isWindows parts =
    pathOfSegments isWindows (take (length parts - 1) parts).
Proof.
  intros Hlen. unfold workspaceFallback, pathOfSegments, Js.sliceButLast,
    Js.sliceFrom, Js.elemText.
  destruct isWindows; [|reflexivity].
  specialize (Hlen eq_refl).
  destruct parts as [|d [|e rest]]; cbn [length] in Hlen; try lia.
  cbn [length]. replace (S (S (length rest)) - 1) with (S (length rest)) by lia.
  reflexivity.
Qed.

(** *** Splitting a path and joining segments are inverse *)

Lemma append_nil_r (s : string) : s +:+ EmptyString = s.
Proof. induction s as [|c s IH]; [reflexivity | rewrite append_cons, IH; reflexivity]. Qed.

Lemma splitRuns_noSep (sep : ascii -> bool) (s : string) (inRun : bool) :
  noSep sep (fst (Js.splitRuns sep inRun s)) = true /\
  Forall (fun w => noSep sep w = true) (snd (Js.splitRuns sep inRun s)).
Proof.
  revert inRun. induction s as [|c s IH]; intros inRun; cbn [Js.splitRuns].
  - split; [reflexivity | constructor].
  - destruct (sep c) eqn:Hc.
    + destruct (IH true) as [Hw Hws].
      destruct (Js.splitRuns sep true s) as [w ws]. cbn [fst snd] in *.
      destruct inRun; cbn [fst snd]; split; try assumption; try reflexivity.
      constructor; assumption.
    + destruct (IH false) as [Hw Hws].
      destruct (Js.splitRuns sep false s) as [w ws]. cbn [fst snd noSep] in *.
      rewrite Hc, Hw. split; [reflexivity | assumption].
Qed.

Lemma pathParts_segments (isWindows : bool) (filePath : string) :
  Forall (Segment isWindows) (pathParts isWindows filePath).
Proof.
  unfold pathParts, Js.filterBoolean, Js.split.
  pose proof (splitRuns_noSep (isPathSep isWindows) filePath false) as [Hw Hws].
  destruct (Js.splitRuns (isPathSep isWindows) false filePath) as [w ws].
  cbn [fst snd] in *.
  apply List.Forall_forall. intros seg Hin.
  apply list_elem_of_In, list_elem_of_filter in Hin. destruct Hin as [Hne Hin].
  split; [exact Hne|].
  apply list_elem_of_In in Hin. destruct Hin as [<- | Hin]; [exact Hw|].
  eapply (proj1 (List.Forall_forall _ _) Hws), Hin.
Qed.

Lemma splitRuns_word (sep : ascii -> bool) (w s : string) :
  noSep sep w = true ->
  Js.splitRuns sep false (w +:+ s) =
    (w +:+ fst (Js.splitRuns sep false s), snd (Js.splitRuns sep false s)).
Proof.
  induction w as [|c w IH]; intros Hw.
  - rewrite !append_empty_l. destruct (Js.splitRuns sep false s). reflexivity.
  - cbn [noSep] in Hw. apply andb_true_iff in Hw. destruct Hw as [Hc Hw].
    apply negb_true_iff in Hc.
    rewrite append_cons. cbn [Js.splitRuns]. rewrite Hc, (IH Hw).
    cbn [fst snd]. rewrite append_cons. reflexivity.
Qed.

Lemma splitRuns_inRun_irrelevant (sep : ascii -> bool) (s : string) (inRun : bool) :
  match s with String c _ => sep c = false | EmptyString => True end ->
  Js.splitRuns sep inRun s = Js.splitRuns sep false s.
Proof.
  destruct s as [|c s]; intros Hc; [reflexivity|].
  cbn [Js.splitRuns]. rewrite Hc. reflexivity.
Qed.

Lemma segment_head (sep : ascii -> bool) (w s : string) :
  w <> EmptyString -> noSep sep w = true ->
  match w +:+ s with String c _ => sep c = false | EmptyString => True end.
Proof.
  intros Hne Hw. destruct w as [|c w]; [contradiction|].
  rewrite append_cons. cbn [noSep] in Hw. apply andb_true_iff in Hw.
  destruct Hw as [Hc _]. apply negb_true_iff, Hc.
Qed.

Lemma join_cons_cons (d : string) (x y : string) (r : list string) :
  Js.join d (x :: y :: r) = x +:+ d +:+ Js.join d (y :: r).
Proof. reflexivity. Qed.

Lemma join_head (sep : ascii -> bool) (d : string) (x : string) (r : list string) :
  x <> EmptyString -> noSep sep x = true ->
  match Js.join d (x :: r) with String c _ => sep c = false | EmptyString => True end.
Proof.
  intros Hne Hx. destruct r as [|y r].
  - change (Js.join d [x]) with x. rewrite <- (append_nil_r x).
    apply segment_head; assumption.
  - rewrite join_cons_cons. apply segment_head; assumption.
Qed.

Lemma splitRuns_join (sep : ascii -> bool) (d : ascii) (x : string) (r : list string) :
  sep d = true ->
  Forall (fun seg => seg <> EmptyString /\ noSep sep seg = true) (x :: r) ->
  Js.splitRuns sep false (Js.join (String d EmptyString) (x :: r)) = (x, r).
Proof.
  intros Hd. revert x. induction r as [|y r IH]; intros x Hall.
  - apply Forall_cons_iff in Hall. destruct Hall as [[_ Hx] _].
    change (Js.join (String d EmptyString) [x]) with x.
    rewrite <- (append_nil_r x) at 1. rewrite splitRuns_word by exact Hx.
    cbn [Js.splitRuns fst snd]. rewrite append_nil_r. reflexivity.
  - apply Forall_cons_iff in Hall. destruct Hall as [[_ Hx] Hall].
    rewrite join_cons_cons, splitRuns_word by exact Hx.
    rewrite append_cons, append_empty_l. cbn [Js.splitRuns]. rewrite Hd.
    rewrite splitRuns_inRun_irrelevant.
    + rewrite (IH y Hall). cbn [fst snd]. rewrite append_nil_r. reflexivity.
    + pose proof Hall as Hall'. apply Forall_cons_iff in Hall'.
      destruct Hall' as [[Hne Hy] _]. apply join_head; assumption.
Qed.

Lemma filterBoolean_segments (sep : ascii -> bool) (segs : list string) :
  Forall (fun seg => seg <> EmptyString /\ noSep sep seg = true) segs ->
  Js.filterBoolean segs = segs.
Proof.
  unfold Js.filterBoolean. induction 1 as [|x segs [Hx _] _ IH]; [reflexivity|].
  rewrite filter_cons_True by exact Hx. rewrite IH. reflexivity.
Qed.

(** The segments of the path rebuilt from segments are those segments. *)
Lemma pathParts_pathOfSegments (isWindows : bool) (segs : list string) :
  Forall (Segment isWindows) segs ->
  (isWindows = true -> segs <> []) ->
  pathParts isWindows (pathOfSegments isWindows segs) = segs.
Proof.
  intros Hall Hne. unfold pathParts, pathOfSegments, Js.split.
  pose proof (filterBoolean_segments (isPathSep isWindows) segs Hall) as Hfilter.
  destruct isWindows.
  - destruct segs as [|drive rest]; [exfalso; apply (Hne eq_refl); reflexivity|].
    destruct rest as [|y r].
    + change (Js.join BS []) with EmptyString.
      apply Forall_cons_iff in Hall. destruct Hall as [[Hd Hnos] _].
      rewrite splitRuns_word by exact Hnos.
      unfold BS. rewrite append_cons, append_empty_l. cbn [Js.splitRuns].
      assert (Hsep : isPathSep true backslash = true) by reflexivity.
      rewrite Hsep. cbn [fst snd]. rewrite append_nil_r.
      unfold Js.filterBoolean.
      rewrite filter_cons_True by exact Hd.
      rewrite filter_cons_False by (intros H; apply H; reflexivity).
      reflexivity.
    + change (drive +:+ BS +:+ Js.join BS (y :: r)) with (Js.join BS (drive :: y :: r)).
      unfold BS. rewrite (splitRuns_join (isPathSep true) backslash drive (y :: r));
        [exact Hfilter | reflexivity | exact Hall].
  - destruct segs as [|x r].
    + vm_compute. reflexivity.
    + assert (Hslash : "/" +:+ Js.join "/" (x :: r)
                       = String slash (Js.join (String slash EmptyString) (x :: r)))
        by reflexivity.
      rewrite Hslash. cbn [Js.splitRuns].
      assert (Hsep : isPathSep false slash = true) by reflexivity.
      rewrite Hsep. rewrite splitRuns_inRun_irrelevant.
      * rewrite (splitRuns_join (isPathSep false) slash x r Hsep Hall).
        unfold Js.filterBoolean.
        rewrite filter_cons_False by (intros H; apply H; reflexivity).
        exact Hfilter.
      * pose proof Hall as Hall'. apply Forall_cons_iff in Hall'.
        destruct Hall' as [[Hx Hnos] _]. apply join_head; assumption.
Qed.

(** Outside that range: a label such as "Note: x" makes the script report
    the one-segment Windows path "e: x", whose list of parent segments is
    empty, and the fall-back concatenates its missing first element. *)
Example workspaceOfFile_single_segment :
  scanSource "Note: x" = Some (mkDomResult (Some "e: x") true) /\
  workspaceOfFile (Some "Demo") "e: x" true = "undefined" +:+ BS.
Proof. split; vm_compute; reflexivity. Qed.

(** C4.  Given the detected file path and the project name parsed from the
    window title, [getWorkspacePath] returns the path made of the segments
    of the file path up to and including the first segment that equals the
    project name up to letter case: the result is that path's text, and its
    segments are exactly those.  When there is no project name or no
    segment equals it, it returns the path made of all segments but the
    last one, which is the parent directory (on Windows for a path with a
    drive and at least one more segment).  For the tab label
    "C:\Users\a\Projects\Demo\src\index.ts" the result is
    "C:\Users\a\Projects\Demo" under the window title
    "Demo - Antigravity - index.ts" and "C:\Users\a\Projects\Demo\src"
    when the project name matches no segment. *)
Theorem getWorkspacePath_truncates_at_anchor
    (isWindows : bool) (filePath : string) (projectName : option string) :
  (forall anchor i,
      projectName = Some anchor ->
      FirstAnchor anchor (pathParts isWindows filePath) i ->
      workspaceOfFile projectName filePath isWindows =
        pathOfSegments isWindows (take (S i) (pathParts isWindows filePath)) /\
      pathParts isWindows (workspaceOfFile projectName filePath isWindows) =
        take (S i) (pathParts isWindows filePath)) /\
  ((projectName = None \/
    exists anchor, projectName = Some anchor /\
                   NoAnchor anchor (pathParts isWindows filePath)) ->
   (isWindows = true -> 2 <= length (pathParts isWindows filePath)) ->
   workspaceOfFile projectName filePath isWindows =
     pathOfSegments isWindows
       (take (length (pathParts isWindows filePath) - 1) (pathParts isWindows filePath)) /\
   pathParts isWindows (workspaceOfFile projectName filePath isWindows) =
     take (length (pathParts isWindows filePath) - 1) (pathParts isWindows filePath)) /\
  (forall decode,
      getWorkspacePath [demoTarget "Demo - Antigravity - index.ts"]
        (Returned (Some (workspaceScript decode demoTabs [])))
      = Returned (Some "C:\Users\a\Projects\Demo")) /\
  (forall decode,
      getWorkspacePath [demoTarget "Other - Antigravity - index.ts"]
        (Returned (Some (workspaceScript decode demoTabs [])))
      = Returned (Some "C:\Users\a\Projects\Demo\src")).
Proof.
  split; [|split; [|split]].
  - intros anchor i -> Hfirst.
    assert (Hi : i < length (pathParts isWindows filePath)).
    { destruct Hfirst as [[seg [Hi _]] _]. apply lookup_lt_Some in Hi. exact Hi. }
    assert (Heq : workspaceOfFile (Some anchor) filePath isWindows =
                  pathOfSegments isWindows (take (S i) (pathParts isWindows filePath))).
    { unfold workspaceOfFile.
      assert (Hne : Js.truthy (Some anchor) = true).
      { destruct Hfirst as [[seg [Hseg Heq]] _]. destruct anchor; [|reflexivity].
        assert (Hin : seg ∈ pathParts isWindows filePath)
          by (apply list_elem_of_lookup; eauto).
        unfold pathParts, Js.filterBoolean in Hin.
        apply list_elem_of_filter in Hin. destruct Hin as [Hnonempty _].
        destruct seg; [contradiction | discriminate]. }
      rewrite Hne. cbn [orEmpty].
      rewrite (anchorIndex_first anchor _ i 0 Hfirst). cbn [Nat.add].
      apply workspaceAt_segments, Hi. }
    split; [exact Heq|]. rewrite Heq. apply pathParts_pathOfSegments.
    + apply Forall_take, pathParts_segments.
    + intros _ Hnil. apply (f_equal length) in Hnil.
      rewrite length_take in Hnil. cbn [length] in Hnil. lia.
  - intros Hno Hlen.
    assert (Heq : workspaceOfFile projectName filePath isWindows =
                  pathOfSegments isWindows
                    (take (length (pathParts isWindows filePath) - 1)
                       (pathParts isWindows filePath))).
    { unfold workspaceOfFile.
      assert (Hfound :
        (if Js.truthy projectName
         then anchorIndex (orEmpty projectName) (pathParts isWindows filePath) 0
         else None) = None).
      { destruct Hno as [-> | [anchor [-> Hno]]]; [reflexivity|].
        destruct (Js.truthy (Some anchor)); [|reflexivity].
        apply anchorIndex_none, Hno. }
      rewrite Hfound. apply workspaceFallback_segments, Hlen. }
    split; [exact Heq|]. rewrite Heq. apply pathParts_pathOfSegments.
    + apply Forall_take, pathParts_segments.
    + intros Hw Hnil. specialize (Hlen Hw). apply (f_equal length) in Hnil.
      rewrite length_take in Hnil. cbn [length] in Hnil. lia.
  - intros decode. vm_compute. reflexivity.
  - intros decode. vm_compute. reflexivity.
Qed.

Lemma getWorkspacePath_truncates_at_anchor_witness :
  workspaceOfFile (Some "DEMO") "/home/u/demo/src/main.js" false = "/home/u/demo" /\
  workspaceOfFile (Some "other") "D:\work\app\README.md" true = "D:\work\app".
Proof.
  split.
  - apply (proj1 (getWorkspacePath_truncates_at_anchor false
                    "/home/u/demo/src/main.js" (Some "DEMO")) "DEMO" 2).
    + reflexivity.
    + split.
      * exists "demo". split; reflexivity.
      * intros j seg Hj Hseg.
        destruct j as [|[|j]]; [| |lia]; vm_compute in Hseg;
          injection Hseg as <-; vm_compute; discriminate.
  - apply (proj1 (proj2 (getWorkspacePath_truncates_at_anchor true
                           "D:\work\app\README.md" (Some "other")))).
    + right. exists "other". split; [reflexivity|].
      vm_compute. repeat constructor; discriminate.
    + intros _. vm_compute. lia.
Defined.

(** ** Filesystem change watcher *)

Lemma clearTimeout_self {A} (t : Timer A) : clearTimeout (handle t) [t] = [].
Proof. unfold clearTimeout. cbn [List.filter]. rewrite Nat.eqb_refl. reflexivity. Qed.

Lemma stopWatching_clean (st : WatchState) :
  WatchInv st ->
  armedTimers (stopWatching st) = [] /\
  watchDebounceTimer (stopWatching st) = None /\
  activeWatcher (stopWatching st) = None.
Proof.
  unfold WatchInv, stopWatching. intros Hinv.
  destruct st as [aw wp dt armed nh]. cbn [armedTimers watchDebounceTimer activeWatcher] in *.
  destruct armed as [|t [|t' armed]]; [| |contradiction].
  - destruct aw, dt; cbn; repeat split; reflexivity.
  - subst dt. destruct aw; cbn [activeWatcher watchDebounceTimer armedTimers watchedPath nextTimerHandle];
      rewrite clearTimeout_self; repeat split; reflexivity.
Qed.

Lemma startWatching_clean (folder : string) (st : WatchState) :
  WatchInv st ->
  armedTimers (startWatching folder true true st) = [] /\
  activeWatcher (startWatching folder true true st) = Some folder /\
  watchedPath (startWatching folder true true st) = Some folder.
Proof.
  intros Hinv. destruct (stopWatching_clean st Hinv) as (Ha & _ & _).
  unfold startWatching. cbn [negb armedTimers activeWatcher watchedPath].
  repeat split. exact Ha.
Qed.

(** Each raw event cancels the armed timer and arms a new one, 300 ms
    ahead. *)
Lemma onFsEvent_restarts (now : nat) (folder type filename : string) (st : WatchState) :
  WatchInv st ->
  armedTimers (onFsEvent now folder type filename st) =
    [mkTimer (nextTimerHandle st) (now + debounceMs) (mkDebounced type filename folder)] /\
  watchDebounceTimer (onFsEvent now folder type filename st) = Some (nextTimerHandle st) /\
  activeWatcher (onFsEvent now folder type filename st) = activeWatcher st.
Proof.
  unfold WatchInv, onFsEvent. intros Hinv.
  cbn [armedTimers watchDebounceTimer activeWatcher].
  destruct (armedTimers st) as [|t [|t' armed]]; [| |contradiction].
  - destruct (watchDebounceTimer st); repeat split; reflexivity.
  - rewrite Hinv, clearTimeout_self. repeat split; reflexivity.
Qed.

Lemma last_default_irrelevant {A} (l : list A) (d d' : A) :
  l <> [] -> List.last l d = List.last l d'.
Proof.
  induction l as [|x l IH]; intros Hne; [contradiction|].
  destruct l as [|y l]; [reflexivity|].
  change (List.last (y :: l) d = List.last (y :: l) d'). apply IH. discriminate.
Qed.

Lemma last_cons_default {A} (e : A) (rest : list A) (prev : A) :
  List.last (e :: rest) prev = List.last rest e.
Proof.
  destruct rest as [|x rest]; [reflexivity|].
  change (List.last (x :: rest) prev = List.last (x :: rest) e).
  apply last_default_irrelevant. discriminate.
Qed.

(** A burst leaves the timer of its last event armed and broadcasts
    nothing. *)
Lemma watchRun_burst (folder : string) (rest : list RawEvent) :
  forall (st : WatchState) (h : nat) (prev : RawEvent),
    activeWatcher st = Some folder ->
    watchDebounceTimer st = Some h ->
    armedTimers st =
      [mkTimer h (raw_time prev + debounceMs)
         (mkDebounced (raw_type prev) (raw_filename prev) folder)] ->
    burstAfter (raw_time prev) rest ->
    let final := List.last rest prev in
    snd (watchRun rest st) = [] /\
    activeWatcher (fst (watchRun rest st)) = Some folder /\
    exists h',
      armedTimers (fst (watchRun rest st)) =
        [mkTimer h' (raw_time final + debounceMs)
           (mkDebounced (raw_type final) (raw_filename final) folder)].
Proof.
  induction rest as [|e rest IH]; intros st h prev Haw Hdt Harmed Hburst; cbn zeta.
  - cbn [watchRun fst snd List.last]. repeat split; [exact Haw|]. exists h. exact Harmed.
  - destruct Hburst as (Hle & Hlt & Hburst).
    cbn [watchRun]. unfold watchAdvance.
    assert (Hdue : dueTimers (raw_time e) (armedTimers st) = []).
    { rewrite Harmed. unfold dueTimers, isDue. cbn [List.filter deadline].
      destruct (Nat.leb_spec (raw_time prev + debounceMs) (raw_time e)); [lia | reflexivity]. }
    assert (Hstill : stillArmed (raw_time e) (armedTimers st) = armedTimers st).
    { rewrite Harmed. unfold stillArmed, isDue. cbn [List.filter deadline].
      destruct (Nat.leb_spec (raw_time prev + debounceMs) (raw_time e)); [lia | reflexivity]. }
    rewrite Hdue, Hstill. cbn [map activeWatcher]. rewrite Haw.
    set (st1 := mkWatchState (Some folder) (watchedPath st) (watchDebounceTimer st)
                  (armedTimers st) (nextTimerHandle st)).
    assert (Hinv1 : WatchInv st1).
    { unfold WatchInv, st1. cbn [armedTimers watchDebounceTimer].
      rewrite Harmed. exact Hdt. }
    destruct (onFsEvent_restarts (raw_time e) folder (raw_type e) (raw_filename e) st1 Hinv1)
      as (Harmed2 & Hdt2 & Haw2).
    specialize (IH (onFsEvent (raw_time e) folder (raw_type e) (raw_filename e) st1)
                  (nextTimerHandle st1) e Haw2 Hdt2 Harmed2 Hburst).
    cbn zeta in IH.
    destruct (watchRun rest (onFsEvent (raw_time e) folder (raw_type e) (raw_filename e) st1))
      as [st3 out3].
    cbn [fst snd] in *. destruct IH as (Hout & Haw3 & h' & Harmed3).
    rewrite last_cons_default.
    rewrite Hout. repeat split; [exact Haw3|]. exists h'. exact Harmed3.
Qed.

Lemma watchSession_burst (folder : string) (st0 : WatchState) (first : RawEvent)
    (rest : list RawEvent) (horizon : nat) :
  WatchInv st0 ->
  burstAfter (raw_time first) rest ->
  snd (watchSession (first :: rest) horizon (startWatching folder true true st0)) =
    if (raw_time (List.last rest first) + debounceMs <=? horizon)%nat
    then [Broadcast "file_changed"
            (FileChanged (raw_type (List.last rest first))
               (raw_filename (List.last rest first)) folder
               (raw_time (List.last rest first) + debounceMs))]
    else [].
Proof.
  intros Hinv Hburst.
  destruct (startWatching_clean folder st0 Hinv) as (Harmed0 & Haw0 & _).
  set (st := startWatching folder true true st0) in *.
  unfold watchSession. cbn [watchRun]. unfold watchAdvance at 1.
  rewrite Harmed0. cbn [dueTimers stillArmed List.filter map activeWatcher]. rewrite Haw0.
  set (st1 := mkWatchState (Some folder) (watchedPath st) (watchDebounceTimer st) []
                (nextTimerHandle st)).
  assert (Hinv1 : WatchInv st1) by exact I.
  destruct (onFsEvent_restarts (raw_time first) folder (raw_type first)
              (raw_filename first) st1 Hinv1) as (Harmed2 & Hdt2 & Haw2).
  pose proof (watchRun_burst folder rest
                (onFsEvent (raw_time first) folder (raw_type first) (raw_filename first) st1)
                (nextTimerHandle st1) first Haw2 Hdt2 Harmed2 Hburst) as Hrun.
  cbn zeta in Hrun.
  destruct (watchRun rest
              (onFsEvent (raw_time first) folder (raw_type first) (raw_filename first) st1))
    as [st3 out3].
  cbn [fst snd] in Hrun. destruct Hrun as (Hout3 & _ & h' & Harmed3).
  unfold watchAdvance. rewrite Harmed3, Hout3.
  unfold dueTimers, isDue. cbn [List.filter deadline snd app map].
  destruct (raw_time (List.last rest first) + debounceMs <=? horizon)%nat; reflexivity.
Qed.

(** C8.  Each raw event cancels the armed debounce timer and arms a new one
    300 ms ahead; for a burst of raw events, each less than 300 ms after
    the one before, nothing is broadcast until 300 ms have passed since the
    last event, and then [file_changed] is broadcast exactly once, with
    that event's type and file name.  Five such events yield one
    notification. *)
Theorem watcher_burst_single_notification
    (folder : string) (st0 : WatchState) (first : RawEvent) (rest : list RawEvent)
    (horizon : nat) :
  WatchInv st0 ->
  burstAfter (raw_time first) rest ->
  raw_time (List.last rest first) + 300 <= horizon ->
  let st := startWatching folder true true st0 in
  let final := List.last rest first in
  (forall now type filename s,
      WatchInv s ->
      armedTimers (onFsEvent now folder type filename s) =
        [mkTimer (nextTimerHandle s) (now + 300) (mkDebounced type filename folder)]) /\
  (forall early, early < raw_time final + 300 ->
      snd (watchSession (first :: rest) early st) = []) /\
  snd (watchSession (first :: rest) horizon st) =
    [Broadcast "file_changed"
       (FileChanged (raw_type final) (raw_filename final) folder (raw_time final + 300))] /\
  broadcastCount "file_changed" (snd (watchSession (first :: rest) horizon st)) = 1 /\
  broadcastCount "file_changed"
    (snd (watchSession fiveEvents 5000
            (startWatching "/srv/app" true true initialWatchState))) = 1.
Proof.
  intros Hinv Hburst Hhorizon. cbn zeta.
  split; [intros now type filename s Hs; apply (onFsEvent_restarts now folder type filename s Hs)|].
  split.
  { intros early Hearly. rewrite (watchSession_burst folder st0 first rest early Hinv Hburst).
    unfold debounceMs.
    destruct (Nat.leb_spec (raw_time (List.last rest first) + 300) early); [lia | reflexivity]. }
  assert (Hout :
    snd (watchSession (first :: rest) horizon (startWatching folder true true st0)) =
      [Broadcast "file_changed"
         (FileChanged (raw_type (List.last rest first)) (raw_filename (List.last rest first))
            folder (raw_time (List.last rest first) + 300))]).
  { rewrite (watchSession_burst folder st0 first rest horizon Hinv Hburst).
    unfold debounceMs.
    destruct (Nat.leb_spec (raw_time (List.last rest first) + 300) horizon); [reflexivity | lia]. }
  split; [exact Hout|]. split; [rewrite Hout; reflexivity|].
  vm_compute. reflexivity.
Qed.

Lemma watcher_burst_single_notification_witness :
  snd (watchSession [mkRaw 10 "change" "x.js"; mkRaw 200 "change" "x.js"] 600
         (startWatching "/w" true true initialWatchState)) =
    [Broadcast "file_changed" (FileChanged "change" "x.js" "/w" 500)].
Proof.
  refine (proj1 (proj2 (proj2 (watcher_burst_single_notification "/w" initialWatchState
                          (mkRaw 10 "change" "x.js") [mkRaw 200 "change" "x.js"] 600
                          _ _ _)))).
  - exact I.
  - cbn. unfold debounceMs. lia.
  - cbn. lia.
Defined.

(** ** Remote call transport *)

Import Transport.

Lemma outcomesOf_settled (id : nat) (c c' : Conn) :
  settled c' = settled c -> outcomesOf id c' = outcomesOf id c.
Proof. unfold outcomesOf. intros ->. reflexivity. Qed.

Lemma outcomesOf_snoc (id id0 : nat) (o : Outcome) (c c' : Conn) :
  settled c' = settled c ++ [(id0, o)] ->
  outcomesOf id c' = outcomesOf id c ++ (if (id0 =? id)%nat then [o] else []).
Proof.
  unfold outcomesOf. intros ->. rewrite List.filter_app, map_app. cbn [List.filter fst].
  destruct (id0 =? id)%nat; reflexivity.
Qed.

Lemma timeoutMs_positive (o : Operation) (ms : nat) : timeoutMs o = Some ms -> 0 < ms.
Proof. destruct o; intros [= <-]; lia. Qed.

Lemma issued_seq_snoc (n : nat) : 1 <= n -> seq 1 (n - 1) ++ [n] = seq 1 (S n - 1).
Proof.
  intros Hn. replace (S n - 1) with ((n - 1) + 1) by lia.
  rewrite seq_app. cbn [seq]. do 2 f_equal. lia.
Qed.

(** *** The invariant holds initially and is kept by every handler *)

Lemma connect_CoreInv (o : Operation) (now : nat) : CoreInv (connect o now).
Proof.
  constructor; cbn.
  - lia.
  - reflexivity.
  - intros id r H. rewrite lookup_empty in H. discriminate.
  - intros id. unfold expectedOutcomes. cbn. rewrite lookup_empty.
    destruct id as [|[|id]]; reflexivity.
Qed.

Lemma call_CoreInv (method params : string) (c : Conn) :
  CoreInv c -> CoreInv (snd (call method params c)).
Proof.
  intros [Hpos Hiss Hpend Hout]. unfold call. cbn [snd].
  assert (Hfresh : pending c !! messageId c = None).
  { destruct (pending c !! messageId c) as [r|] eqn:Hr; [|reflexivity].
    apply Hpend in Hr. lia. }
  constructor; cbn [messageId pending].
  - lia.
  - unfold issued in *. cbn [sent]. rewrite map_app, Hiss. cbn [map f_id].
    apply issued_seq_snoc, Hpos.
  - intros id r Hr. destruct (decide (id = messageId c)) as [->|Hne].
    + rewrite lookup_insert_eq in Hr. injection Hr as <-. cbn. lia.
    + rewrite lookup_insert_ne in Hr by congruence. apply Hpend in Hr. lia.
  - intros id. rewrite (outcomesOf_settled id c) by reflexivity. rewrite Hout.
    unfold expectedOutcomes. cbn [pending messageId].
    destruct (decide (id = messageId c)) as [->|Hne].
    + rewrite lookup_insert_eq, Hfresh.
      destruct (Nat.ltb_spec (messageId c) (messageId c)); [lia|].
      rewrite andb_false_r. reflexivity.
    + rewrite lookup_insert_ne by congruence.
      destruct (pending c !! id); [reflexivity|].
      destruct (Nat.ltb_spec id (messageId c)), (Nat.ltb_spec id (S (messageId c)));
        try reflexivity; lia.
Qed.

(** Settling the pending call [id0]: the effect on the invariant shared by
    the message handler and the timeout timer. *)
Lemma settle_CoreInv (id0 : nat) (o : Outcome) (c c' : Conn) :
  CoreInv c ->
  is_Some (pending c !! id0) ->
  messageId c' = messageId c ->
  sent c' = sent c ->
  pending c' = delete id0 (pending c) ->
  settled c' = settled c ++ [(id0, o)] ->
  CoreInv c'.
Proof.
  intros [Hpos Hiss Hpend Hout] [r Hr] Hmid Hsent Hp Hs.
  destruct (Hpend _ _ Hr) as [_ Hrange].
  constructor.
  - rewrite Hmid. exact Hpos.
  - unfold issued in *. rewrite Hsent, Hmid. exact Hiss.
  - intros id r' Hr'. rewrite Hp in Hr'. rewrite Hmid.
    destruct (decide (id = id0)) as [->|Hne].
    + rewrite lookup_delete_eq in Hr'. discriminate.
    + rewrite lookup_delete_ne in Hr' by congruence. apply Hpend, Hr'.
  - intros id. rewrite (outcomesOf_snoc id id0 o c c' Hs), length_app, Hout.
    unfold expectedOutcomes. rewrite Hp, Hmid.
    destruct (decide (id = id0)) as [->|Hne].
    + rewrite lookup_delete_eq, Hr, Nat.eqb_refl. cbn [length].
      destruct (Nat.leb_spec 1 id0), (Nat.ltb_spec id0 (messageId c)); try lia.
      reflexivity.
    + rewrite lookup_delete_ne by congruence.
      destruct (Nat.eqb_spec id0 id); [congruence|]. cbn [length]. lia.
Qed.

Lemma matchedResolver_Some (m : Inbound) (c : Conn) (id : nat) (r : Resolver) :
  matchedResolver m c = Some (id, r) ->
  m_id m = Some id /\ pending c !! id = Some r.
Proof.
  unfold matchedResolver. destruct (m_id m) as [i|]; [|discriminate].
  destruct (i =? 0)%nat; [discriminate|].
  destruct (pending c !! i) as [r'|] eqn:Hr; [|discriminate].
  intros [= <- <-]. split; [reflexivity | exact Hr].
Qed.

Lemma onMessage_CoreInv (m : Inbound) (c : Conn) : CoreInv c -> CoreInv (onMessage m c).
Proof.
  intros Hinv. unfold onMessage.
  destruct (matchedResolver m c) as [[id r]|] eqn:Hm.
  - apply matchedResolver_Some in Hm. destruct Hm as [_ Hr].
    destruct (ci_pending c Hinv _ _ Hr) as [Hp _].
    eapply (settle_CoreInv id _ c); [exact Hinv | eauto | reflexivity | reflexivity
                                    | reflexivity |].
    cbn [settled]. rewrite Hp. reflexivity.
  - destruct (tracksContexts (op c)); [|exact Hinv].
    destruct (m_method m) as [method|]; [|exact Hinv].
    destruct (m_context m) as [ctx|]; [|exact Hinv].
    destruct (String.eqb method "Runtime.executionContextCreated"); [|exact Hinv].
    destruct Hinv as [Hpos Hiss Hpend Hout]. constructor; assumption.
Qed.

Lemma onTimeout_CoreInv (id : nat) (c : Conn) : CoreInv c -> CoreInv (onTimeout id c).
Proof.
  intros Hinv. unfold onTimeout. destruct (pending c !! id) as [r|] eqn:Hr; [|exact Hinv].
  eapply (settle_CoreInv id RejectedTimeout c); [exact Hinv | eauto | reflexivity ..].
Qed.

Lemma onError_CoreInv (c : Conn) : CoreInv c -> CoreInv (onError c).
Proof. intros [Hpos Hiss Hpend Hout]. constructor; assumption. Qed.

Lemma fold_onTimeout_CoreInv (due : list (Timer nat)) (c : Conn) :
  CoreInv c -> CoreInv (fold_left (fun acc t => onTimeout (callback t) acc) due c).
Proof.
  revert c. induction due as [|t due IH]; intros c Hinv; cbn [fold_left].
  - exact Hinv.
  - apply IH, onTimeout_CoreInv, Hinv.
Qed.

Lemma elapse_CoreInv (ms : nat) (c : Conn) : CoreInv c -> CoreInv (elapse ms c).
Proof.
  intros [Hpos Hiss Hpend Hout]. unfold elapse.
  apply fold_onTimeout_CoreInv. constructor; assumption.
Qed.

Lemma step_CoreInv (e : Event) (c : Conn) : CoreInv c -> CoreInv (step e c).
Proof.
  destruct e; cbn [step].
  - apply call_CoreInv.
  - apply onMessage_CoreInv.
  - apply onError_CoreInv.
  - apply elapse_CoreInv.
Qed.

Lemma run_CoreInv (es : list Event) (c : Conn) : CoreInv c -> CoreInv (run es c).
Proof.
  unfold run. revert c. induction es as [|e es IH]; intros c Hinv; cbn [fold_left].
  - exact Hinv.
  - apply IH, step_CoreInv, Hinv.
Qed.

(** *** What a timeout timer does *)

Lemma onTimeout_not_pending (id : nat) (c : Conn) :
  pending c !! id = None -> onTimeout id c = c.
Proof. unfold onTimeout. intros ->. reflexivity. Qed.

Lemma onTimeout_fires (id : nat) (c : Conn) :
  is_Some (pending c !! id) ->
  pending (onTimeout id c) !! id = None /\
  outcomesOf id (onTimeout id c) = outcomesOf id c ++ [RejectedTimeout].
Proof.
  intros [r Hr]. unfold onTimeout. rewrite Hr. cbn [pending]. split.
  - apply lookup_delete_eq.
  - erewrite outcomesOf_snoc by reflexivity. rewrite Nat.eqb_refl. reflexivity.
Qed.

Lemma onTimeout_other (id' id : nat) (c : Conn) :
  id' <> id ->
  pending (onTimeout id' c) !! id = pending c !! id /\
  outcomesOf id (onTimeout id' c) = outcomesOf id c.
Proof.
  intros Hne. unfold onTimeout. destruct (pending c !! id'); [|split; reflexivity].
  cbn [pending]. split.
  - apply lookup_delete_ne. exact Hne.
  - erewrite outcomesOf_snoc by reflexivity.
    destruct (Nat.eqb_spec id' id); [contradiction|]. apply app_nil_r.
Qed.

(** The timeout timer closes nothing and issues nothing. *)
Lemma onTimeout_frame (id : nat) (c : Conn) :
  op (onTimeout id c) = op c /\ messageId (onTimeout id c) = messageId c /\
  sent (onTimeout id c) = sent c /\ timers (onTimeout id c) = timers c /\
  clock (onTimeout id c) = clock c /\ wsFailed (onTimeout id c) = wsFailed c /\
  wsClosed (onTimeout id c) = wsClosed c.
Proof. unfold onTimeout. destruct (pending c !! id); repeat split; reflexivity. Qed.

Lemma timeoutsOf_frame (due : list (Timer nat)) (c : Conn) :
  op (timeoutsOf due c) = op c /\ messageId (timeoutsOf due c) = messageId c /\
  sent (timeoutsOf due c) = sent c /\ timers (timeoutsOf due c) = timers c /\
  clock (timeoutsOf due c) = clock c /\ wsFailed (timeoutsOf due c) = wsFailed c /\
  wsClosed (timeoutsOf due c) = wsClosed c.
Proof.
  unfold timeoutsOf. revert c. induction due as [|t due IH]; intros c; cbn [fold_left].
  - repeat split; reflexivity.
  - destruct (IH (onTimeout (callback t) c)) as (H1 & H2 & H3 & H4 & H5 & H6 & H7).
    destruct (onTimeout_frame (callback t) c) as (G1 & G2 & G3 & G4 & G5 & G6 & G7).
    repeat split; congruence.
Qed.

Lemma timeoutsOf_not_pending (due : list (Timer nat)) (id : nat) (c : Conn) :
  pending c !! id = None ->
  pending (timeoutsOf due c) !! id = None /\
  outcomesOf id (timeoutsOf due c) = outcomesOf id c.
Proof.
  unfold timeoutsOf. revert c. induction due as [|t due IH]; intros c Hc; cbn [fold_left].
  - split; [exact Hc | reflexivity].
  - destruct (decide (callback t = id)) as [->|Hne].
    + rewrite onTimeout_not_pending by exact Hc. apply IH, Hc.
    + destruct (onTimeout_other (callback t) id c Hne) as [Hp Ho].
      destruct (IH (onTimeout (callback t) c)) as [Hp' Ho']; [congruence|].
      split; congruence.
Qed.

Lemma timeoutsOf_other (due : list (Timer nat)) (id : nat) (c : Conn) :
  ~ In id (map callback due) ->
  pending (timeoutsOf due c) !! id = pending c !! id /\
  outcomesOf id (timeoutsOf due c) = outcomesOf id c.
Proof.
  unfold timeoutsOf. revert c. induction due as [|t due IH]; intros c Hnin; cbn [fold_left].
  - split; reflexivity.
  - cbn [map In] in Hnin.
    destruct (onTimeout_other (callback t) id c) as [Hp Ho]; [tauto|].
    destruct (IH (onTimeout (callback t) c)) as [Hp' Ho']; [tauto|].
    split; congruence.
Qed.

Lemma timeoutsOf_fires (due : list (Timer nat)) (id : nat) (c : Conn) :
  In id (map callback due) ->
  is_Some (pending c !! id) ->
  pending (timeoutsOf due c) !! id = None /\
  outcomesOf id (timeoutsOf due c) = outcomesOf id c ++ [RejectedTimeout].
Proof.
  revert c. induction due as [|t due IH]; intros c Hin Hsome; [contradiction|].
  change (timeoutsOf (t :: due) c) with (timeoutsOf due (onTimeout (callback t) c)).
  destruct (decide (callback t = id)) as [Heq|Hne].
  - rewrite Heq. destruct (onTimeout_fires id c Hsome) as [Hp Ho].
    destruct (timeoutsOf_not_pending due id (onTimeout id c) Hp) as [Hp' Ho'].
    split; congruence.
  - destruct (onTimeout_other (callback t) id c Hne) as [Hp Ho].
    destruct Hin as [Hin|Hin]; [contradiction|].
    destruct (IH (onTimeout (callback t) c) Hin) as [Hp' Ho']; [congruence|].
    split; congruence.
Qed.

Lemma elapse_unfold (d : nat) (c : Conn) :
  elapse d c =
    timeoutsOf (dueTimers (clock c + d) (timers c))
      (mkConn (op c) (messageId c) (pending c) (contexts c) (sent c) (settled c)
         (stillArmed (clock c + d) (timers c)) (nextHandle c) (clock c + d)
         (wsFailed c) (wsClosed c)).
Proof. reflexivity. Qed.

Lemma In_dueTimers {A} (now : nat) (t : Timer A) (armed : list (Timer A)) :
  In t (dueTimers now armed) <-> In t armed /\ deadline t <= now.
Proof.
  unfold dueTimers, isDue. rewrite List.filter_In, Nat.leb_le. reflexivity.
Qed.

Lemma In_stillArmed {A} (now : nat) (t : Timer A) (armed : list (Timer A)) :
  In t (stillArmed now armed) <-> In t armed /\ now < deadline t.
Proof.
  unfold stillArmed, isDue. rewrite List.filter_In, negb_true_iff, Nat.leb_gt. reflexivity.
Qed.

Lemma classic_in_callbacks (id : nat) (due : list (Timer nat)) :
  In id (map callback due) \/ ~ In id (map callback due).
Proof. destruct (in_dec Nat.eq_dec id (map callback due)); [left | right]; assumption. Qed.

(** *** The timer invariant *)

Lemma connect_TimerInv (o : Operation) (now : nat) : TimerInv (connect o now).
Proof.
  constructor; cbn.
  - intros ms id _ [r Hr]. rewrite lookup_empty in Hr. discriminate.
  - intros ms t _ [].
  - intros t [].
Qed.

Lemma call_TimerInv (method params : string) (c : Conn) :
  TimerInv c -> TimerInv (snd (call method params c)).
Proof.
  intros [Hcover Hdead Hids]. unfold call. cbn [snd].
  constructor; cbn [op pending timers clock messageId].
  - intros ms id Hms Hsome. rewrite Hms.
    destruct (decide (id = messageId c)) as [->|Hne].
    + eexists. split; [apply in_or_app; right; left; reflexivity | reflexivity].
    + rewrite lookup_insert_ne in Hsome by congruence.
      destruct (Hcover ms id Hms Hsome) as (t & Ht & Hcb).
      exists t. split; [apply in_or_app; left; exact Ht | exact Hcb].
  - intros ms t Hms Ht. rewrite Hms in Ht. apply in_app_or in Ht.
    destruct Ht as [Ht | [<- | []]].
    + apply (Hdead ms t Hms Ht).
    + cbn [deadline]. pose proof (timeoutMs_positive _ _ Hms). lia.
  - intros t Ht. destruct (timeoutMs (op c)) as [ms|].
    + apply in_app_or in Ht. destruct Ht as [Ht | [<- | []]].
      * specialize (Hids t Ht). lia.
      * cbn [callback]. lia.
    + specialize (Hids t Ht). lia.
Qed.

Lemma onMessage_TimerInv (m : Inbound) (c : Conn) : TimerInv c -> TimerInv (onMessage m c).
Proof.
  intros [Hcover Hdead Hids]. unfold onMessage.
  destruct (matchedResolver m c) as [[id r]|].
  - constructor; cbn [op pending timers clock messageId]; [|assumption..].
    intros ms id' Hms [r' Hr']. apply (Hcover ms id' Hms).
    destruct (decide (id' = id)) as [->|Hne].
    + rewrite lookup_delete_eq in Hr'. discriminate.
    + rewrite lookup_delete_ne in Hr' by congruence. eauto.
  - destruct (tracksContexts (op c)); [|constructor; assumption].
    destruct (m_method m); [|constructor; assumption].
    destruct (m_context m); [|constructor; assumption].
    destruct (String.eqb _ _); constructor; assumption.
Qed.

Lemma onError_TimerInv (c : Conn) : TimerInv c -> TimerInv (onError c).
Proof. intros [Hcover Hdead Hids]. constructor; assumption. Qed.

Lemma elapse_TimerInv (d : nat) (c : Conn) : TimerInv c -> TimerInv (elapse d c).
Proof.
  intros [Hcover Hdead Hids]. rewrite elapse_unfold.
  set (c1 := mkConn _ _ _ _ _ _ _ _ _ _ _).
  destruct (timeoutsOf_frame (dueTimers (clock c + d) (timers c)) c1)
    as (Hop & Hmid & _ & Htim & Hclk & _ & _).
  constructor; rewrite ?Hop, ?Hmid, ?Htim, ?Hclk; cbn [op messageId timers clock c1].
  - intros ms id Hms Hsome.
    destruct (classic_in_callbacks id (dueTimers (clock c + d) (timers c))) as [Hin|Hnin].
    + exfalso. destruct (pending c1 !! id) as [r|] eqn:Hr.
      * destruct (timeoutsOf_fires _ id c1 Hin) as [Hp _]; [eauto|].
        rewrite Hp in Hsome. destruct Hsome; discriminate.
      * destruct (timeoutsOf_not_pending (dueTimers (clock c + d) (timers c)) id c1 Hr)
          as [Hp _].
        rewrite Hp in Hsome. destruct Hsome; discriminate.
    + destruct (timeoutsOf_other _ id c1 Hnin) as [Hp _]. rewrite Hp in Hsome.
      destruct (Hcover ms id Hms Hsome) as (t & Ht & Hcb).
      exists t. split; [|exact Hcb]. apply In_stillArmed. split; [exact Ht|].
      destruct (Nat.lt_ge_cases (clock c + d) (deadline t)) as [Hlt|Hge]; [exact Hlt|].
      exfalso. apply Hnin. rewrite <- Hcb. apply in_map, In_dueTimers. split; assumption.
  - intros ms t Hms Ht. apply In_stillArmed in Ht. destruct Ht as [Ht Hlt].
    specialize (Hdead ms t Hms Ht). lia.
  - intros t Ht. apply In_stillArmed in Ht. apply Hids, Ht.
Qed.

Lemma step_TimerInv (e : Event) (c : Conn) : TimerInv c -> TimerInv (step e c).
Proof.
  destruct e; cbn [step].
  - apply call_TimerInv.
  - apply onMessage_TimerInv.
  - apply onError_TimerInv.
  - apply elapse_TimerInv.
Qed.

Lemma run_TimerInv (es : list Event) (c : Conn) : TimerInv c -> TimerInv (run es c).
Proof.
  unfold run. revert c. induction es as [|e es IH]; intros c Hinv; cbn [fold_left].
  - exact Hinv.
  - apply IH, step_TimerInv, Hinv.
Qed.

Lemma onMessage_frame (m : Inbound) (c : Conn) :
  op (onMessage m c) = op c /\ messageId (onMessage m c) = messageId c /\
  wsClosed (onMessage m c) = wsClosed c /\ wsFailed (onMessage m c) = wsFailed c.
Proof.
  unfold onMessage. destruct (matchedResolver m c) as [[id r]|]; [repeat split; reflexivity|].
  destruct (tracksContexts (op c)); [|repeat split; reflexivity].
  destruct (m_method m); [|repeat split; reflexivity].
  destruct (m_context m); [|repeat split; reflexivity].
  destruct (String.eqb _ _); repeat split; reflexivity.
Qed.

Lemma step_op_messageId (e : Event) (c : Conn) :
  op (step e c) = op c /\
  messageId (step e c) =
    messageId c + match e with Call _ _ => 1 | _ => 0 end.
Proof.
  destruct e; cbn [step].
  - unfold call. cbn. split; [reflexivity | lia].
  - destruct (onMessage_frame m c) as (H1 & H2 & _). split; [exact H1 | lia].
  - cbn. split; [reflexivity | lia].
  - rewrite elapse_unfold.
    destruct (timeoutsOf_frame (dueTimers (clock c + ms) (timers c))
                (mkConn (op c) (messageId c) (pending c) (contexts c) (sent c) (settled c)
                   (stillArmed (clock c + ms) (timers c)) (nextHandle c) (clock c + ms)
                   (wsFailed c) (wsClosed c))) as (H1 & H2 & _).
    cbn [op messageId] in H1, H2. split; [exact H1 | lia].
Qed.

Lemma run_op_messageId (es : list Event) (c : Conn) :
  op (run es c) = op c /\ messageId (run es c) = messageId c + callsIn es.
Proof.
  unfold run, callsIn. revert c.
  induction es as [|e es IH]; intros c; cbn [fold_left List.filter].
  - split; [reflexivity | cbn; lia].
  - destruct (IH (step e c)) as [H1 H2]. destruct (step_op_messageId e c) as [G1 G2].
    split; [congruence|]. rewrite H2, G2. destruct e; cbn [length]; lia.
Qed.

Lemma reachable_invariants (o : Operation) (now : nat) (es : list Event) :
  CoreInv (run es (connect o now)) /\ TimerInv (run es (connect o now)) /\
  op (run es (connect o now)) = o /\
  messageId (run es (connect o now)) = S (callsIn es).
Proof.
  split; [apply run_CoreInv, connect_CoreInv|].
  split; [apply run_TimerInv, connect_TimerInv|].
  destruct (run_op_messageId es (connect o now)) as [H1 H2]. split; [exact H1|].
  rewrite H2. reflexivity.
Qed.

Lemma In_issued_range (c : Conn) (id : nat) :
  CoreInv c -> (In id (issued c) <-> 1 <= id < messageId c).
Proof.
  intros Hinv. rewrite (ci_issued c Hinv), in_seq.
  pose proof (ci_pos c Hinv). lia.
Qed.

Lemma expectedOutcomes_le_1 (c : Conn) (id : nat) : expectedOutcomes c id <= 1.
Proof.
  unfold expectedOutcomes. destruct (pending c !! id); [lia|].
  destruct (_ && _); lia.
Qed.

(** Once the delay of the operation has passed, no call is pending. *)
Lemma elapse_clears_pending (c : Conn) (ms d : nat) (id : nat) :
  TimerInv c -> timeoutMs (op c) = Some ms -> ms <= d ->
  pending (elapse d c) !! id = None.
Proof.
  intros Htim Hms Hd. rewrite elapse_unfold.
  set (c1 := mkConn _ _ _ _ _ _ _ _ _ _ _).
  destruct (pending c !! id) as [r|] eqn:Hr.
  - destruct (ti_cover c Htim ms id Hms) as (t & Ht & Hcb); [eauto|].
    pose proof (ti_deadline c Htim ms t Hms Ht) as Hdl.
    apply (timeoutsOf_fires _ id c1); [|cbn; eauto].
    rewrite <- Hcb. apply in_map, In_dueTimers. split; [exact Ht | lia].
  - apply (timeoutsOf_not_pending _ id c1). exact Hr.
Qed.

(** *** A connection whose calls arm no timer *)

Lemma step_no_timers (e : Event) (c : Conn) :
  timeoutMs (op c) = None -> timers c = [] ->
  timeoutMs (op (step e c)) = None /\ timers (step e c) = [].
Proof.
  intros Hms Ht. destruct (step_op_messageId e c) as [Hop _]. rewrite Hop.
  split; [exact Hms|]. destruct e; cbn [step].
  - unfold call. cbn [snd timers]. rewrite Hms. exact Ht.
  - unfold onMessage. destruct (matchedResolver m c) as [[id r]|]; [exact Ht|].
    destruct (tracksContexts (op c)); [|exact Ht].
    destruct (m_method m); [|exact Ht]. destruct (m_context m); [|exact Ht].
    destruct (String.eqb _ _); exact Ht.
  - exact Ht.
  - rewrite elapse_unfold, Ht. reflexivity.
Qed.

Lemma run_no_timers (es : list Event) (c : Conn) :
  timeoutMs (op c) = None -> timers c = [] ->
  timeoutMs (op (run es c)) = None /\ timers (run es c) = [].
Proof.
  unfold run. revert c. induction es as [|e es IH]; intros c Hms Ht; cbn [fold_left].
  - split; assumption.
  - destruct (step_no_timers e c Hms Ht) as [Hms' Ht']. apply IH; assumption.
Qed.

Lemma step_silent (e : Event) (c : Conn) :
  timeoutMs (op c) = None -> timers c = [] -> notMessage e ->
  settled (step e c) = settled c /\
  (forall id, is_Some (pending c !! id) -> is_Some (pending (step e c) !! id)).
Proof.
  intros Hms Ht Hne. destruct e; cbn [step]; [| contradiction | |].
  - unfold call. cbn [snd settled pending]. split; [reflexivity|].
    intros id Hsome. destruct (decide (id = messageId c)) as [->|Hid].
    + rewrite lookup_insert_eq. eauto.
    + rewrite lookup_insert_ne by congruence. exact Hsome.
  - split; [reflexivity | intros id Hsome; exact Hsome].
  - rewrite elapse_unfold, Ht. split; [reflexivity | intros id Hsome; exact Hsome].
Qed.

Lemma run_silent (es : list Event) (c : Conn) :
  timeoutMs (op c) = None -> timers c = [] -> Forall notMessage es ->
  settled (run es c) = settled c /\
  (forall id, is_Some (pending c !! id) -> is_Some (pending (run es c) !! id)).
Proof.
  intros Hms Ht Hes. revert c Hms Ht. unfold run.
  induction Hes as [|e es He _ IH]; intros c Hms Ht; cbn [fold_left].
  - split; [reflexivity | intros id Hsome; exact Hsome].
  - destruct (step_no_timers e c Hms Ht) as [Hms' Ht'].
    destruct (step_silent e c Hms Ht He) as [Hs Hp].
    destruct (IH (step e c) Hms' Ht') as [Hs' Hp'].
    split; [congruence | intros id Hsome; apply Hp', Hp, Hsome].
Qed.

(** C2, as the code has it.  On every connection the request ids are 1, 2,
    3, ... in the order of the calls; a reply whose id is not in [pending]
    changes nothing; a reply to a pending id settles its call with the
    result, or with the carried error message, and removes the id; no
    request id ever has two outcomes, and an issued id has none exactly
    while it is pending.  In the call helpers, which arm a timer per call,
    every issued id has exactly one outcome once the delay has passed.  The
    socket's error handler settles no call: there is no rejection caused by
    a connection failure; and on [connectToTarget]'s connection, whose calls
    arm no timer, nothing but a reply settles a call: whatever else happens,
    the pending calls stay pending. *)
Theorem request_correlation (o : Operation) (now : nat) (es : list Event) :
  issued (run es (connect o now)) = seq 1 (callsIn es) /\
  (forall method params,
      fst (call method params (run es (connect o now))) = S (callsIn es)) /\
  (forall id error result,
      pending (run es (connect o now)) !! id = None ->
      onMessage (reply id error result) (run es (connect o now)) = run es (connect o now)) /\
  (forall id error result,
      In id (issued (run es (connect o now))) ->
      is_Some (pending (run es (connect o now)) !! id) ->
      pending (onMessage (reply id error result) (run es (connect o now))) !! id = None /\
      outcomesOf id (onMessage (reply id error result) (run es (connect o now))) =
        [match error with
         | Some message => RejectedError message
         | None => Resolved result
         end]) /\
  (forall id, length (outcomesOf id (run es (connect o now))) <= 1) /\
  (forall id,
      In id (issued (run es (connect o now))) ->
      (outcomesOf id (run es (connect o now)) = [] <->
       is_Some (pending (run es (connect o now)) !! id))) /\
  (forall ms d,
      timeoutMs o = Some ms -> ms <= d ->
      EverySettledOnce (elapse d (run es (connect o now)))) /\
  (settled (onError (run es (connect o now))) = settled (run es (connect o now)) /\
   pending (onError (run es (connect o now))) = pending (run es (connect o now))) /\
  (forall later,
      timeoutMs o = None -> Forall notMessage later ->
      settled (run later (run es (connect o now))) = settled (run es (connect o now)) /\
      (forall id, is_Some (pending (run es (connect o now)) !! id) ->
                  is_Some (pending (run later (run es (connect o now))) !! id))).
Proof.
  destruct (reachable_invariants o now es) as (Hcore & Htim & Hop & Hmid).
  assert (Hsilent : forall later,
      timeoutMs o = None -> Forall notMessage later ->
      settled (run later (run es (connect o now))) = settled (run es (connect o now)) /\
      (forall id, is_Some (pending (run es (connect o now)) !! id) ->
                  is_Some (pending (run later (run es (connect o now))) !! id))).
  { intros later Hms Hlater.
    destruct (run_no_timers es (connect o now) Hms eq_refl) as [Hms' Ht'].
    apply run_silent; assumption. }
  set (c := run es (connect o now)) in *.
  split; [|split; [|split; [|split; [|split; [|split; [|split; [|split; [|exact Hsilent]]]]]]]].
  - rewrite (ci_issued c Hcore), Hmid. f_equal. lia.
  - intros method params. unfold call. cbn [fst]. exact Hmid.
  - intros id error result Hnone. unfold onMessage, matchedResolver, reply.
    cbn [m_id m_method]. rewrite Hnone.
    destruct (id =? 0)%nat; destruct (tracksContexts (op c)); reflexivity.
  - intros id error result Hin [r Hr].
    apply (In_issued_range c id Hcore) in Hin.
    destruct (ci_pending c Hcore id r Hr) as [Hpr _].
    assert (Hlen : length (outcomesOf id c) = 0).
    { rewrite (ci_outcomes c Hcore). unfold expectedOutcomes. rewrite Hr. reflexivity. }
    assert (Hnil : outcomesOf id c = []) by (destruct (outcomesOf id c); [reflexivity | discriminate]).
    unfold onMessage, matchedResolver, reply. cbn [m_id m_error m_result]. rewrite Hr.
    destruct (Nat.eqb_spec id 0) as [->|_]; [lia|].
    cbn [pending]. split; [apply lookup_delete_eq|].
    erewrite outcomesOf_snoc by reflexivity.
    rewrite Hpr, Nat.eqb_refl, Hnil. destruct error; reflexivity.
  - intros id. rewrite (ci_outcomes c Hcore). apply expectedOutcomes_le_1.
  - intros id Hin. apply (In_issued_range c id Hcore) in Hin.
    pose proof (ci_outcomes c Hcore id) as Hlen. unfold expectedOutcomes in Hlen.
    destruct (pending c !! id) as [r|].
    + split; [eauto|]. intros _. destruct (outcomesOf id c); [reflexivity | discriminate].
    + destruct (Nat.leb_spec 1 id), (Nat.ltb_spec id (messageId c)); try lia.
      cbn [andb] in Hlen. split.
      * intros Hnil. rewrite Hnil in Hlen. discriminate.
      * intros [r Hr]. discriminate.
  - intros ms d Hms Hd id Hin.
    assert (Hcore' : CoreInv (elapse d c)) by apply elapse_CoreInv, Hcore.
    apply (In_issued_range _ id Hcore') in Hin.
    rewrite (ci_outcomes _ Hcore'). unfold expectedOutcomes.
    rewrite (elapse_clears_pending c ms d id Htim) by (rewrite ?Hop; assumption).
    destruct (Nat.leb_spec 1 id), (Nat.ltb_spec id (messageId (elapse d c))); try lia.
    reflexivity.
  - split; reflexivity.
Qed.

Lemma request_correlation_witness :
  EverySettledOnce
    (elapse 3000
       (run [Call "Runtime.enable" "{}"; Message (reply 1 None "{}");
             Call "Runtime.evaluate" "{}"]
          (connect GetModelAndMode 0))).
Proof.
  apply (proj1 (proj2 (proj2 (proj2 (proj2 (proj2 (proj2
           (request_correlation GetModelAndMode 0
              [Call "Runtime.enable" "{}"; Message (reply 1 None "{}");
               Call "Runtime.evaluate" "{}"]))))))) 3000 3000).
  - reflexivity.
  - lia.
Defined.

(** C2 as stated fails: a request sent through [connectToTarget] that is
    never answered has no outcome, also after the socket has failed and
    with no timer left to fire. *)
Lemma request_without_outcome :
  ~ (forall o es, Quiescent (run es (connect o 0)) ->
                  EverySettledOnce (run es (connect o 0))).
Proof.
  intros H.
  specialize (H ConnectToTarget [Call "Page.captureScreenshot" "{}"; WsError]).
  assert (Hq : Quiescent (run [Call "Page.captureScreenshot" "{}"; WsError]
                            (connect ConnectToTarget 0))) by (split; reflexivity).
  specialize (H Hq 1 (or_introl eq_refl)).
  vm_compute in H. discriminate.
Qed.

(** *** Deadlines *)

Lemma call_then_elapse (c : Conn) (method params : string) (ms d : nat) :
  CoreInv c -> TimerInv c -> timeoutMs (op c) = Some ms ->
  let id := fst (call method params c) in
  let c1 := snd (call method params c) in
  (d < ms ->
     is_Some (pending (elapse d c1) !! id) /\ outcomesOf id (elapse d c1) = []) /\
  (ms <= d ->
     pending (elapse d c1) !! id = None /\
     outcomesOf id (elapse d c1) = [RejectedTimeout]) /\
  wsClosed (elapse d c1) = wsClosed c /\
  wsFailed (elapse d c1) = wsFailed c /\
  messageId (elapse d c1) = S (messageId c) /\
  (forall id', ~ In id' (map callback (dueTimers (clock c + d) (timers c1))) ->
               pending (elapse d c1) !! id' = pending c1 !! id').
Proof.
  intros Hcore Htim Hms. cbn zeta.
  assert (Hid : fst (call method params c) = messageId c) by reflexivity.
  rewrite Hid.
  set (c1 := snd (call method params c)).
  assert (Htimers : timers c1 = timers c ++ [mkTimer (nextHandle c) (clock c + ms) (messageId c)]).
  { unfold c1, call. cbn [snd timers]. rewrite Hms. reflexivity. }
  assert (Hpend1 : pending c1 !! messageId c = Some (mkResolver (messageId c))).
  { unfold c1, call. cbn [snd pending]. apply lookup_insert_eq. }
  assert (Hclock : clock c1 = clock c) by reflexivity.
  assert (Hnil : outcomesOf (messageId c) c1 = []).
  { rewrite (outcomesOf_settled _ c c1) by reflexivity.
    pose proof (ci_outcomes c Hcore (messageId c)) as Hlen.
    unfold expectedOutcomes in Hlen.
    destruct (pending c !! messageId c) as [r|] eqn:Hr.
    - apply (ci_pending c Hcore) in Hr. lia.
    - destruct (Nat.ltb_spec (messageId c) (messageId c)); [lia|].
      rewrite andb_false_r in Hlen.
      destruct (outcomesOf (messageId c) c); [reflexivity | discriminate]. }
  rewrite elapse_unfold. rewrite Hclock.
  set (c2 := mkConn _ _ _ _ _ _ _ _ _ _ _).
  assert (Hp2 : pending c2 = pending c1) by reflexivity.
  assert (Ho2 : forall i, outcomesOf i c2 = outcomesOf i c1) by reflexivity.
  destruct (timeoutsOf_frame (dueTimers (clock c + d) (timers c1)) c2)
    as (_ & Hmid & _ & _ & _ & Hfail & Hclosed).
  split; [|split; [|split; [|split; [|split]]]].
  - intros Hlt.
    destruct (timeoutsOf_other (dueTimers (clock c + d) (timers c1)) (messageId c) c2)
      as [Hp Ho].
    { intros Hin. apply in_map_iff in Hin. destruct Hin as (t & Hcb & Ht).
      apply In_dueTimers in Ht. destruct Ht as [Ht Hdue].
      rewrite Htimers in Ht. apply in_app_or in Ht. destruct Ht as [Ht | [<- | []]].
      - pose proof (ti_ids c Htim t Ht). lia.
      - cbn [deadline] in Hdue. lia. }
    rewrite Hp, Ho, Hp2, Ho2, Hpend1, Hnil. split; [eauto | reflexivity].
  - intros Hge.
    destruct (timeoutsOf_fires (dueTimers (clock c + d) (timers c1)) (messageId c) c2)
      as [Hp Ho].
    { apply in_map_iff. exists (mkTimer (nextHandle c) (clock c + ms) (messageId c)).
      split; [reflexivity|]. apply In_dueTimers. split.
      - rewrite Htimers. apply in_or_app. right. left. reflexivity.
      - cbn [deadline]. lia. }
    { rewrite Hp2, Hpend1. eauto. }
    rewrite Hp, Ho, Ho2, Hnil. split; reflexivity.
  - exact Hclosed.
  - exact Hfail.
  - rewrite Hmid. reflexivity.
  - intros id' Hnin.
    destruct (timeoutsOf_other (dueTimers (clock c + d) (timers c1)) id' c2 Hnin) as [Hp _].
    rewrite Hp, Hp2. reflexivity.
Qed.

(** C7, as the code has it.  The calls of [getModelAndMode] have a delay of
    3000 ms; those of [getPendingApprovals], [setModel], [setMode] and
    [respondToApproval] have a delay of 5000 ms.  A call that is not
    answered stays pending, without outcome, until its delay has passed;
    from then on its id is out of [pending] and its promise has the single
    outcome "rejected: Timeout".  The timer closes nothing: the socket's
    state is as before, and the calls that have no due timer stay as they
    were. *)
Theorem call_timeout (o : Operation) (now : nat) (es : list Event)
    (method params : string) (ms d : nat) :
  timeoutMs o = Some ms ->
  (timeoutMs GetModelAndMode = Some 3000 /\
   timeoutMs GetPendingApprovals = Some 5000 /\
   timeoutMs SetModel = Some 5000 /\
   timeoutMs SetMode = Some 5000 /\
   timeoutMs RespondToApproval = Some 5000) /\
  let c := run es (connect o now) in
  let id := fst (call method params c) in
  let c1 := snd (call method params c) in
  (d < ms ->
     is_Some (pending (elapse d c1) !! id) /\ outcomesOf id (elapse d c1) = []) /\
  (ms <= d ->
     pending (elapse d c1) !! id = None /\
     outcomesOf id (elapse d c1) = [RejectedTimeout]) /\
  wsClosed (elapse d c1) = wsClosed c /\
  wsFailed (elapse d c1) = wsFailed c /\
  (forall id', ~ In id' (map callback (dueTimers (clock c + d) (timers c1))) ->
               pending (elapse d c1) !! id' = pending c1 !! id').
Proof.
  intros Hms. split; [repeat split; reflexivity|]. cbn zeta.
  destruct (reachable_invariants o now es) as (Hcore & Htim & Hop & _).
  rewrite <- Hop in Hms.
  destruct (call_then_elapse (run es (connect o now)) method params ms d Hcore Htim Hms)
    as (H1 & H2 & H3 & H4 & _ & H6).
  repeat split; try assumption; try (apply H1; assumption); try (apply H2; assumption).
Qed.

Lemma call_timeout_witness :
  let c1 := snd (call "Runtime.evaluate" "{}"
                   (run [Call "Runtime.enable" "{}"] (connect GetPendingApprovals 0))) in
  pending (elapse 5000 c1) !! 2 = None /\
  outcomesOf 2 (elapse 5000 c1) = [RejectedTimeout].
Proof.
  cbn zeta.
  apply (proj1 (proj2 (proj2 (call_timeout GetPendingApprovals 0
                                [Call "Runtime.enable" "{}"] "Runtime.evaluate" "{}"
                                5000 5000 eq_refl)))).
  lia.
Defined.

(** C7 as stated fails for [getPendingApprovals]: three seconds after an
    unanswered call, and still after 4999 ms, the call is pending and its
    promise has no outcome. *)
Lemma getPendingApprovals_pending_after_3s :
  let c1 := run [Call "Runtime.evaluate" "{}"] (connect GetPendingApprovals 0) in
  timeoutMs GetPendingApprovals <> Some 3000 /\
  is_Some (pending (elapse 3000 c1) !! 1) /\ outcomesOf 1 (elapse 3000 c1) = [] /\
  is_Some (pending (elapse 4999 c1) !! 1) /\ outcomesOf 1 (elapse 4999 c1) = [].
Proof.
  cbn zeta. split; [discriminate|].
  repeat split; try (vm_compute; reflexivity); vm_compute; eauto.
Qed.

(** ** Model/mode reader *)

Lemma readerLoop_first (els : list Elem) (m d : option string) :
  readerLoop els m d = (keepFirst m (firstModelText els), keepFirst d (firstModeText els)).
Proof.
  unfold firstModelText, firstModeText, textsOf.
  revert m d. induction els as [|el els IH]; intros m d.
  - destruct m, d; reflexivity.
  - cbn [readerLoop map js_find].
    assert (Hc : (String.length (Js.trim (rawText el)) <? 4)%nat
                 || (50 <? String.length (Js.trim (rawText el)))%nat
                 = negb (admissibleText (Js.trim (rawText el))))
      by (unfold admissibleText; rewrite negb_involutive; reflexivity).
    rewrite Hc. destruct (admissibleText (Js.trim (rawText el))).
    + cbn [negb andb].
      destruct m as [m|], d as [d|];
        destruct (looksLikeModel (Js.trim (rawText el)));
        destruct (looksLikeMode (Js.trim (rawText el)));
        cbn [isSome negb andb keepFirst]; rewrite ?IH; reflexivity.
    + cbn [negb andb]. apply IH.
Qed.

Lemma readerScript_first (els : list Elem) :
  readerScript els = mkModelAndMode (firstModelText els) (firstModeText els).
Proof. unfold readerScript. rewrite readerLoop_first. reflexivity. Qed.

Lemma firstModelText_truthy (els : list Elem) (m : string) :
  firstModelText els = Some m -> Js.truthy (Some m) = true.
Proof.
  unfold firstModelText. intros H. apply js_find_some in H.
  destruct H as (_ & _ & _ & _ & Hm). apply andb_true_iff in Hm. destruct Hm as [Hadm _].
  destruct m; [discriminate Hadm | reflexivity].
Qed.

Lemma readContexts_none (ctxs : list (option (list Elem))) :
  NoModelIn ctxs -> readContexts ctxs = defaultModelAndMode.
Proof.
  induction 1 as [|ctx ctxs Hctx _ IH]; cbn [readContexts]; [reflexivity|].
  destruct ctx as [els|]; [|exact IH].
  rewrite readerScript_first. cbn [model]. rewrite Hctx. exact IH.
Qed.

Lemma readContexts_first (pre : list (option (list Elem))) (els : list Elem)
    (post : list (option (list Elem))) (m : string) :
  NoModelIn pre -> firstModelText els = Some m ->
  readContexts (pre ++ Some els :: post) = mkModelAndMode (Some m) (firstModeText els).
Proof.
  intros Hpre Hm. induction Hpre as [|ctx pre Hctx _ IH]; cbn [readContexts app].
  - rewrite readerScript_first. cbn [model]. rewrite Hm.
    rewrite (firstModelText_truthy els m Hm). reflexivity.
  - destruct ctx as [els'|]; [|exact IH].
    rewrite readerScript_first. cbn [model]. rewrite Hctx. exact IH.
Qed.

(** C6, as the code has it.  In one context the first text matching the
    model pattern and the first text matching a mode name are taken.  The
    first context, in discovery order, in which a model was found gives both
    fields of the answer, the mode being null when that context has no mode
    text.  When no context yields a model, and when the socket fails or
    [Runtime.enable] is rejected, the answer is model "Unknown" and mode
    "Planning". *)
Theorem getModelAndMode_result (ctxs : list (option (list Elem))) :
  (forall els, readerScript els = mkModelAndMode (firstModelText els) (firstModeText els)) /\
  (NoModelIn ctxs ->
     getModelAndMode (Contexts ctxs) = mkModelAndMode (Some "Unknown") (Some "Planning")) /\
  (forall pre els post m,
     ctxs = pre ++ Some els :: post ->
     NoModelIn pre -> firstModelText els = Some m ->
     getModelAndMode (Contexts ctxs) = mkModelAndMode (Some m) (firstModeText els)) /\
  getModelAndMode SocketError = mkModelAndMode (Some "Unknown") (Some "Planning") /\
  (forall message,
     getModelAndMode (EnableRejected message) =
       mkModelAndMode (Some "Unknown") (Some "Planning")).
Proof.
  split; [exact readerScript_first|].
  split; [intros Hnone; cbn [getModelAndMode]; apply readContexts_none, Hnone|].
  split; [|split; [reflexivity | intros message; reflexivity]].
  intros pre els post m -> Hpre Hm. cbn [getModelAndMode].
  apply readContexts_first; assumption.
Qed.

Lemma getModelAndMode_result_witness :
  getModelAndMode
    (Contexts [None; Some [textElem 1 "Explorer"];
               Some [textElem 2 "Fast"; textElem 3 "Claude Opus 4.5 (Thinking)"]])
  = mkModelAndMode (Some "Claude Opus 4.5 (Thinking)") (Some "Fast").
Proof.
  apply (proj1 (proj2 (proj2 (getModelAndMode_result _)))
           [None; Some [textElem 1 "Explorer"]]
           [textElem 2 "Fast"; textElem 3 "Claude Opus 4.5 (Thinking)"] []).
  - reflexivity.
  - repeat constructor.
  - vm_compute. reflexivity.
Defined.

(** C6 as stated fails for the mode: with no match at all the mode is
    "Planning", and in a context with a model but no mode text it is null;
    in neither case is it "Unknown". *)
Lemma mode_default_not_Unknown :
  mode (getModelAndMode (Contexts [Some [textElem 1 "Explorer"]])) = Some "Planning" /\
  mode (getModelAndMode (Contexts [Some [textElem 1 "Gemini 3 Pro (High)"]])) = None /\
  mode (getModelAndMode (Contexts [])) <> Some "Unknown" /\
  mode (getModelAndMode (Contexts [Some [textElem 1 "Gemini 3 Pro (High)"]]))
    <> Some "Unknown".
Proof.
  repeat split; try (vm_compute; reflexivity); vm_compute; discriminate.
Qed.

(** ** Model/mode setter *)

Section MatchLoop.

Variable modelName : string.

Let targetModel := Js.toLowerCase modelName.
Let targetParts := targetPartsOf targetModel.

Lemma matchLoop_weak_step (cand : Candidate) (rest : list Candidate)
    (best : option (Candidate * Tier)) :
  strongMatch modelName cand = false ->
  matchLoop targetModel targetParts (cand :: rest) best =
    matchLoop targetModel targetParts rest
      (if weakMatch modelName cand then Some (cand, RelaxedTier) else best).
Proof.
  unfold strongMatch, weakMatch. fold targetModel. fold targetParts.
  intros Hs. apply orb_false_iff in Hs. destruct Hs as [He Ha].
  cbn [matchLoop]. rewrite He, Ha.
  destruct (relaxedMatch targetParts (c_text cand)); reflexivity.
Qed.

Lemma matchLoop_strong_step (cand : Candidate) (rest : list Candidate)
    (best : option (Candidate * Tier)) :
  strongMatch modelName cand = true ->
  matchLoop targetModel targetParts (cand :: rest) best =
    Some (cand, strongTier modelName cand).
Proof.
  unfold strongMatch, strongTier. fold targetModel. fold targetParts.
  intros Hs. cbn [matchLoop].
  destruct (exactMatch targetModel (c_text cand)); [reflexivity|].
  cbn [orb] in Hs. rewrite Hs. reflexivity.
Qed.

Lemma matchLoop_first_strong (pre : list Candidate) (cand : Candidate)
    (post : list Candidate) (best : option (Candidate * Tier)) :
  Forall (fun x => strongMatch modelName x = false) pre ->
  strongMatch modelName cand = true ->
  matchLoop targetModel targetParts (pre ++ cand :: post) best =
    Some (cand, strongTier modelName cand).
Proof.
  intros Hpre Hc. revert best.
  induction Hpre as [|x pre Hx _ IH]; intros best; cbn [app].
  - apply matchLoop_strong_step, Hc.
  - rewrite matchLoop_weak_step by exact Hx. apply IH.
Qed.

Lemma matchLoop_no_match (cands : list Candidate) (best : option (Candidate * Tier)) :
  Forall (fun x => strongMatch modelName x = false /\ weakMatch modelName x = false) cands ->
  matchLoop targetModel targetParts cands best = best.
Proof.
  intros H. revert best. induction H as [|x cands [Hs Hw] _ IH]; intros best.
  - reflexivity.
  - rewrite matchLoop_weak_step by exact Hs. rewrite Hw. apply IH.
Qed.

Lemma matchLoop_last_weak (pre : list Candidate) (cand : Candidate)
    (post : list Candidate) (best : option (Candidate * Tier)) :
  Forall (fun x => strongMatch modelName x = false) (pre ++ cand :: post) ->
  weakMatch modelName cand = true ->
  Forall (fun x => weakMatch modelName x = false) post ->
  matchLoop targetModel targetParts (pre ++ cand :: post) best =
    Some (cand, RelaxedTier).
Proof.
  intros Hall Hc Hpost. revert best.
  induction pre as [|x pre IH]; intros best; cbn [app] in *.
  - apply Forall_cons_iff in Hall. destruct Hall as [Hs Hall].
    rewrite matchLoop_weak_step by exact Hs. rewrite Hc.
    apply matchLoop_no_match.
    apply Forall_forall. intros y Hy. split.
    + eapply (proj1 (Forall_forall _ _) Hall), Hy.
    + eapply (proj1 (Forall_forall _ _) Hpost), Hy.
  - apply Forall_cons_iff in Hall. destruct Hall as [Hs Hall].
    rewrite matchLoop_weak_step by exact Hs. apply IH, Hall.
Qed.

End MatchLoop.

(** C3, as the code has it.  [setModel] goes through the candidates once,
    in discovery order.  The first candidate that equals the requested name
    (normalised) or contains every part of it - the pieces of at least two
    characters between non-alphanumerics - is selected, whichever of the
    two checks it meets; when no candidate meets either, the last candidate
    that contains the first part and at least half of the other parts is
    selected; otherwise none.  Requesting "Claude Sonnet 4.5" against
    "Claude Sonnet 4.5 (Thinking)" and "Gemini 3 Pro (High)" selects the
    first candidate by the all-parts check. *)
Theorem selectModel_precedence (modelName : string) (candidates : list Candidate) :
  (forall pre cand post,
      candidates = pre ++ cand :: post ->
      Forall (fun x => strongMatch modelName x = false) pre ->
      strongMatch modelName cand = true ->
      selectModel modelName candidates = Some (cand, strongTier modelName cand)) /\
  (forall pre cand post,
      candidates = pre ++ cand :: post ->
      Forall (fun x => strongMatch modelName x = false) candidates ->
      weakMatch modelName cand = true ->
      Forall (fun x => weakMatch modelName x = false) post ->
      selectModel modelName candidates = Some (cand, RelaxedTier)) /\
  (Forall (fun x => strongMatch modelName x = false /\ weakMatch modelName x = false)
     candidates ->
   selectModel modelName candidates = None) /\
  setModelScript "Claude Sonnet 4.5" exampleModelDom =
    (mkSetResult true true (Some "Claude Sonnet 4.5 (Thinking)") None None None,
     [Click 2; LogTier AllPartsTier; ScrollIntoView 10; Click 10]).
Proof.
  unfold selectModel. split; [|split; [|split]].
  - intros pre cand post -> Hpre Hc. apply matchLoop_first_strong; assumption.
  - intros pre cand post -> Hall Hc Hpost. apply matchLoop_last_weak; assumption.
  - intros Hnone. apply matchLoop_no_match, Hnone.
  - vm_compute. reflexivity.
Qed.

Lemma selectModel_precedence_witness :
  selectModel "Gemini 3 Pro (High)"
    [candidateOf 1 "Gemini 3 Pro (Low)"; candidateOf 2 "Gemini 3 Flash (High)";
     candidateOf 3 "Claude Opus 4.5"]
  = Some (candidateOf 2 "Gemini 3 Flash (High)", RelaxedTier).
Proof.
  apply (proj1 (proj2 (selectModel_precedence "Gemini 3 Pro (High)" _))
           [candidateOf 1 "Gemini 3 Pro (Low)"]
           (candidateOf 2 "Gemini 3 Flash (High)")
           [candidateOf 3 "Claude Opus 4.5"]).
  - reflexivity.
  - repeat constructor.
  - vm_compute. reflexivity.
  - repeat constructor.
Defined.

(** C3 as stated fails: an exact match that comes after a candidate
    containing all parts is not selected, and of two candidates that meet
    only the relaxed check the later one is selected. *)
Lemma selectModel_not_tiered :
  selectModel "Claude Sonnet 4.5"
    [candidateOf 1 "Claude Sonnet 4.5 (Thinking)"; candidateOf 2 "Claude Sonnet 4.5"]
  <> specSelect "Claude Sonnet 4.5"
       [candidateOf 1 "Claude Sonnet 4.5 (Thinking)"; candidateOf 2 "Claude Sonnet 4.5"] /\
  selectModel "Claude Sonnet 4.5"
    [candidateOf 1 "Claude Sonnet 4.5 (Thinking)"; candidateOf 2 "Claude Sonnet 4.5"]
  = Some (candidateOf 1 "Claude Sonnet 4.5 (Thinking)", AllPartsTier) /\
  specSelect "Claude Sonnet 4.5"
    [candidateOf 1 "Claude Sonnet 4.5 (Thinking)"; candidateOf 2 "Claude Sonnet 4.5"]
  = Some (candidateOf 2 "Claude Sonnet 4.5", ExactTier) /\
  selectModel "Gemini 3 Pro (High)"
    [candidateOf 1 "Gemini 3 Pro (Low)"; candidateOf 2 "Gemini 3 Flash (High)"]
  = Some (candidateOf 2 "Gemini 3 Flash (High)", RelaxedTier) /\
  specSelect "Gemini 3 Pro (High)"
    [candidateOf 1 "Gemini 3 Pro (Low)"; candidateOf 2 "Gemini 3 Flash (High)"]
  = Some (candidateOf 1 "Gemini 3 Pro (Low)", RelaxedTier).
Proof. split; [vm_compute; discriminate|]. repeat split; vm_compute; reflexivity. Qed.

(** C9, as the code has it.  When no candidate matches, both setter
    scripts dispatch an Escape key-down after the click that opened the
    list and return [found: true, success: false] with an error text.
    [setMode] adds the list of the candidates' texts (each cut to 50
    characters) and the first ten cursor-pointer texts; [setModel] returns
    the error text only. *)
Theorem setter_no_match (name : string) (dom : SetterDom) :
  (forall button,
      findModelButton (allElements dom) = Some button ->
      selectModel name (collectModelCandidates dom) = None ->
      setModelScript name dom =
        (mkSetResult true false None (Some "Model option not found") None None,
         [Click button; DispatchKeydown "Escape"]) /\
      setModel name [Some dom] = setModelScript name dom) /\
  (forall button,
      findModeButton (allElements dom) = Some button ->
      selectMode (Js.toLowerCase name) (snd (modeCandidates (cursorPointerItems dom))) = None ->
      setModeScript name dom =
        (mkSetResult true false None (Some "Mode option not found")
           (Some (map (fun c => Js.substringTo 50 (c_text c))
                    (snd (modeCandidates (cursorPointerItems dom)))))
           (Some (take 10 (fst (modeCandidates (cursorPointerItems dom))))),
         [Click button; DispatchKeydown "Escape"]) /\
      setMode name [Some dom] = setModeScript name dom).
Proof.
  split.
  - intros button Hb Hsel.
    assert (Hscript : setModelScript name dom =
      (mkSetResult true false None (Some "Model option not found") None None,
       [Click button; DispatchKeydown "Escape"])).
    { unfold setModelScript. rewrite Hb, Hsel. reflexivity. }
    split; [exact Hscript|].
    unfold setModel. cbn [firstFound]. rewrite Hscript. reflexivity.
  - intros button Hb Hsel.
    assert (Hscript : setModeScript name dom =
      (mkSetResult true false None (Some "Mode option not found")
         (Some (map (fun c => Js.substringTo 50 (c_text c))
                  (snd (modeCandidates (cursorPointerItems dom)))))
         (Some (take 10 (fst (modeCandidates (cursorPointerItems dom))))),
       [Click button; DispatchKeydown "Escape"])).
    { unfold setModeScript. rewrite Hb.
      destruct (modeCandidates (cursorPointerItems dom)) as [texts cands].
      cbn [fst snd] in *. rewrite Hsel. reflexivity. }
    split; [exact Hscript|].
    unfold setMode. cbn [firstFound]. rewrite Hscript. reflexivity.
Qed.

Lemma setter_no_match_witness :
  setModeScript "Turbo" noMatchModeDom =
    (mkSetResult true false None (Some "Mode option not found")
       (Some ["planning"; "fast"]) (Some ["planning"; "fast"]),
     [Click 1; DispatchKeydown "Escape"]).
Proof.
  apply (proj2 (setter_no_match "Turbo" noMatchModeDom) 1).
  - reflexivity.
  - reflexivity.
Defined.

(** C9 as stated fails for [setModel]: two candidates were found and
    rejected, and the failure result carries no list of them. *)
Lemma setModel_failure_without_candidates :
  map c_text (collectModelCandidates noMatchModelDom) =
    ["gemini 3 pro (high)"; "gpt-oss 120b (medium)"] /\
  setModel "Claude Opus 4.5 (Thinking)" [Some noMatchModelDom] =
    (mkSetResult true false None (Some "Model option not found") None None,
     [Click 1; DispatchKeydown "Escape"]) /\
  r_candidatesFound (fst (setModel "Claude Opus 4.5 (Thinking)" [Some noMatchModelDom]))
    = None.
Proof. repeat split; vm_compute; reflexivity. Qed.

(** * Further properties of the code *)

(** ** The watcher under arbitrary use *)

Lemma WatchInv_no_timer (st : WatchState) : armedTimers st = [] -> WatchInv st.
Proof. unfold WatchInv. intros ->. exact I. Qed.

Lemma stopWatching_WatchInv (st : WatchState) : WatchInv st -> WatchInv (stopWatching st).
Proof. intros H. apply WatchInv_no_timer. apply (stopWatching_clean st H). Qed.

Lemma startWatching_facts (folder : string) (exists_ watchOk : bool) (st : WatchState) :
  WatchInv st ->
  armedTimers (startWatching folder exists_ watchOk st) = [] /\
  activeWatcher (startWatching folder exists_ watchOk st) =
    (if exists_ && watchOk then Some folder else None) /\
  (exists_ = true -> watchedPath (startWatching folder exists_ watchOk st) = Some folder).
Proof.
  intros Hinv. destruct (stopWatching_clean st Hinv) as (Ha & _ & Haw).
  unfold startWatching. destruct exists_, watchOk; cbn [negb andb];
    cbn [armedTimers activeWatcher watchedPath]; repeat split;
    try assumption; try reflexivity; intros; discriminate.
Qed.

Lemma onFsEvent_WatchInv (now : nat) (folder type filename : string) (st : WatchState) :
  WatchInv st -> WatchInv (onFsEvent now folder type filename st).
Proof.
  intros H. destruct (onFsEvent_restarts now folder type filename st H) as (Ha & Hd & _).
  unfold WatchInv. rewrite Ha, Hd. reflexivity.
Qed.

Lemma watchAdvance_WatchInv (now : nat) (st : WatchState) :
  WatchInv st -> WatchInv (fst (watchAdvance now st)).
Proof.
  unfold WatchInv, watchAdvance. cbn [fst armedTimers watchDebounceTimer].
  destruct (armedTimers st) as [|t [|t' armed]]; [intros _; exact I | | contradiction].
  intros H. unfold stillArmed. cbn [List.filter]. destruct (negb (isDue now t)); [exact H | exact I].
Qed.

Lemma watchRun_WatchInv (events : list RawEvent) (st : WatchState) :
  WatchInv st -> WatchInv (fst (watchRun events st)).
Proof.
  revert st. induction events as [|e events IH]; intros st H; cbn [watchRun].
  - exact H.
  - pose proof (watchAdvance_WatchInv (raw_time e) st H) as H1.
    destruct (watchAdvance (raw_time e) st) as [st1 out1]. cbn [fst] in H1.
    set (st2 := match activeWatcher st1 with
                | Some folder => onFsEvent (raw_time e) folder (raw_type e) (raw_filename e) st1
                | None => st1
                end).
    assert (H2 : WatchInv st2).
    { unfold st2. destruct (activeWatcher st1); [apply onFsEvent_WatchInv|]; exact H1. }
    specialize (IH st2 H2). destruct (watchRun events st2) as [st3 out3]. exact IH.
Qed.

Lemma watchStep_WatchInv (o : WatchOp) (st : WatchState) :
  WatchInv st -> WatchInv (fst (watchStep o st)).
Proof.
  intros H. destruct o; cbn [watchStep fst].
  - apply WatchInv_no_timer. apply (startWatching_facts folderPath exists_ watchOk st H).
  - apply stopWatching_WatchInv, H.
  - apply watchRun_WatchInv, H.
  - apply watchAdvance_WatchInv, H.
Qed.

Lemma watchOps_WatchInv (ops : list WatchOp) (st : WatchState) :
  WatchInv st -> WatchInv (fst (watchOps ops st)).
Proof.
  revert st. induction ops as [|o ops IH]; intros st H; cbn [watchOps].
  - exact H.
  - pose proof (watchStep_WatchInv o st H) as H1.
    destruct (watchStep o st) as [st1 out1]. cbn [fst] in H1.
    specialize (IH st1 H1). destruct (watchOps ops st1) as [st2 out2]. exact IH.
Qed.

(** X1.  Whatever the sequence of watch requests, unwatch requests, raw
    events and timer ticks, at most one debounce timer is armed; and a watch
    request leaves no timer armed and makes the requested folder the one
    watched, if it exists and [fs.watch] accepted it, and none otherwise. *)
Theorem watcher_single_timer (ops : list WatchOp) (folder : string)
    (exists_ watchOk : bool) :
  length (armedTimers (fst (watchOps ops initialWatchState))) <= 1 /\
  armedTimers (startWatching folder exists_ watchOk (fst (watchOps ops initialWatchState)))
    = [] /\
  activeWatcher (startWatching folder exists_ watchOk (fst (watchOps ops initialWatchState)))
    = (if exists_ && watchOk then Some folder else None).
Proof.
  assert (H : WatchInv (fst (watchOps ops initialWatchState)))
    by (apply watchOps_WatchInv; exact I).
  destruct (startWatching_facts folder exists_ watchOk _ H) as (Ha & Haw & _).
  split; [|split; assumption].
  unfold WatchInv in H.
  destruct (armedTimers (fst (watchOps ops initialWatchState))) as [|t [|t' armed]];
    cbn [length]; [lia | lia | contradiction].
Qed.

Lemma watchRun_inactive (events : list RawEvent) (st : WatchState) :
  activeWatcher st = None -> armedTimers st = [] ->
  snd (watchRun events st) = [] /\
  activeWatcher (fst (watchRun events st)) = None /\
  armedTimers (fst (watchRun events st)) = [].
Proof.
  revert st. induction events as [|e events IH]; intros st Haw Ha; cbn [watchRun].
  - repeat split; assumption.
  - unfold watchAdvance. rewrite Ha. cbn [dueTimers stillArmed List.filter map activeWatcher].
    rewrite Haw.
    specialize (IH (mkWatchState None (watchedPath st) (watchDebounceTimer st) []
                      (nextTimerHandle st)) eq_refl eq_refl).
    destruct (watchRun events _) as [st3 out3]. cbn [fst snd] in *.
    destruct IH as (Hout & Haw3 & Ha3). rewrite Hout. repeat split; assumption.
Qed.

(** X2.  After [stopWatching] nothing is ever broadcast by the watcher: the
    notification that was waiting for its 300 ms is cancelled, and raw events
    and the passing of time produce none. *)
Theorem stopWatching_cancels (st : WatchState) (events : list RawEvent) (horizon : nat) :
  WatchInv st ->
  snd (watchSession events horizon (stopWatching st)) = [] /\
  armedTimers (stopWatching st) = [] /\
  activeWatcher (stopWatching st) = None.
Proof.
  intros Hinv. destruct (stopWatching_clean st Hinv) as (Ha & _ & Haw).
  split; [|split; assumption].
  unfold watchSession.
  destruct (watchRun_inactive events (stopWatching st) Haw Ha) as (Hout & _ & Ha').
  destruct (watchRun events (stopWatching st)) as [st1 out1]. cbn [fst snd] in *.
  unfold watchAdvance. rewrite Ha', Hout. reflexivity.
Qed.

Lemma stopWatching_cancels_witness :
  let pendingState :=
    fst (watchRun [mkRaw 10 "change" "a.txt"]
           (startWatching "/w" true true initialWatchState)) in
  length (armedTimers pendingState) = 1 /\
  snd (watchSession [mkRaw 50 "change" "a.txt"] 1000 (stopWatching pendingState)) = [].
Proof.
  cbn zeta. split; [reflexivity|].
  refine (proj1 (stopWatching_cancels
                   (fst (watchRun [mkRaw 10 "change" "a.txt"]
                           (startWatching "/w" true true initialWatchState)))
                   [mkRaw 50 "change" "a.txt"] 1000 _)).
  vm_compute. reflexivity.
Defined.

Lemma broadcastCount_fire (l : list (Timer DebouncedEvent)) :
  broadcastCount "file_changed" (map fireDebounce l) = length l.
Proof.
  unfold broadcastCount. induction l as [|t l IH]; [reflexivity|].
  cbn [map List.filter fireDebounce isBroadcastOf]. rewrite String.eqb_refl.
  cbn [length]. rewrite IH. reflexivity.
Qed.

Lemma watchRun_count (folder : string) (rest : list RawEvent) :
  forall (st : WatchState) (h : nat) (prev : RawEvent),
    activeWatcher st = Some folder ->
    watchDebounceTimer st = Some h ->
    armedTimers st =
      [mkTimer h (raw_time prev + debounceMs)
         (mkDebounced (raw_type prev) (raw_filename prev) folder)] ->
    arrivalOrder (raw_time prev) rest ->
    broadcastCount "file_changed" (snd (watchRun rest st)) = quietGaps (raw_time prev) rest /\
    exists h',
      armedTimers (fst (watchRun rest st)) =
        [mkTimer h' (raw_time (List.last rest prev) + debounceMs)
           (mkDebounced (raw_type (List.last rest prev))
              (raw_filename (List.last rest prev)) folder)].
Proof.
  induction rest as [|e rest IH]; intros st h prev Haw Hdt Harmed Horder.
  - cbn [watchRun fst snd List.last quietGaps]. split; [reflexivity|]. exists h. exact Harmed.
  - destruct Horder as (Hle & Horder).
    cbn [watchRun quietGaps]. unfold watchAdvance.
    rewrite Harmed. unfold dueTimers, stillArmed, isDue. cbn [List.filter deadline].
    destruct (Nat.leb_spec (raw_time prev + debounceMs) (raw_time e)) as [Hquiet|Hbusy];
      cbn [negb map activeWatcher]; rewrite Haw.
    + set (st1 := mkWatchState (Some folder) (watchedPath st) (watchDebounceTimer st) []
                    (nextTimerHandle st)).
      assert (Hinv1 : WatchInv st1) by exact I.
      destruct (onFsEvent_restarts (raw_time e) folder (raw_type e) (raw_filename e) st1 Hinv1)
        as (Harmed2 & Hdt2 & Haw2).
      specialize (IH (onFsEvent (raw_time e) folder (raw_type e) (raw_filename e) st1)
                    (nextTimerHandle st1) e Haw2 Hdt2 Harmed2 Horder).
      destruct (watchRun rest (onFsEvent (raw_time e) folder (raw_type e) (raw_filename e) st1))
        as [st3 out3].
      cbn [fst snd] in *. destruct IH as (Hcount & h' & Harmed3).
      rewrite last_cons_default. split; [|exists h'; exact Harmed3].
      change (?x :: out3) with ([x] ++ out3).
      rewrite broadcastCount_app, Hcount. reflexivity.
    + set (st1 := mkWatchState (Some folder) (watchedPath st) (watchDebounceTimer st)
                    [mkTimer h (raw_time prev + debounceMs)
                       (mkDebounced (raw_type prev) (raw_filename prev) folder)]
                    (nextTimerHandle st)).
      assert (Hinv1 : WatchInv st1) by exact Hdt.
      destruct (onFsEvent_restarts (raw_time e) folder (raw_type e) (raw_filename e) st1 Hinv1)
        as (Harmed2 & Hdt2 & Haw2).
      specialize (IH (onFsEvent (raw_time e) folder (raw_type e) (raw_filename e) st1)
                    (nextTimerHandle st1) e Haw2 Hdt2 Harmed2 Horder).
      destruct (watchRun rest (onFsEvent (raw_time e) folder (raw_type e) (raw_filename e) st1))
        as [st3 out3].
      cbn [fst snd app] in *. destruct IH as (Hcount & h' & Harmed3).
      rewrite last_cons_default. split; [|exists h'; exact Harmed3].
      rewrite Hcount. reflexivity.
Qed.

(** X3.  For raw events in arrival order, once 300 ms have passed since the
    last one, the watcher has broadcast [file_changed] once per group of
    events separated by 300 ms or more of silence: one notification, plus one
    for every event that arrived 300 ms or more after its predecessor. *)
Theorem watcher_notification_count
    (folder : string) (st0 : WatchState) (first : RawEvent) (rest : list RawEvent)
    (horizon : nat) :
  WatchInv st0 ->
  arrivalOrder (raw_time first) rest ->
  raw_time (List.last rest first) + 300 <= horizon ->
  broadcastCount "file_changed"
    (snd (watchSession (first :: rest) horizon (startWatching folder true true st0)))
  = 1 + quietGaps (raw_time first) rest.
Proof.
  intros Hinv Horder Hhorizon.
  destruct (startWatching_clean folder st0 Hinv) as (Harmed0 & Haw0 & _).
  set (st := startWatching folder true true st0) in *.
  unfold watchSession. cbn [watchRun]. unfold watchAdvance at 1.
  rewrite Harmed0. cbn [dueTimers stillArmed List.filter map activeWatcher]. rewrite Haw0.
  set (st1 := mkWatchState (Some folder) (watchedPath st) (watchDebounceTimer st) []
                (nextTimerHandle st)).
  assert (Hinv1 : WatchInv st1) by exact I.
  destruct (onFsEvent_restarts (raw_time first) folder (raw_type first)
              (raw_filename first) st1 Hinv1) as (Harmed2 & Hdt2 & Haw2).
  pose proof (watchRun_count folder rest
                (onFsEvent (raw_time first) folder (raw_type first) (raw_filename first) st1)
                (nextTimerHandle st1) first Haw2 Hdt2 Harmed2 Horder) as Hrun.
  destruct (watchRun rest
              (onFsEvent (raw_time first) folder (raw_type first) (raw_filename first) st1))
    as [st3 out3].
  cbn [fst snd] in Hrun. destruct Hrun as (Hcount & h' & Harmed3).
  unfold watchAdvance. rewrite Harmed3.
  unfold dueTimers, isDue. cbn [List.filter deadline snd app].
  unfold debounceMs in *.
  destruct (Nat.leb_spec (raw_time (List.last rest first) + 300) horizon); [|lia].
  rewrite broadcastCount_app, Hcount, broadcastCount_fire.
  cbn [length]. lia.
Qed.

Lemma watcher_notification_count_witness :
  broadcastCount "file_changed"
    (snd (watchSession
            [mkRaw 0 "change" "a"; mkRaw 100 "change" "a"; mkRaw 500 "change" "b";
             mkRaw 600 "change" "b"; mkRaw 900 "rename" "c"]
            2000 (startWatching "/w" true true initialWatchState)))
  = 3.
Proof.
  refine (watcher_notification_count "/w" initialWatchState (mkRaw 0 "change" "a")
            [mkRaw 100 "change" "a"; mkRaw 500 "change" "b";
             mkRaw 600 "change" "b"; mkRaw 900 "rename" "c"] 2000 _ _ _).
  - exact I.
  - cbn. lia.
  - cbn. lia.
Defined.

(** ** Path comparison *)

Lemma toLowerCase_app (a b : string) :
  Js.toLowerCase (a +:+ b) = Js.toLowerCase a +:+ Js.toLowerCase b.
Proof.
  induction a as [|c a IH]; [reflexivity|].
  rewrite append_cons. cbn [Js.toLowerCase]. rewrite append_cons, IH. reflexivity.
Qed.

Lemma pathEquals_refl (isWindows : bool) (p : string) : pathEquals isWindows p p = true.
Proof. unfold pathEquals. destruct isWindows; apply String.eqb_refl. Qed.

Lemma pathEquals_foldCase (isWindows : bool) (p q : string) :
  pathEquals isWindows p q = true <-> foldCase isWindows p = foldCase isWindows q.
Proof. unfold pathEquals, foldCase. destruct isWindows; apply String.eqb_eq. Qed.

(** X4.  [pathEquals] is an equivalence on path texts: equality of the
    texts, after lower-casing both on Windows; on other platforms two paths
    that differ in letter case are different. *)
Theorem pathEquals_equivalence (isWindows : bool) (p q r : string) :
  pathEquals isWindows p p = true /\
  pathEquals isWindows p q = pathEquals isWindows q p /\
  (pathEquals isWindows p q = true -> pathEquals isWindows q r = true ->
   pathEquals isWindows p r = true) /\
  (pathEquals true p q = true <-> Js.toLowerCase p = Js.toLowerCase q) /\
  (pathEquals false p q = true <-> p = q).
Proof.
  split; [apply pathEquals_refl|]. split; [|split; [|split]].
  - unfold pathEquals. destruct isWindows; apply String.eqb_sym.
  - rewrite !pathEquals_foldCase. congruence.
  - apply String.eqb_eq.
  - apply String.eqb_eq.
Qed.

Lemma pathEquals_equivalence_witness :
  pathEquals true "C:\Work\App" "c:\work\APP" = true.
Proof.
  apply (proj1 (proj2 (proj2 (pathEquals_equivalence true "C:\Work\App" "C:\WORK\app"
                                "c:\work\APP")))); reflexivity.
Defined.

(** X5.  [pathStartsWith] is a comparison of texts: it holds exactly when
    the path's text (lower-cased on Windows) begins with the prefix's text.
    So it holds for every path obtained by writing anything after the
    prefix, a separator or not: the workspace check built on it also accepts
    a sibling folder whose name begins with the workspace folder's name. *)
Theorem pathStartsWith_textual (isWindows : bool) (path prefix suffix : string) :
  (pathStartsWith isWindows path prefix = true <->
   exists rest, foldCase isWindows path = foldCase isWindows prefix +:+ rest) /\
  pathStartsWith isWindows (prefix +:+ suffix) prefix = true /\
  (pathEquals isWindows path prefix = true -> pathStartsWith isWindows path prefix = true).
Proof.
  assert (Hiff : forall a b, pathStartsWith isWindows a b = true <->
            exists rest, foldCase isWindows a = foldCase isWindows b +:+ rest).
  { intros a b. unfold pathStartsWith, foldCase, Js.startsWith.
    destruct isWindows; apply prefix_true_iff. }
  split; [apply Hiff|]. split.
  - apply Hiff. unfold foldCase. destruct isWindows.
    + exists (Js.toLowerCase suffix). apply toLowerCase_app.
    + exists suffix. reflexivity.
  - intros Heq. apply Hiff. apply pathEquals_foldCase in Heq.
    exists EmptyString. rewrite append_nil_r. exact Heq.
Qed.

Lemma pathStartsWith_textual_witness :
  pathStartsWith false "/home/u/app" "/home/u/app" = true /\
  pathStartsWith false "/home/u/app-private/key.txt" "/home/u/app" = true.
Proof.
  split.
  - apply (proj2 (proj2 (pathStartsWith_textual false "/home/u/app" "/home/u/app"
                           EmptyString))). reflexivity.
  - apply (proj1 (proj2 (pathStartsWith_textual false "/home/u/app" "/home/u/app"
                           "-private/key.txt"))).
Defined.

(** ** The polling loop over time *)

Section PollingMore.

Variable isWindows : bool.
Variable basename : string -> string.



Lemma logCount_app (o1 o2 : list Output) : logCount (o1 ++ o2) = logCount o1 + logCount o2.
Proof. unfold logCount. rewrite List.filter_app, length_app. reflexivity. Qed.

Lemma poll_failed_logs (d : Completion (option string)) (st : WorkspaceState) :
  pollFailed d ->
  logCount (snd (poll isWindows basename d st)) =
    if shouldLogFailure (S (consecutiveFailures st)) then 1 else 0.
Proof.
  intros Hd. destruct d as [o|m]; cbn [pollFailed] in Hd; cbn [poll].
  - rewrite Hd. cbn [negb snd]. destruct (shouldLogFailure _); reflexivity.
  - cbn [snd]. destruct (shouldLogFailure _); reflexivity.
Qed.

Lemma logsUpTo_succ (n : nat) :
  logsUpTo (S n) = logsUpTo n + if shouldLogFailure (S n) then 1 else 0.
Proof.
  unfold logsUpTo, shouldLogFailure.
  pose proof (Nat.div_mod_eq n 10) as Hn.
  pose proof (Nat.div_mod_eq (S n) 10) as Hs.
  pose proof (Nat.mod_upper_bound n 10 ltac:(lia)) as Bn.
  pose proof (Nat.mod_upper_bound (S n) 10 ltac:(lia)) as Bs.
  destruct (Nat.leb_spec (S n) 3) as [Hle|Hgt]; cbn [orb].
  - assert (H1 : S n / 10 = 0) by (apply Nat.div_small; lia).
    assert (H2 : n / 10 = 0) by (apply Nat.div_small; lia).
    rewrite H1, H2. lia.
  - destruct (Nat.eqb_spec (S n mod 10) 0) as [Hz|Hnz]; lia.
Qed.

Lemma polls_failed_logs (ds : list (Completion (option string))) (st : WorkspaceState) :
  Forall pollFailed ds ->
  logCount (snd (polls isWindows basename ds st)) + logsUpTo (consecutiveFailures st) =
    logsUpTo (length ds + consecutiveFailures st).
Proof.
  intros Hds. revert st. induction Hds as [|d ds Hd _ IH]; intros st; cbn [polls].
  - reflexivity.
  - pose proof (poll_failed_logs d st Hd) as Hlog.
    destruct (poll_failed isWindows basename d st Hd) as [Hst _].
    destruct (poll isWindows basename d st) as [st1 out1]. cbn [fst snd] in *.
    specialize (IH st1). destruct (polls isWindows basename ds st1) as [st2 out2].
    cbn [snd] in *. subst st1. cbn [consecutiveFailures] in IH.
    rewrite logCount_app, Hlog.
    rewrite logsUpTo_succ in IH.
    replace (length (d :: ds) + consecutiveFailures st)
      with (length ds + S (consecutiveFailures st)) by (cbn [length]; lia).
    lia.
Qed.

End PollingMore.

(** X6.  A detection that is repeated changes nothing and is silent: when
    the path inference reports the same path in the next cycle, [poll]
    broadcasts no [workspace_changed] and leaves the state as it is. *)
Theorem poll_repeated_detection (isWindows : bool) (basename : string -> string)
    (st : WorkspaceState) (p : string) :
  Js.truthy (Some p) = true ->
  let st1 := fst (poll isWindows basename (Returned (Some p)) st) in
  fst (poll isWindows basename (Returned (Some p)) st1) = st1 /\
  broadcastCount "workspace_changed"
    (snd (poll isWindows basename (Returned (Some p)) st1)) = 0.
Proof.
  intros Hp. cbn zeta. cbn [poll]. rewrite Hp. cbn [negb orEmpty].
  destruct (pathEquals isWindows (normalizeBackslashes p) (workspacePath st)) eqn:Heq;
    cbn [negb fst workspacePath].
  - rewrite Heq. cbn [negb fst snd]. split; reflexivity.
  - rewrite pathEquals_refl. cbn [negb fst snd]. split; reflexivity.
Qed.

Lemma poll_repeated_detection_witness :
  let st1 := fst (poll false (fun s => s) (Returned (Some "/home/u/demo"))
                    (mkWorkspaceState "/srv/bridge" None 4)) in
  fst (poll false (fun s => s) (Returned (Some "/home/u/demo")) st1) = st1 /\
  broadcastCount "workspace_changed"
    (snd (poll false (fun s => s) (Returned (Some "/home/u/demo")) st1)) = 0.
Proof.
  apply (poll_repeated_detection false (fun s => s)
           (mkWorkspaceState "/srv/bridge" None 4) "/home/u/demo").
  reflexivity.
Defined.



(** X8.  The failure log is thinned out: over [n] failing poll cycles in a
    row, starting from a count of zero, [poll] writes min(n, 3) + n div 10
    lines to the console - one for each of the first three failures and one
    for every tenth. *)
Theorem polls_failure_log_lines (isWindows : bool) (basename : string -> string)
    (ds : list (Completion (option string))) (st : WorkspaceState) :
  Forall pollFailed ds ->
  consecutiveFailures st = 0 ->
  logCount (snd (polls isWindows basename ds st)) = Nat.min (length ds) 3 + length ds / 10.
Proof.
  intros Hds H0. pose proof (polls_failed_logs isWindows basename ds st Hds) as H.
  rewrite H0 in H. unfold logsUpTo in H.
  change (Nat.min 0 3 + 0 / 10) with 0 in H. rewrite !Nat.add_0_r in H. exact H.
Qed.

Lemma polls_failure_log_lines_witness :
  logCount (snd (polls false (fun s => s) (repeat (Returned None) 25)
                   (mkWorkspaceState "/srv/bridge" None 0))) = 5.
Proof.
  apply (polls_failure_log_lines false (fun s => s) (repeat (Returned None) 25)
           (mkWorkspaceState "/srv/bridge" None 0)).
  - apply Forall_forall. intros d Hd.
    apply list_elem_of_In, repeat_spec in Hd. subst d. reflexivity.
  - reflexivity.
Defined.

(** ** The polling loop and the path inferencer together *)

Lemma normalizeBackslashes_id (s : string) :
  noDoubledBackslash s = true -> normalizeBackslashes s = s.
Proof.
  induction s as [|c s IH]; [reflexivity|].
  cbn [noDoubledBackslash normalizeBackslashes].
  destruct s as [|c' s']; [reflexivity|].
  intros H. apply andb_true_iff in H. destruct H as [Hpair Hrest].
  apply negb_true_iff in Hpair. rewrite Hpair. f_equal. apply IH, Hrest.
Qed.

Lemma noDoubledBackslash_word (w s : string) :
  noSep (isPathSep true) w = true ->
  noDoubledBackslash (w +:+ s) = noDoubledBackslash s.
Proof.
  induction w as [|c w IH]; intros Hw; [reflexivity|].
  cbn [noSep] in Hw. apply andb_true_iff in Hw. destruct Hw as [Hc Hw].
  apply negb_true_iff in Hc. unfold isPathSep in Hc. cbn [andb] in Hc.
  apply orb_false_iff in Hc. destruct Hc as [_ Hc].
  rewrite append_cons. cbn [noDoubledBackslash].
  rewrite <- (IH Hw). destruct (w +:+ s) as [|c' r]; [reflexivity|].
  rewrite Hc. reflexivity.
Qed.

Lemma noDoubledBackslash_join (segs : list string) :
  Forall (Segment true) segs -> noDoubledBackslash (Js.join BS segs) = true.
Proof.
  induction 1 as [|x segs [Hne Hx] Hall IH]; [reflexivity|].
  destruct segs as [|y r].
  - change (Js.join BS [x]) with x. rewrite <- (append_nil_r x).
    rewrite noDoubledBackslash_word by exact Hx. reflexivity.
  - rewrite join_cons_cons, noDoubledBackslash_word by exact Hx.
    unfold BS at 1. rewrite append_cons, append_empty_l.
    pose proof Hall as Hall'. apply Forall_cons_iff in Hall'. destruct Hall' as [[Hy Hny] _].
    pose proof (join_head (isPathSep true) BS y r Hy Hny) as Hhead.
    cbn [noDoubledBackslash]. destruct (Js.join BS (y :: r)) as [|c' rest] eqn:Hj;
      [reflexivity|].
    unfold isPathSep in Hhead. cbn [andb] in Hhead. apply orb_false_iff in Hhead.
    destruct Hhead as [_ Hc']. rewrite Hc', andb_false_r. cbn [negb andb]. exact IH.
Qed.

Lemma noDoubledBackslash_windows_path (segs : list string) :
  Forall (Segment true) segs -> noDoubledBackslash (pathOfSegments true segs) = true.
Proof.
  intros Hall. unfold pathOfSegments. destruct segs as [|drive rest]; [reflexivity|].
  apply Forall_cons_iff in Hall. destruct Hall as [[Hne Hd] Hrest].
  rewrite noDoubledBackslash_word by exact Hd.
  unfold BS at 1. rewrite append_cons, append_empty_l.
  pose proof (noDoubledBackslash_join rest Hrest) as Hj.
  cbn [noDoubledBackslash]. destruct rest as [|y r]; [reflexivity|].
  apply Forall_cons_iff in Hrest. destruct Hrest as [[Hy Hny] _].
  pose proof (join_head (isPathSep true) BS y r Hy Hny) as Hhead.
  destruct (Js.join BS (y :: r)) as [|c' rest'] eqn:Hjoin; [reflexivity|].
  unfold isPathSep in Hhead. cbn [andb] in Hhead. apply orb_false_iff in Hhead.
  destruct Hhead as [_ Hc']. rewrite Hc', andb_false_r. cbn [negb andb]. exact Hj.
Qed.

Lemma anchorIndex_bound (anchor : string) (parts : list string) (k i : nat) :
  anchorIndex anchor parts k = Some i -> k <= i < k + length parts.
Proof.
  revert k. induction parts as [|p parts IH]; intros k; cbn [anchorIndex]; [discriminate|].
  destruct (String.eqb _ _).
  - intros [= <-]. cbn [length]. lia.
  - intros H. apply IH in H. cbn [length]. lia.
Qed.

(** The workspace is always rebuilt from a leading part of the file path's
    segments. *)
Lemma workspaceOfFile_segments (projectName : option string) (filePath : string)
    (isWindows : bool) :
  (isWindows = true -> 2 <= length (pathParts isWindows filePath)) ->
  exists n,
    workspaceOfFile projectName filePath isWindows =
      pathOfSegments isWindows (take n (pathParts isWindows filePath)) /\
    (isWindows = true -> 1 <= n).
Proof.
  intros Hlen. unfold workspaceOfFile.
  destruct (if Js.truthy projectName
            then anchorIndex (orEmpty projectName) (pathParts isWindows filePath) 0
            else None) as [i|] eqn:Hfound.
  - assert (Hi : i < length (pathParts isWindows filePath)).
    { destruct (Js.truthy projectName); [|discriminate].
      apply anchorIndex_bound in Hfound. lia. }
    exists (S i). split; [apply workspaceAt_segments, Hi | intros _; lia].
  - exists (length (pathParts isWindows filePath) - 1).
    split; [apply workspaceFallback_segments, Hlen|].
    intros Hw. specialize (Hlen Hw). lia.
Qed.

(** X9.  On a Windows file path with a drive and at least one more segment,
    the workspace path that [getWorkspacePath] builds has no doubled
    backslash, so the rewriting that [poll] applies to a detected path
    leaves it as it is: [poll] records exactly the path that was inferred. *)
Theorem poll_keeps_windows_workspace (isWindows : bool) (basename : string -> string)
    (projectName : option string) (filePath : string) (st : WorkspaceState) :
  2 <= length (pathParts true filePath) ->
  let detected := workspaceOfFile projectName filePath true in
  normalizeBackslashes detected = detected /\
  lastValidWorkspacePath (fst (poll isWindows basename (Returned (Some detected)) st))
    = Some detected /\
  consecutiveFailures (fst (poll isWindows basename (Returned (Some detected)) st)) = 0.
Proof.
  intros Hlen. cbn zeta.
  destruct (workspaceOfFile_segments projectName filePath true (fun _ => Hlen))
    as (n & Heq & Hn).
  specialize (Hn eq_refl).
  assert (Hsegs : Forall (Segment true) (take n (pathParts true filePath)))
    by apply Forall_take, pathParts_segments.
  assert (Hnorm : normalizeBackslashes (workspaceOfFile projectName filePath true)
                  = workspaceOfFile projectName filePath true).
  { rewrite Heq. apply normalizeBackslashes_id, noDoubledBackslash_windows_path, Hsegs. }
  assert (Htruthy : Js.truthy (Some (workspaceOfFile projectName filePath true)) = true).
  { rewrite Heq. unfold pathOfSegments.
    destruct (take n (pathParts true filePath)) as [|drive rest] eqn:Ht.
    - apply (f_equal length) in Ht. rewrite length_take in Ht. cbn [length] in Ht. lia.
    - apply Forall_cons_iff in Hsegs. destruct Hsegs as [[Hne _] _].
      destruct drive; [contradiction | reflexivity]. }
  split; [exact Hnorm|].
  pose proof (poll_detected isWindows basename _ st Htruthy) as Hd. cbn zeta in Hd.
  rewrite Hnorm in Hd. destruct Hd as (Hc & Hl & _). split; assumption.
Qed.

Lemma poll_keeps_windows_workspace_witness :
  normalizeBackslashes (workspaceOfFile (Some "app") "D:\\work//App\src\\main.ts" true)
  = workspaceOfFile (Some "app") "D:\\work//App\src\\main.ts" true.
Proof.
  refine (proj1 (poll_keeps_windows_workspace false (fun s => s) (Some "app")
                   "D:\\work//App\src\\main.ts" (mkWorkspaceState "/srv" None 0) _)).
  vm_compute. lia.
Defined.

(** ** The message store, written and read *)

(** X10.  A message posted to [/api/broadcast] is never the one that is
    dropped: the store after the request ends with the new message, it is
    the old store followed by the new message with only the oldest entries
    cut off, and it has min(500, n + 1) entries. *)
Theorem broadcast_keeps_newest (msg : ChatMessage) (writeOk : bool) (st : Store) :
  (exists dropped kept,
      messages st = dropped ++ kept /\
      messages (storeStep (PostBroadcast msg writeOk) st) = kept ++ [msg] /\
      length dropped = length (messages st) + 1 - 500) /\
  length (messages (storeStep (PostBroadcast msg writeOk) st))
    = Nat.min 500 (length (messages st) + 1).
Proof.
  cbn [storeStep]. unfold saveMessages. cbn [messages]. rewrite length_app. cbn [length].
  unfold maxMessages.
  destruct (Nat.ltb_spec 500 (length (messages st) + 1)) as [Hlt|Hle].
  - unfold Js.sliceLast. rewrite length_app. cbn [length].
    rewrite drop_app_le by lia. split.
    + exists (take (length (messages st) + 1 - 500) (messages st)),
             (drop (length (messages st) + 1 - 500) (messages st)).
      split; [symmetry; apply take_drop|]. split; [reflexivity|].
      rewrite length_take. lia.
    + rewrite length_app, length_drop. cbn [length]. lia.
  - split.
    + exists [], (messages st). repeat split. cbn [length]. lia.
    + rewrite length_app. cbn [length]. lia.
Qed.

Lemma sliceFromZ_negative {A} (n : nat) (xs : list A) :
  0 < n -> sliceFromZ (- Z.of_nat n) xs = Js.sliceLast n xs.
Proof.
  intros Hn. unfold sliceFromZ, Js.sliceLast.
  destruct (Z.ltb_spec (- Z.of_nat n) 0) as [_|H]; [|lia].
  f_equal. lia.
Qed.

(** X11.  [GET /api/messages] answers with the total number of stored
    messages and the most recent [limit] of them; without a usable limit
    (absent, not a number, or 0) the most recent 100.  A negative limit does
    not limit: it drops that many of the oldest messages and returns all the
    others. *)
Theorem getMessages_limit (parsed : option Z) (st : Store) :
  snd (getMessages parsed st) = length (messages st) /\
  (forall n, parsed = Some (Z.of_nat n) -> 0 < n ->
     fst (getMessages parsed st) = Js.sliceLast n (messages st) /\
     length (fst (getMessages parsed st)) = Nat.min n (length (messages st))) /\
  (parsed = None \/ parsed = Some 0%Z ->
     fst (getMessages parsed st) = Js.sliceLast 100 (messages st)) /\
  (forall n, parsed = Some (- Z.of_nat n)%Z -> 0 < n ->
     fst (getMessages parsed st) = drop n (messages st)).
Proof.
  split; [reflexivity|]. split; [|split].
  - intros n -> Hn. unfold getMessages. cbn [fst messagesLimit].
    destruct (Z.eqb_spec (Z.of_nat n) 0) as [H0|_]; [lia|].
    rewrite sliceFromZ_negative by exact Hn. split; [reflexivity|].
    unfold Js.sliceLast. rewrite length_drop. lia.
  - intros [-> | ->]; unfold getMessages; cbn [fst messagesLimit Z.eqb];
      apply (sliceFromZ_negative 100); lia.
  - intros n -> Hn. unfold getMessages. cbn [fst messagesLimit].
    destruct (Z.eqb_spec (- Z.of_nat n) 0) as [H0|_]; [lia|].
    unfold sliceFromZ. rewrite Z.opp_involutive.
    destruct (Z.ltb_spec (Z.of_nat n) 0) as [H|_]; [lia|].
    rewrite Nat2Z.id. reflexivity.
Qed.

Lemma getMessages_limit_witness :
  let st := mkStore [mkChatMessage "agent" "one" None "t1";
                     mkChatMessage "agent" "two" None "t2";
                     mkChatMessage "agent" "three" None "t3"] None in
  fst (getMessages (Some 2%Z) st) = Js.sliceLast 2 (messages st) /\
  fst (getMessages (Some (-2)%Z) st) = drop 2 (messages st).
Proof.
  intros st. split.
  - apply (proj1 (proj2 (getMessages_limit (Some 2%Z) st)) 2); [reflexivity | lia].
  - apply (proj2 (proj2 (proj2 (getMessages_limit (Some (-2)%Z) st))) 2); [reflexivity | lia].
Defined.

(** ** Authentication *)

Lemma substringFrom_app (p t : string) :
  Js.substringFrom (String.length p) (p +:+ t) = t.
Proof. induction p as [|c p IH]; [destruct t; reflexivity|]. rewrite append_cons. exact IH. Qed.

Lemma removeFirst_prefix (pat t : string) : removeFirst pat (pat +:+ t) = t.
Proof.
  assert (Hp : String.prefix pat (pat +:+ t) = true) by (apply prefix_true_iff; eauto).
  destruct (pat +:+ t) as [|c r] eqn:Heq.
  - cbn [removeFirst]. rewrite Hp. rewrite <- Heq. apply substringFrom_app.
  - cbn [removeFirst]. rewrite Hp. rewrite <- Heq. apply substringFrom_app.
Qed.

Lemma bearerToken_header (token : string) :
  bearerToken (Some ("Bearer " +:+ token)) = Some token.
Proof. unfold bearerToken. cbn [fmap option_fmap option_map]. rewrite removeFirst_prefix. reflexivity. Qed.

(** X12.  The middleware on [/api] lets a request through exactly when its
    path begins with "/auth/", or authentication is off, or its
    authorization header yields a token that is a valid session.  A request
    without header, when authentication is on, is refused. *)
Theorem authMiddleware_passes (path : string) (authorization : option string)
    (st : AuthState) :
  (authMiddleware path authorization st = true <->
   Js.startsWith path "/auth/" = true \/ authEnabled st = false \/
   exists token, bearerToken authorization = Some token /\ token ∈ validSessions st) /\
  (Js.startsWith path "/auth/" = false -> authEnabled st = true ->
   authMiddleware path None st = false).
Proof.
  unfold authMiddleware, validateSession. split.
  - destruct (Js.startsWith path "/auth/"); [split; [auto | reflexivity]|].
    destruct (authEnabled st); cbn [negb]; [|split; [auto | reflexivity]].
    destruct (bearerToken authorization) as [t|].
    + rewrite bool_decide_eq_true. split.
      * intros Ht. right. right. exists t. split; [reflexivity | exact Ht].
      * intros [H1 | [H2 | (t' & Heq & Ht)]];
          [discriminate | discriminate | injection Heq as <-; exact Ht].
    + split; [discriminate|]. intros [H | [H | (t' & H & _)]]; discriminate.
  - intros -> ->. reflexivity.
Qed.

Lemma authMiddleware_passes_witness :
  authMiddleware "/files" None (mkAuthState true (Some "h") {["t1"]}) = false.
Proof.
  apply (proj2 (authMiddleware_passes "/files" None (mkAuthState true (Some "h") {["t1"]})));
    reflexivity.
Defined.

Section AuthFacts.

Variable hashPin : string -> string.

Lemma login_success (pin token : string) (st : AuthState) :
  authEnabled st = true -> authPinHash st = Some (hashPin pin) -> pin <> EmptyString ->
  login hashPin (Some pin) token st =
    (LoginOk token,
     mkAuthState true (Some (hashPin pin)) ({[token]} ∪ validSessions st)).
Proof.
  intros He Hh Hne. unfold login. rewrite He, Hh. cbn [negb orEmpty].
  assert (Ht : Js.truthy (Some pin) = true) by (destruct pin; [contradiction | reflexivity]).
  rewrite Ht. cbn [negb]. rewrite bool_decide_eq_true_2 by reflexivity. reflexivity.
Qed.

End AuthFacts.

(** X13.  With authentication on: a login with the configured PIN returns
    the fresh token and makes it a valid session, so that a request that
    carries "Bearer " and the token passes the middleware; after a logout
    with that header the same request is refused; a login with a PIN of
    another hash is refused and changes nothing. *)
Theorem session_lifecycle (hashPin : string -> string) (pin token path : string)
    (st : AuthState) :
  authEnabled st = true ->
  authPinHash st = Some (hashPin pin) ->
  pin <> EmptyString -> token <> EmptyString ->
  Js.startsWith path "/auth/" = false ->
  let header := Some ("Bearer " +:+ token) in
  let st1 := snd (login hashPin (Some pin) token st) in
  fst (login hashPin (Some pin) token st) = LoginOk token /\
  authMiddleware path header st1 = true /\
  authMiddleware path header (logout header st1) = false /\
  (forall other, hashPin other <> hashPin pin ->
     login hashPin (Some other) token st =
       (if Js.truthy (Some other) then LoginInvalidPin else LoginPinRequired, st)).
Proof.
  intros He Hh Hpin Htok Hpath. cbn zeta.
  rewrite (login_success hashPin pin token st He Hh Hpin). cbn [fst snd].
  split; [reflexivity|]. split; [|split].
  - apply authMiddleware_passes. right. right. exists token.
    split; [apply bearerToken_header | apply elem_of_union; left; apply elem_of_singleton; reflexivity].
  - unfold logout. rewrite bearerToken_header.
    assert (Ht : Js.truthy (Some token) = true) by (destruct token; [contradiction | reflexivity]).
    rewrite Ht. cbn [orEmpty authEnabled authPinHash validSessions].
    unfold authMiddleware, validateSession. rewrite Hpath, bearerToken_header.
    cbn [authEnabled negb validSessions]. apply bool_decide_eq_false.
    rewrite elem_of_difference, elem_of_singleton. intros [_ Hne]. apply Hne. reflexivity.
  - intros other Hother. unfold login. rewrite He, Hh. cbn [negb].
    destruct (Js.truthy (Some other)); cbn [negb]; [|reflexivity].
    rewrite bool_decide_eq_false_2; [reflexivity|]. cbn [orEmpty]. congruence.
Qed.

Lemma session_lifecycle_witness :
  let st := mkAuthState true (Some "h(1234)") ∅ in
  let header := Some "Bearer 9f3a" in
  authMiddleware "/files" header (snd (login (fun p => "h(" +:+ p +:+ ")") (Some "1234") "9f3a" st))
    = true /\
  authMiddleware "/files" header
    (logout header (snd (login (fun p => "h(" +:+ p +:+ ")") (Some "1234") "9f3a" st))) = false.
Proof.
  cbn zeta.
  destruct (session_lifecycle (fun p => "h(" +:+ p +:+ ")") "1234" "9f3a" "/files"
              (mkAuthState true (Some "h(1234)") ∅))
    as (_ & Hin & Hout & _); try reflexivity; try discriminate.
  split; [exact Hin | exact Hout].
Defined.

Lemma acceptablePin_spec (pin : string) :
  acceptablePin pin = true ->
  4 <= String.length pin <= 6 /\ allDigits pin = true.
Proof.
  unfold acceptablePin, digitsOnly. rewrite !andb_true_iff, !Nat.leb_le.
  intros [[H4 H6] Hd]. split; [lia|]. destruct pin; [discriminate | exact Hd].
Qed.

(** X14.  [promptForAuth] turns authentication on only with a PIN of four
    to six decimal digits, whose hash it stores.  A [MOBILE_PIN] that is not
    such a PIN does not stop the server: authentication stays off, and the
    middleware then lets every request through. *)
Theorem promptForAuth_pin (hashPin : string -> string) (setup : AuthSetup) :
  (authEnabled (promptForAuth hashPin setup initialAuthState) = true ->
   exists pin,
     (envMobilePin setup = Some pin \/ answerPin setup = pin) /\
     4 <= String.length pin <= 6 /\ allDigits pin = true /\
     authPinHash (promptForAuth hashPin setup initialAuthState) = Some (hashPin pin)) /\
  (forall pin path authorization,
     envMobilePin setup = Some pin -> pin <> EmptyString -> acceptablePin pin = false ->
     promptForAuth hashPin setup initialAuthState = initialAuthState /\
     authMiddleware path authorization (promptForAuth hashPin setup initialAuthState) = true).
Proof.
  split.
  - unfold promptForAuth. destruct (Js.truthy (envMobilePin setup)) eqn:Henv.
    + destruct (envMobilePin setup) as [pin|] eqn:Hpin; [|discriminate]. cbn [orEmpty].
      destruct (acceptablePin pin) eqn:Hacc; [|discriminate].
      intros _. exists pin. destruct (acceptablePin_spec pin Hacc) as [Hlen Hd].
      repeat split; try assumption; try lia. left. reflexivity.
    + destruct (stdinIsTTY setup); cbn [negb]; [|discriminate].
      destruct (String.eqb _ _); [|discriminate].
      destruct (acceptablePin (answerPin setup)) eqn:Hacc; [|discriminate].
      intros _. exists (answerPin setup).
      destruct (acceptablePin_spec _ Hacc) as [Hlen Hd].
      repeat split; try assumption; try lia. right. reflexivity.
  - intros pin path authorization Henv Hne Hacc.
    assert (Hst : promptForAuth hashPin setup initialAuthState = initialAuthState).
    { unfold promptForAuth. rewrite Henv.
      assert (Ht : Js.truthy (Some pin) = true) by (destruct pin; [contradiction | reflexivity]).
      rewrite Ht. cbn [orEmpty]. rewrite Hacc. reflexivity. }
    split; [exact Hst|]. rewrite Hst. unfold authMiddleware.
    destruct (Js.startsWith path "/auth/"); reflexivity.
Qed.

Lemma promptForAuth_pin_witness :
  authMiddleware "/files/save" None
    (promptForAuth (fun p => p) (mkAuthSetup (Some "12ab") false EmptyString EmptyString)
       initialAuthState) = true.
Proof.
  apply (proj2 (promptForAuth_pin (fun p => p)
                  (mkAuthSetup (Some "12ab") false EmptyString EmptyString))
           "12ab" "/files/save" None); [reflexivity | discriminate | reflexivity].
Defined.

(** ** Replies and timers racing *)

Lemma call_fresh (method params : string) (c : Conn) :
  CoreInv c ->
  fst (call method params c) = messageId c /\
  1 <= messageId c /\
  pending (snd (call method params c)) !! messageId c = Some (mkResolver (messageId c)) /\
  outcomesOf (messageId c) (snd (call method params c)) = [].
Proof.
  intros Hcore. split; [reflexivity|]. split; [apply (ci_pos c Hcore)|]. split.
  - unfold call. cbn [snd pending]. apply lookup_insert_eq.
  - rewrite (outcomesOf_settled _ c) by reflexivity.
    pose proof (ci_outcomes c Hcore (messageId c)) as Hlen. unfold expectedOutcomes in Hlen.
    destruct (pending c !! messageId c) as [r|] eqn:Hr.
    + apply (ci_pending c Hcore) in Hr. lia.
    + destruct (Nat.ltb_spec (messageId c) (messageId c)); [lia|].
      rewrite andb_false_r in Hlen.
      destruct (outcomesOf (messageId c) c); [reflexivity | discriminate].
Qed.

Lemma onMessage_reply_unmatched (id : nat) (error : option string) (result : string)
    (c : Conn) :
  pending c !! id = None -> onMessage (reply id error result) c = c.
Proof.
  intros Hnone. unfold onMessage, matchedResolver, reply. cbn [m_id m_method]. rewrite Hnone.
  destruct (id =? 0)%nat; destruct (tracksContexts (op c)); reflexivity.
Qed.

Lemma onMessage_reply_pending (id : nat) (error : option string) (result : string)
    (c : Conn) :
  1 <= id -> pending c !! id = Some (mkResolver id) ->
  pending (onMessage (reply id error result) c) !! id = None /\
  outcomesOf id (onMessage (reply id error result) c) =
    outcomesOf id c ++ [match error with
                        | Some message => RejectedError message
                        | None => Resolved result
                        end].
Proof.
  intros Hid Hr. unfold onMessage, matchedResolver, reply. cbn [m_id m_error m_result].
  rewrite Hr. destruct (Nat.eqb_spec id 0) as [->|_]; [lia|].
  cbn [pending promiseOf]. split; [apply lookup_delete_eq|].
  erewrite outcomesOf_snoc by reflexivity. rewrite Nat.eqb_refl.
  destruct error; reflexivity.
Qed.

Lemma elapse_not_pending (d id : nat) (c : Conn) :
  pending c !! id = None ->
  pending (elapse d c) !! id = None /\ outcomesOf id (elapse d c) = outcomesOf id c.
Proof.
  intros Hnone. rewrite elapse_unfold.
  apply (timeoutsOf_not_pending _ id
           (mkConn (op c) (messageId c) (pending c) (contexts c) (sent c) (settled c)
              (stillArmed (clock c + d) (timers c)) (nextHandle c) (clock c + d)
              (wsFailed c) (wsClosed c))).
  exact Hnone.
Qed.

(** X15.  The reply and the timeout of a call race, and the first to
    arrive decides alone.  A reply that arrives after the delay has passed
    changes nothing: the call stays rejected with "Timeout".  A reply that
    arrives first settles the call, and the timer that fires later changes
    nothing: the call keeps the outcome the reply gave it. *)
Theorem reply_timeout_race (o : Operation) (now : nat) (es : list Event)
    (method params : string) (ms d : nat) (error : option string) (result : string) :
  timeoutMs o = Some ms ->
  let c := run es (connect o now) in
  let id := fst (call method params c) in
  let c1 := snd (call method params c) in
  let answered := onMessage (reply id error result) c1 in
  let outcome := match error with
                 | Some message => RejectedError message
                 | None => Resolved result
                 end in
  (ms <= d ->
     onMessage (reply id error result) (elapse d c1) = elapse d c1 /\
     outcomesOf id (elapse d c1) = [RejectedTimeout]) /\
  outcomesOf id answered = [outcome] /\
  outcomesOf id (elapse d answered) = [outcome] /\
  pending (elapse d answered) !! id = None.
Proof.
  intros Hms. cbn zeta.
  destruct (reachable_invariants o now es) as (Hcore & Htim & Hop & _).
  set (c := run es (connect o now)) in *.
  rewrite <- Hop in Hms.
  destruct (call_fresh method params c Hcore) as (Hid & Hpos & Hpend & Hnil).
  rewrite Hid.
  destruct (onMessage_reply_pending (messageId c) error result _ Hpos Hpend) as [Hp Ho].
  rewrite Hnil in Ho. cbn [app] in Ho.
  destruct (elapse_not_pending d (messageId c) _ Hp) as [Hp' Ho'].
  split; [|split; [exact Ho | split; [rewrite Ho'; exact Ho | exact Hp']]].
  intros Hd.
  destruct (call_then_elapse c method params ms d Hcore Htim Hms) as (_ & Hfire & _).
  cbn zeta in Hfire. rewrite Hid in Hfire. destruct (Hfire Hd) as [Hgone Hout].
  split; [apply onMessage_reply_unmatched, Hgone | exact Hout].
Qed.

Lemma reply_timeout_race_witness :
  let c1 := snd (call "Runtime.evaluate" "{}" (run [] (connect SetModel 0))) in
  onMessage (reply 1 None "late") (elapse 5000 c1) = elapse 5000 c1 /\
  outcomesOf 1 (elapse 5000 c1) = [RejectedTimeout].
Proof.
  cbn zeta.
  apply (proj1 (reply_timeout_race SetModel 0 [] "Runtime.evaluate" "{}" 5000 5000
                  None "late" eq_refl)).
  lia.
Defined.

(** ** The setters across execution contexts *)







(** ** The approval responder *)






(** X18.  [POST /api/approvals/respond] answers 400 without calling the
    responder for every action other than "approve" and "reject"; otherwise
    it broadcasts [approval_responded] once when the responder reports
    success and nothing when it reports failure or throws. *)
Theorem postApprovalsRespond_guard (action : option string)
    (cdp cdp' : string -> Completion ApprovalResult) :
  (action <> Some "approve" -> action <> Some "reject" ->
   postApprovalsRespond action cdp = (ApprovalBadRequest, []) /\
   postApprovalsRespond action cdp = postApprovalsRespond action cdp') /\
  (forall a result,
     action = Some a -> (a = "approve" \/ a = "reject") -> cdp a = Returned result ->
     postApprovalsRespond action cdp =
       (ApprovalJson result,
        if a_success result
        then [mkHubEvent "approval_responded" [("action", orEmpty (a_action result))]]
        else [])) /\
  (forall a message,
     action = Some a -> (a = "approve" \/ a = "reject") -> cdp a = Thrown message ->
     postApprovalsRespond action cdp = (ApprovalServerError message, [])).
Proof.
  assert (Hbad : forall f, action <> Some "approve" -> action <> Some "reject" ->
                           postApprovalsRespond action f = (ApprovalBadRequest, [])).
  { intros f Ha Hr. unfold postApprovalsRespond.
    destruct action as [a|]; [|reflexivity]. cbn [orEmpty existsb].
    destruct (String.eqb_spec a "approve") as [->|_]; [contradiction Ha; reflexivity|].
    destruct (String.eqb_spec a "reject") as [->|_]; [contradiction Hr; reflexivity|].
    cbn [orb negb]. rewrite orb_true_r. reflexivity. }
  split; [|split].
  - intros Ha Hr. rewrite (Hbad cdp Ha Hr), (Hbad cdp' Ha Hr). split; reflexivity.
  - intros a result -> Hcases Hres. unfold postApprovalsRespond. cbn [orEmpty].
    rewrite Hres. destruct Hcases as [-> | ->]; reflexivity.
  - intros a message -> Hcases Hres. unfold postApprovalsRespond. cbn [orEmpty].
    rewrite Hres. destruct Hcases as [-> | ->]; reflexivity.
Qed.

Lemma postApprovalsRespond_guard_witness :
  postApprovalsRespond (Some "Approve")
    (fun a => Returned (mkApprovalResult true true (Some "rejected") (Some "Cancel") None))
  = (ApprovalBadRequest, []).
Proof.
  apply (proj1 (postApprovalsRespond_guard (Some "Approve")
                  (fun a => Returned (mkApprovalResult true true (Some "rejected")
                                        (Some "Cancel") None))
                  (fun a => Thrown "unreachable"))); discriminate.
Defined.

(** ** What the reader can answer *)

Lemma js_find_holds {A} (p : A -> bool) (xs : list A) (x : A) :
  js_find p xs = Some x -> p x = true.
Proof. intros H. apply js_find_some in H. destruct H as (_ & _ & _ & _ & Hx). exact Hx. Qed.

Lemma readerScript_fields (els : list Elem) :
  (forall m, model (readerScript els) = Some m ->
             admissibleText m = true /\ looksLikeModel m = true) /\
  (forall d, mode (readerScript els) = Some d ->
             admissibleText d = true /\ looksLikeMode d = true).
Proof.
  rewrite readerScript_first. cbn [model mode]. unfold firstModelText, firstModeText.
  split; intros x Hx; apply js_find_holds in Hx; apply andb_true_iff in Hx; exact Hx.
Qed.

Lemma readContexts_fields (ctxs : list (option (list Elem))) :
  readContexts ctxs = defaultModelAndMode \/
  exists els, readContexts ctxs = readerScript els /\
              Js.truthy (model (readerScript els)) = true.
Proof.
  induction ctxs as [|ctx ctxs IH]; cbn [readContexts]; [left; reflexivity|].
  destruct ctx as [els|]; [|exact IH].
  destruct (Js.truthy (model (readerScript els))) eqn:Ht; [|exact IH].
  right. exists els. split; [reflexivity | exact Ht].
Qed.

Lemma getModelAndMode_fields (s : Session) :
  (model (getModelAndMode s) = Some "Unknown" \/
   exists m, model (getModelAndMode s) = Some m /\
             admissibleText m = true /\ looksLikeModel m = true) /\
  (mode (getModelAndMode s) = None \/
   exists d, mode (getModelAndMode s) = Some d /\ looksLikeMode d = true).
Proof.
  assert (Hdefault :
    (model defaultModelAndMode = Some "Unknown" \/
     exists m, model defaultModelAndMode = Some m /\
               admissibleText m = true /\ looksLikeModel m = true) /\
    (mode defaultModelAndMode = None \/
     exists d, mode defaultModelAndMode = Some d /\ looksLikeMode d = true)).
  { split; [left; reflexivity|]. right. exists "Planning". split; reflexivity. }
  destruct s as [|message|ctxs]; cbn [getModelAndMode]; try exact Hdefault.
  destruct (readContexts_fields ctxs) as [-> | (els & -> & Ht)]; [exact Hdefault|].
  destruct (readerScript_fields els) as [Hm Hd]. split.
  - right. destruct (model (readerScript els)) as [m|] eqn:Hmodel; [|discriminate].
    exists m. split; [reflexivity | apply Hm; reflexivity].
  - destruct (mode (readerScript els)) as [d|] eqn:Hmode; [|left; reflexivity].
    right. exists d. split; [reflexivity | apply Hd; reflexivity].
Qed.

(** X19.  [GET /api/models] always answers with the same seven model
    names, whether or not the IDE could be read; its [currentModel] is
    "Unknown" or a text of 4 to 50 characters that matches the model
    pattern, and its [currentMode] is "Unknown" or a text that is "planning"
    or "fast" up to letter case.  Neither is ever empty. *)
Theorem getApiModels_answer (t1 t2 : option Target) (s1 s2 : Session) :
  let answer := getApiModels (readModelAndMode t1 s1) (readModelAndMode t2 s2) in
  ma_models answer = knownModels /\
  (ma_currentModel answer = "Unknown" \/
   (admissibleText (ma_currentModel answer) = true /\
    looksLikeModel (ma_currentModel answer) = true)) /\
  (ma_currentMode answer = "Unknown" \/ looksLikeMode (ma_currentMode answer) = true) /\
  ma_currentModel answer <> EmptyString /\
  ma_currentMode answer <> EmptyString.
Proof.
  cbn zeta.
  assert (Hmodels : forall r, am_models (getAvailableModels r) = knownModels)
    by (intros [v|m]; reflexivity).
  assert (Hcurrent : forall t s,
            am_current (getAvailableModels (readModelAndMode t s)) = "Unknown" \/
            (admissibleText (am_current (getAvailableModels (readModelAndMode t s))) = true /\
             looksLikeModel (am_current (getAvailableModels (readModelAndMode t s))) = true)).
  { intros t s. destruct t as [t|]; [|left; reflexivity].
    cbn [readModelAndMode getAvailableModels am_current].
    destruct (getModelAndMode_fields s) as [[Hm | (m & Hm & Hadm & Hlooks)] _]; rewrite Hm.
    - left. reflexivity.
    - right. destruct m; [discriminate Hadm|]. cbn [Js.truthy orEmpty]. split; assumption. }
  assert (Hnonempty : forall x, admissibleText x = true -> x <> EmptyString)
    by (intros x Hx ->; discriminate Hx).
  assert (Hmode_nonempty : forall x, looksLikeMode x = true -> x <> EmptyString)
    by (intros x Hx ->; discriminate Hx).
  destruct t2 as [t2|]; cbn [readModelAndMode getApiModels];
    [|repeat split; try (left; reflexivity); discriminate].
  cbn [ma_models ma_currentModel ma_currentMode].
  split; [apply Hmodels|].
  assert (Hmodel :
    (if Js.truthy (model (getModelAndMode s2)) then orEmpty (model (getModelAndMode s2))
     else Js.orElse (am_current (getAvailableModels (readModelAndMode t1 s1))) "Unknown")
    = "Unknown" \/
    (admissibleText
       (if Js.truthy (model (getModelAndMode s2)) then orEmpty (model (getModelAndMode s2))
        else Js.orElse (am_current (getAvailableModels (readModelAndMode t1 s1))) "Unknown")
     = true /\
     looksLikeModel
       (if Js.truthy (model (getModelAndMode s2)) then orEmpty (model (getModelAndMode s2))
        else Js.orElse (am_current (getAvailableModels (readModelAndMode t1 s1))) "Unknown")
     = true)).
  { destruct (getModelAndMode_fields s2) as [[Hm | (m & Hm & Hadm & Hlooks)] _]; rewrite Hm.
    - left. reflexivity.
    - right. destruct m; [discriminate Hadm|]. cbn [Js.truthy orEmpty]. split; assumption. }
  assert (Hmode :
    apiCurrentMode (getModelAndMode s2) = "Unknown" \/
    looksLikeMode (apiCurrentMode (getModelAndMode s2)) = true).
  { unfold apiCurrentMode.
    destruct (getModelAndMode_fields s2) as [_ [Hd | (d & Hd & Hlooks)]]; rewrite Hd.
    - left. reflexivity.
    - destruct d; [discriminate Hlooks|]. right. exact Hlooks. }
  split; [exact Hmodel|]. split; [exact Hmode|]. split.
  - destruct Hmodel as [-> | [Hadm _]]; [discriminate | apply Hnonempty, Hadm].
  - destruct Hmode as [-> | Hlooks]; [discriminate | apply Hmode_nonempty, Hlooks].
Qed.

(** ** The project name in the window title *)

Lemma beforeDash_app (name rest : string) :
  noDash name = true ->
  beforeDash (name +:+ "-" +:+ rest) = (name, Some rest).
Proof.
  unfold noDash. induction name as [|c name IH]; intros Hn.
  - reflexivity.
  - cbn [noSep] in Hn. apply andb_true_iff in Hn. destruct Hn as [Hc Hn].
    apply negb_true_iff in Hc. rewrite append_cons. cbn [beforeDash].
    rewrite Hc, (IH Hn). reflexivity.
Qed.

Lemma beforeDash_group (s : string) : noDash (fst (beforeDash s)) = true.
Proof.
  unfold noDash. induction s as [|c s IH]; [reflexivity|].
  cbn [beforeDash]. destruct (Ascii.eqb c "-") eqn:Hc; [reflexivity|].
  destruct (beforeDash s) as [g r]. cbn [fst noSep] in *. rewrite Hc, IH. reflexivity.
Qed.

Lemma beforeDash_no_dash (s : string) : noDash s = true -> snd (beforeDash s) = None.
Proof.
  unfold noDash. induction s as [|c s IH]; [reflexivity|].
  cbn [noSep beforeDash]. intros H. apply andb_true_iff in H. destruct H as [Hc Hs].
  apply negb_true_iff in Hc. rewrite Hc. specialize (IH Hs).
  destruct (beforeDash s) as [g r]. exact IH.
Qed.

Lemma trimStart_noSep (sep : ascii -> bool) (s : string) :
  noSep sep s = true -> noSep sep (Js.trimStart s) = true.
Proof.
  induction s as [|c s IH]; [reflexivity|]. cbn [Js.trimStart].
  intros H. destruct (Js.isSpace c); [|exact H].
  cbn [noSep] in H. apply andb_true_iff in H. apply IH, H.
Qed.

Lemma trimEnd_noSep (sep : ascii -> bool) (s : string) :
  noSep sep s = true -> noSep sep (Js.trimEnd s) = true.
Proof.
  induction s as [|c s IH]; [reflexivity|]. cbn [noSep Js.trimEnd].
  intros H. apply andb_true_iff in H. destruct H as [Hc Hs]. specialize (IH Hs).
  destruct (Js.trimEnd s) as [|c' r].
  - destruct (Js.isSpace c); [reflexivity|]. cbn [noSep]. rewrite Hc. reflexivity.
  - cbn [noSep] in *. rewrite Hc, IH. reflexivity.
Qed.

(** X20.  The project name is what stands before the first dash of the
    window title, trimmed, provided "Antigravity" follows that dash (blanks
    skipped) and the part before it is not empty.  So a title whose project
    name itself contains a dash yields no project name unless its first dash
    is followed by "Antigravity", a title without dash yields none, and a
    project name that is found never contains a dash. *)
Theorem projectNameOfTitle_first_dash (name rest : string) :
  (noDash name = true -> name <> EmptyString ->
   projectNameOfTitle (name +:+ "-" +:+ rest) =
     if Js.startsWith (Js.trimStart rest) "Antigravity"
     then Some (Js.trim name) else None) /\
  (noDash name = true -> projectNameOfTitle name = None) /\
  (forall title p, projectNameOfTitle title = Some p -> noDash p = true).
Proof.
  split; [|split].
  - intros Hn Hne. unfold projectNameOfTitle, titleMatch.
    rewrite (beforeDash_app name rest Hn).
    destruct name as [|c g]; [contradiction|].
    destruct (Js.startsWith (Js.trimStart rest) "Antigravity"); reflexivity.
  - intros Hn. unfold projectNameOfTitle, titleMatch.
    pose proof (beforeDash_no_dash name Hn) as Hnone.
    destruct (beforeDash name) as [g r]. cbn [snd] in Hnone. subst r.
    destruct g; reflexivity.
  - intros title p. unfold projectNameOfTitle, titleMatch.
    pose proof (beforeDash_group title) as Hg.
    destruct (beforeDash title) as [g r]. cbn [fst] in Hg.
    destruct g as [|c g]; [discriminate|]. destruct r as [after|]; [|discriminate].
    destruct (Js.startsWith (Js.trimStart after) "Antigravity"); [|discriminate].
    cbn [fmap option_fmap option_map]. intros [= <-].
    unfold Js.trim, noDash in *. apply trimEnd_noSep, trimStart_noSep, Hg.
Qed.

Lemma projectNameOfTitle_first_dash_witness :
  projectNameOfTitle "Demo App - Antigravity - index.ts" = Some "Demo App" /\
  projectNameOfTitle "my-app - Antigravity - index.ts" = None.
Proof.
  split.
  - apply (proj1 (projectNameOfTitle_first_dash "Demo App " " Antigravity - index.ts"));
      [reflexivity | discriminate].
  - apply (proj1 (projectNameOfTitle_first_dash "my" "app - Antigravity - index.ts"));
      [reflexivity | discriminate].
Defined.

(** ** Operations on a [connectToTarget] client *)

Lemma closeConn_fields (c : Conn) :
  wsClosed (closeConn c) = true /\ sent (closeConn c) = sent c /\
  pending (closeConn c) = pending c.
Proof. repeat split. Qed.

Lemma framesFrom_app (stringify : CdpParams -> string) (id : nat)
    (xs ys : list (string * CdpParams)) :
  framesFrom stringify id (xs ++ ys) =
  framesFrom stringify id xs ++ framesFrom stringify (id + length xs) ys.
Proof.
  revert id. induction xs as [|[m p] xs IH]; intros id; cbn [framesFrom app length].
  - rewrite Nat.add_0_r. reflexivity.
  - rewrite IH. do 3 f_equal. lia.
Qed.

Lemma framesFrom_length (stringify : CdpParams -> string) (id : nat)
    (xs : list (string * CdpParams)) :
  length (framesFrom stringify id xs) = length xs.
Proof.
  revert id. induction xs as [|[m p] xs IH]; intros id; cbn [framesFrom length];
    [reflexivity | rewrite IH; reflexivity].
Qed.

(** One awaited send. *)
Lemma awaitSend_facts (stringify : CdpParams -> string) (method : string)
    (params : CdpParams) (r : Reply) (c : Conn) :
  CoreInv c ->
  let id := messageId c in
  let c1 := awaitSend stringify method params r c in
  CoreInv c1 /\ op c1 = op c /\ wsClosed c1 = wsClosed c /\
  messageId c1 = S id /\
  sent c1 = sent c ++ [mkFrame id method (stringify params)] /\
  (timeoutMs (op c) = None -> timers c1 = timers c) /\
  awaited id c1 =
    match r with
    | ReplyResult result => Resumed result
    | ReplyError message => Raised message
    | ReplyNever => Suspended
    end /\
  match r with
  | ReplyNever => pending c1 !! id = Some (mkResolver id)
  | _ => pending c1 = pending c
  end.
Proof.
  intros Hcore. cbn zeta.
  destruct (call_fresh (stringify params) method c Hcore) as (_ & Hpos & _ & _).
  destruct (call_fresh method (stringify params) c Hcore) as (_ & _ & Hpend & Hnil).
  pose proof (call_CoreInv method (stringify params) c Hcore) as Hcore1.
  assert (Hnone : pending c !! messageId c = None).
  { destruct (pending c !! messageId c) as [x|] eqn:Hx; [|reflexivity].
    apply (ci_pending c Hcore) in Hx. lia. }
  assert (Htimers : timeoutMs (op c) = None ->
                    timers (snd (call method (stringify params) c)) = timers c).
  { intros Hms. unfold call. cbn [snd timers]. rewrite Hms. reflexivity. }
  unfold awaitSend.
  change (call method (stringify params) c)
    with (messageId c, snd (call method (stringify params) c)).
  cbv iota beta.
  set (c1 := snd (call method (stringify params) c)) in *.
  assert (Hsent : sent c1 = sent c ++ [mkFrame (messageId c) method (stringify params)])
    by reflexivity.
  assert (Hmid : messageId c1 = S (messageId c)) by reflexivity.
  assert (Hpending : pending c1 = <[messageId c := mkResolver (messageId c)]> (pending c))
    by reflexivity.
  assert (Hreply : forall error result,
             let c2 := onMessage (reply (messageId c) error result) c1 in
             op c2 = op c /\ wsClosed c2 = wsClosed c /\ messageId c2 = S (messageId c) /\
             sent c2 = sent c1 /\ timers c2 = timers c1 /\ pending c2 = pending c).
  { intros error result. cbn zeta. unfold onMessage, matchedResolver, reply.
    cbn [m_id m_error m_result]. rewrite Hpend.
    destruct (Nat.eqb_spec (messageId c) 0) as [H0|_]; [lia|].
    cbn [op wsClosed messageId sent timers pending].
    repeat split. rewrite Hpending. apply delete_insert_id, Hnone. }
  destruct r as [result|message|].
  - destruct (Hreply None result) as (Hop & Hcl & Hm & Hs & Ht & Hp).
    destruct (onMessage_reply_pending (messageId c) None result c1 Hpos Hpend) as [_ Ho].
    rewrite Hnil in Ho. cbn [app] in Ho.
    split; [apply onMessage_CoreInv, Hcore1|].
    split; [exact Hop|]. split; [exact Hcl|]. split; [exact Hm|].
    split; [rewrite Hs; exact Hsent|].
    split; [intros Hms; rewrite Ht; apply Htimers, Hms|].
    split; [unfold awaited; rewrite Ho; reflexivity | exact Hp].
  - destruct (Hreply (Some message) EmptyString) as (Hop & Hcl & Hm & Hs & Ht & Hp).
    destruct (onMessage_reply_pending (messageId c) (Some message) EmptyString c1 Hpos Hpend)
      as [_ Ho].
    rewrite Hnil in Ho. cbn [app] in Ho.
    split; [apply onMessage_CoreInv, Hcore1|].
    split; [exact Hop|]. split; [exact Hcl|]. split; [exact Hm|].
    split; [rewrite Hs; exact Hsent|].
    split; [intros Hms; rewrite Ht; apply Htimers, Hms|].
    split; [unfold awaited; rewrite Ho; reflexivity | exact Hp].
  - split; [exact Hcore1|]. split; [reflexivity|]. split; [reflexivity|].
    split; [exact Hmid|]. split; [exact Hsent|]. split; [exact Htimers|].
    split; [unfold awaited; rewrite Hnil; reflexivity | exact Hpend].
Qed.

(** Every request answered with a result: all of them are sent, in program
    order, and nothing stays pending. *)
Lemma sendAll_results (stringify : CdpParams -> string)
    (requests : list (string * CdpParams)) (results : list string) (more : list Reply)
    (c : Conn) :
  CoreInv c -> length results = length requests ->
  let out := sendAll stringify requests (map ReplyResult results ++ more) c in
  fst out = Completed results /\
  sent (snd out) = sent c ++ framesFrom stringify (messageId c) requests /\
  pending (snd out) = pending c /\ wsClosed (snd out) = wsClosed c.
Proof.
  revert results c.
  induction requests as [|[method params] requests IH]; intros results c Hcore Hlen.
  - destruct results; [|discriminate]. cbn. rewrite app_nil_r. repeat split.
  - destruct results as [|result results]; [discriminate|].
    injection Hlen as Hlen. cbn zeta. cbn [sendAll map app hd tl framesFrom].
    destruct (awaitSend_facts stringify method params (ReplyResult result) c Hcore)
      as (Hcore1 & _ & Hcl & Hmid & Hsent & _ & Haw & Hp).
    cbn zeta in Hcore1, Hcl, Hmid, Hsent, Haw, Hp. rewrite Haw.
    specialize (IH results _ Hcore1 Hlen). cbn zeta in IH.
    destruct (sendAll stringify requests (map ReplyResult results ++ more)
                (awaitSend stringify method params (ReplyResult result) c))
      as [run c2].
    cbn [fst snd] in *. destruct IH as (-> & Hs & Hp2 & Hcl2).
    split; [reflexivity|]. split.
    + rewrite Hs, Hsent, Hmid, <- app_assoc. reflexivity.
    + split; congruence.
Qed.

(** The first reply that is not a result ends the operation: the requests
    after it are never sent. *)
Lemma sendAll_stops (stringify : CdpParams -> string)
    (requests : list (string * CdpParams)) (results : list string) (more : list Reply)
    (c : Conn) :
  CoreInv c -> length results < length requests ->
  isResult (hd ReplyNever more) = false ->
  let out := sendAll stringify requests (map ReplyResult results ++ more) c in
  fst out = match hd ReplyNever more with
            | ReplyError message => Failed message
            | _ => Hung
            end /\
  sent (snd out) =
    sent c ++ framesFrom stringify (messageId c) (take (S (length results)) requests) /\
  wsClosed (snd out) = wsClosed c /\
  (timeoutMs (op c) = None -> timers c = [] ->
   timeoutMs (op (snd out)) = None /\ timers (snd out) = []) /\
  (fst out = Hung ->
   awaited (messageId c + length results) (snd out) = Suspended /\
   is_Some (pending (snd out) !! (messageId c + length results))).
Proof.
  revert results c.
  induction requests as [|[method params] requests IH]; intros results c Hcore Hlen Hhd.
  - cbn in Hlen. lia.
  - destruct results as [|result results].
    + cbn zeta. cbn [sendAll map app length take framesFrom].
      change (take 0 requests) with (@nil (string * CdpParams)). cbn [framesFrom].
      destruct (awaitSend_facts stringify method params (hd ReplyNever more) c Hcore)
        as (Hcore1 & Hop & Hcl & Hmid & Hsent & Htim & Haw & Hp).
      cbn zeta in Hcore1, Hop, Hcl, Hmid, Hsent, Htim, Haw, Hp. rewrite Haw, Nat.add_0_r.
      destruct (hd ReplyNever more) as [x|message|] eqn:Hr; [discriminate| |];
        cbn [fst snd].
      * split; [reflexivity|]. split; [exact Hsent|]. split; [exact Hcl|].
        split; [|discriminate].
        intros Hms Ht. rewrite Hop, (Htim Hms). split; assumption.
      * split; [reflexivity|]. split; [exact Hsent|]. split; [exact Hcl|].
        split; [intros Hms Ht; rewrite Hop, (Htim Hms); split; assumption|].
        intros _. split; [exact Haw | rewrite Hp; eauto].
    + cbn [length] in Hlen. cbn zeta. cbn [sendAll map app hd tl length take framesFrom].
      destruct (awaitSend_facts stringify method params (ReplyResult result) c Hcore)
        as (Hcore1 & Hop & Hcl & Hmid & Hsent & Htim & Haw & Hp).
      cbn zeta in Hcore1, Hop, Hcl, Hmid, Hsent, Htim, Haw, Hp. rewrite Haw.
      assert (Hlen' : length results < length requests) by lia.
      specialize (IH results _ Hcore1 Hlen' Hhd). cbn zeta in IH.
      destruct (sendAll stringify requests (map ReplyResult results ++ more)
                  (awaitSend stringify method params (ReplyResult result) c))
        as [run c2].
      cbn [fst snd] in *. destruct IH as (-> & Hs & Hcl2 & Ht2 & Hhung).
      rewrite Hmid in Hs, Hhung.
      replace (messageId c + S (length results)) with (S (messageId c) + length results)
        by lia.
      split; [destruct (hd ReplyNever more); reflexivity|].
      split; [rewrite Hs, Hsent, <- app_assoc; reflexivity|].
      split; [congruence|].
      split.
      * intros Hms Ht. apply Ht2; [rewrite Hop; exact Hms | rewrite (Htim Hms); exact Ht].
      * intros Hrun. apply Hhung. destruct (hd ReplyNever more); congruence.
Qed.

Lemma onTimeout_wsClosed (id : nat) (c : Conn) : wsClosed (onTimeout id c) = wsClosed c.
Proof. unfold onTimeout. destruct (pending c !! id); reflexivity. Qed.

Lemma onMessage_wsClosed (m : Inbound) (c : Conn) : wsClosed (onMessage m c) = wsClosed c.
Proof.
  unfold onMessage. destruct (matchedResolver m c) as [[id r]|]; [reflexivity|].
  destruct (tracksContexts (op c)); [|reflexivity].
  destruct (m_method m); [|reflexivity]. destruct (m_context m); [|reflexivity].
  destruct (String.eqb _ _); reflexivity.
Qed.

Lemma step_wsClosed (e : Event) (c : Conn) : wsClosed (step e c) = wsClosed c.
Proof.
  destruct e as [method params|m| |ms]; cbn [step].
  - reflexivity.
  - apply onMessage_wsClosed.
  - reflexivity.
  - unfold elapse. cbv zeta.
    set (c1 := mkConn _ _ _ _ _ _ _ _ _ _ _).
    change (wsClosed c) with (wsClosed c1). generalize c1.
    induction (dueTimers (clock c + ms) (timers c)) as [|t due IH]; intros c2;
      cbn [fold_left]; [reflexivity|].
    rewrite IH. apply onTimeout_wsClosed.
Qed.

Lemma run_wsClosed (es : list Event) (c : Conn) : wsClosed (run es c) = wsClosed c.
Proof.
  unfold run. revert c. induction es as [|e es IH]; intros c; cbn [fold_left];
    [reflexivity|].
  rewrite IH. apply step_wsClosed.
Qed.

Lemma withClient_results (stringify : CdpParams -> string)
    (requests : list (string * CdpParams)) (results : list string) (more : list Reply)
    (now : nat) :
  length results = length requests ->
  let out := withClient stringify requests (map ReplyResult results ++ more)
               (connect ConnectToTarget now) in
  fst out = Completed results /\
  sent (snd out) = framesFrom stringify 1 requests /\
  pending (snd out) = ∅ /\ wsClosed (snd out) = true.
Proof.
  intros Hlen. cbn zeta. unfold withClient.
  pose proof (sendAll_results stringify requests results more (connect ConnectToTarget now)
                (connect_CoreInv _ _) Hlen) as H.
  cbn zeta in H.
  destruct (sendAll stringify requests (map ReplyResult results ++ more)
              (connect ConnectToTarget now)) as [run c].
  cbn [fst snd] in H. destruct H as (-> & Hs & Hp & _). cbn [fst snd].
  repeat split; assumption.
Qed.

Lemma clientOperation_connects (stringify : CdpParams -> string)
    (requests : list (string * CdpParams)) (targets : list Target) (target : Target)
    (now : nat) (replies : list Reply) :
  findEditorTarget targets = Some target ->
  Js.truthy (webSocketDebuggerUrl target) = true ->
  clientOperation stringify requests (Returned targets) now replies =
    (fst (withClient stringify requests replies (connect ConnectToTarget now)),
     Some (snd (withClient stringify requests replies (connect ConnectToTarget now)))).
Proof.
  intros Hfind Hurl. unfold clientOperation. rewrite Hfind, Hurl. cbn [negb].
  destruct (withClient _ _ _ _); reflexivity.
Qed.

(** X21.  An operation on a [connectToTarget] client ([injectCommand],
    [injectAndSubmit]) whose requests are all answered with a result sends
    exactly its requests, in program order and numbered from 1; it then
    returns the results, with no call left pending and the socket
    closed. *)
Theorem clientOperation_completes (stringify : CdpParams -> string)
    (requests : list (string * CdpParams)) (targets : list Target) (target : Target)
    (now : nat) (results : list string) (more : list Reply) :
  findEditorTarget targets = Some target ->
  Js.truthy (webSocketDebuggerUrl target) = true ->
  length results = length requests ->
  exists c,
    clientOperation stringify requests (Returned targets) now
      (map ReplyResult results ++ more) = (Completed results, Some c) /\
    sent c = framesFrom stringify 1 requests /\
    pending c = ∅ /\ wsClosed c = true.
Proof.
  intros Hfind Hurl Hlen.
  rewrite (clientOperation_connects _ _ _ _ _ _ Hfind Hurl).
  destruct (withClient_results stringify requests results more now Hlen)
    as (Hrun & Hs & Hp & Hcl).
  cbn zeta in Hrun, Hs, Hp, Hcl.
  eexists. split; [rewrite Hrun; reflexivity|]. repeat split; assumption.
Qed.

Lemma clientOperation_completes_witness :
  exists c,
    injectAndSubmit (fun _ => "{}") "run the tests"
      (Returned exampleTargets) 0
      [ReplyResult "{}"; ReplyResult "{}"; ReplyResult "{}"] =
      (Completed ["{}"; "{}"; "{}"], Some c) /\
    sent c = framesFrom (fun _ => "{}") 1 (injectAndSubmitRequests "run the tests") /\
    pending c = ∅ /\ wsClosed c = true.
Proof.
  refine (clientOperation_completes (fun _ => "{}") (injectAndSubmitRequests "run the tests")
            exampleTargets _ 0 ["{}"; "{}"; "{}"] [] _ _ _).
  - vm_compute. reflexivity.
  - vm_compute. reflexivity.
  - reflexivity.
Defined.

Lemma awaited_silent (id : nat) (es : list Event) (c : Conn) :
  timeoutMs (op c) = None -> timers c = [] -> Forall notMessage es ->
  awaited id (run es c) = awaited id c.
Proof.
  intros Hms Ht Hes. destruct (run_silent es c Hms Ht Hes) as [Hs _].
  unfold awaited. rewrite (outcomesOf_settled id c (run es c)) by exact Hs.
  reflexivity.
Qed.

(** X22.  An operation on a [connectToTarget] client stops at the first
    request that is not answered with a result, and the requests after it
    are never sent.  If that request is answered with an error, the
    operation throws the carried message and the socket is closed.  If it
    is not answered at all, the operation never returns and the socket is
    never closed: whatever happens later short of an inbound frame (time
    passing, a socket error), the call stays pending, because the [send] of
    [connectToTarget] arms no timer. *)
Theorem clientOperation_stops (stringify : CdpParams -> string)
    (requests : list (string * CdpParams)) (targets : list Target) (target : Target)
    (now : nat) (results : list string) (more : list Reply) :
  findEditorTarget targets = Some target ->
  Js.truthy (webSocketDebuggerUrl target) = true ->
  length results < length requests ->
  isResult (hd ReplyNever more) = false ->
  exists run c,
    clientOperation stringify requests (Returned targets) now
      (map ReplyResult results ++ more) = (run, Some c) /\
    sent c = framesFrom stringify 1 (take (S (length results)) requests) /\
    match hd ReplyNever more with
    | ReplyError message => run = Failed message /\ wsClosed c = true
    | _ =>
        run = Hung /\
        forall later, Forall notMessage later ->
          awaited (S (length results)) (Transport.run later c) = Suspended /\
          is_Some (pending (Transport.run later c) !! S (length results)) /\
          wsClosed (Transport.run later c) = false
    end.
Proof.
  intros Hfind Hurl Hlen Hhd.
  rewrite (clientOperation_connects _ _ _ _ _ _ Hfind Hurl).
  unfold withClient.
  pose proof (sendAll_stops stringify requests results more (connect ConnectToTarget now)
                (connect_CoreInv _ _) Hlen Hhd) as H.
  cbn zeta in H.
  destruct (sendAll stringify requests (map ReplyResult results ++ more)
              (connect ConnectToTarget now)) as [run c].
  cbn [fst snd] in H. destruct H as (Hrun & Hs & Hcl & Htim & Hhung).
  change (messageId (connect ConnectToTarget now) + length results)
    with (S (length results)) in Hhung.
  destruct (Htim eq_refl eq_refl) as [Hms Ht].
  destruct (hd ReplyNever more) as [x|message|] eqn:Hr; [discriminate| |]; subst run;
    cbn [fst snd].
  - exists (Failed message), (closeConn c). split; [reflexivity|].
    split; [exact Hs|]. split; reflexivity.
  - exists Hung, c. split; [reflexivity|]. split; [exact Hs|]. split; [reflexivity|].
    intros later Hlater. destruct (Hhung eq_refl) as [Haw Hsome].
    destruct (run_silent later c Hms Ht Hlater) as [_ Hkeep].
    split; [rewrite (awaited_silent _ later c Hms Ht Hlater); exact Haw|].
    split; [apply Hkeep, Hsome|].
    rewrite run_wsClosed. exact Hcl.
Qed.

Lemma clientOperation_stops_witness :
  exists run c,
    injectCommand (fun _ => "{}") "hi" (Returned exampleTargets) 0
      ([ReplyResult "{}"; ReplyResult "{}"] ++ [ReplyError "Target closed"]) =
      (run, Some c) /\
    sent c = framesFrom (fun _ => "{}") 1 (take 3 (injectCommandRequests "hi")) /\
    run = Failed "Target closed" /\ wsClosed c = true.
Proof.
  refine (clientOperation_stops (fun _ => "{}") (injectCommandRequests "hi")
            exampleTargets _ 0 ["{}"; "{}"] [ReplyError "Target closed"] _ _ _ _).
  - vm_compute. reflexivity.
  - vm_compute. reflexivity.
  - vm_compute. lia.
  - reflexivity.
Defined.

Lemma typedBy_injectCommandRequests (text : string) :
  typedBy (flat_map keyRequests (charsOf text)) = text.
Proof.
  induction text as [|c text IH]; [reflexivity|].
  cbn [charsOf flat_map keyRequests app typedBy charString].
  rewrite IH. reflexivity.
Qed.

Lemma injectCommandRequests_length (text : string) :
  length (injectCommandRequests text) = 1 + 2 * String.length text.
Proof.
  unfold injectCommandRequests. cbn [length]. f_equal.
  induction text as [|c text IH]; [reflexivity|].
  cbn [charsOf flat_map keyRequests app length String.length]. rewrite IH. lia.
Qed.

(** X23.  [injectCommand(text)], when every request is answered: after the
    one [Runtime.evaluate] that focuses the input field it sends two key
    events per character, 1 + 2n frames for a text of n characters; the
    key-down events carry the characters of the text, in order, and
    nothing else is typed. *)
Theorem injectCommand_types_text (stringify : CdpParams -> string) (text : string)
    (targets : list Target) (target : Target) (now : nat)
    (results : list string) (more : list Reply) :
  findEditorTarget targets = Some target ->
  Js.truthy (webSocketDebuggerUrl target) = true ->
  length results = 1 + 2 * String.length text ->
  exists c,
    injectCommand stringify text (Returned targets) now
      (map ReplyResult results ++ more) = (Completed results, Some c) /\
    sent c = framesFrom stringify 1 (injectCommandRequests text) /\
    length (sent c) = 1 + 2 * String.length text /\
    typedBy (injectCommandRequests text) = text /\
    wsClosed c = true.
Proof.
  intros Hfind Hurl Hlen. unfold injectCommand.
  rewrite (clientOperation_connects _ _ _ _ _ _ Hfind Hurl).
  rewrite <- injectCommandRequests_length in Hlen.
  destruct (withClient_results stringify (injectCommandRequests text) results more now Hlen)
    as (Hrun & Hs & Hp & Hcl).
  cbn zeta in Hrun, Hs, Hp, Hcl.
  eexists. split; [rewrite Hrun; reflexivity|].
  split; [exact Hs|].
  split; [rewrite Hs, framesFrom_length; apply injectCommandRequests_length|].
  split; [|exact Hcl].
  unfold injectCommandRequests. cbn [typedBy]. apply typedBy_injectCommandRequests.
Qed.

Lemma injectCommand_types_text_witness :
  exists c,
    injectCommand (fun _ => "{}") "ok" (Returned exampleTargets) 0
      (map ReplyResult ["a"; "b"; "c"; "d"; "e"] ++ []) =
      (Completed ["a"; "b"; "c"; "d"; "e"], Some c) /\
    sent c = framesFrom (fun _ => "{}") 1 (injectCommandRequests "ok") /\
    length (sent c) = 1 + 2 * String.length "ok" /\
    typedBy (injectCommandRequests "ok") = "ok" /\
    wsClosed c = true.
Proof.
  refine (injectCommand_types_text (fun _ => "{}") "ok" exampleTargets _ 0
            ["a"; "b"; "c"; "d"; "e"] [] _ _ _).
  - vm_compute. reflexivity.
  - vm_compute. reflexivity.
  - reflexivity.
Defined.

(** ** [POST /api/cdp/inject] *)



Lemma postCdpInject_unfold (stringify : CdpParams -> string) (text : string)
    (submit : bool) (timestamp : string) (writeOk : bool)
    (discovery : Completion (list Target)) (now : nat) (replies : list Reply) (st : Store) :
  Js.truthy (Some text) = true ->
  let requests :=
    if submit then injectAndSubmitRequests text else injectCommandRequests text in
  let out := clientOperation stringify requests discovery now replies in
  postCdpInject stringify (Some text) submit timestamp writeOk discovery now replies st =
    match fst out with
    | Completed _ =>
        mkInjectEffect (InjectJson submit text)
          (saveMessages writeOk
             (mkStore (messages st ++ [mkChatMessage "mobile_command" text None timestamp])
                (messagesFile st)))
          [mkHubEvent "mobile_command"
             [("text", text); ("submitted", if submit then "true" else "false")]]
          (snd out)
    | Failed message => mkInjectEffect (InjectServerError message) st [] (snd out)
    | Hung => mkInjectEffect InjectNoAnswer st [] (snd out)
    end.
Proof.
  intros Htext. cbn zeta. unfold postCdpInject. rewrite Htext. cbn [negb orEmpty].
  unfold injectAndSubmit, injectCommand.
  destruct submit;
    match goal with
    | |- context [clientOperation ?s ?r ?d ?n ?p] =>
        destruct (clientOperation s r d n p) as [[rs|m|] conn]
    end; reflexivity.
Qed.


(** X25.  A failed injection leaves no trace on the server although part
    of it has reached the editor: when a request of the injection is
    answered with an error, [POST /api/cdp/inject] answers 500 with the
    carried message, logs and broadcasts nothing, and the requests up to
    the failing one have been sent. *)
Theorem postCdpInject_partial (stringify : CdpParams -> string) (text : string)
    (submit : bool) (timestamp : string) (writeOk : bool)
    (targets : list Target) (target : Target) (now : nat)
    (results : list string) (message : string) (more : list Reply) (st : Store) :
  Js.truthy (Some text) = true ->
  findEditorTarget targets = Some target ->
  Js.truthy (webSocketDebuggerUrl target) = true ->
  let requests :=
    if submit then injectAndSubmitRequests text else injectCommandRequests text in
  length results < length requests ->
  let e := postCdpInject stringify (Some text) submit timestamp writeOk
             (Returned targets) now (map ReplyResult results ++ ReplyError message :: more)
             st in
  inj_answer e = InjectServerError message /\
  inj_store e = st /\ inj_events e = [] /\
  exists c,
    inj_connection e = Some c /\ wsClosed c = true /\
    sent c = framesFrom stringify 1 (take (S (length results)) requests).
Proof.
  intros Htext Hfind Hurl requests Hlen. cbn zeta.
  rewrite (postCdpInject_unfold _ _ _ _ _ _ _ _ _ Htext). cbn zeta. fold requests.
  rewrite (clientOperation_connects _ _ _ _ _ _ Hfind Hurl). cbn [fst snd].
  unfold withClient.
  pose proof (sendAll_stops stringify requests results (ReplyError message :: more)
                (connect ConnectToTarget now) (connect_CoreInv _ _) Hlen eq_refl) as H.
  cbn zeta in H.
  destruct (sendAll stringify requests
              (map ReplyResult results ++ ReplyError message :: more)
              (connect ConnectToTarget now)) as [run c].
  cbn [fst snd hd] in H. destruct H as (-> & Hs & _).
  cbn [fst snd inj_answer inj_store inj_events inj_connection].
  repeat split. exists (closeConn c). repeat split. exact Hs.
Qed.

Lemma postCdpInject_partial_witness :
  let e := postCdpInject (fun _ => "{}") (Some "hi") false "t" true
             (Returned exampleTargets) 0
             (map ReplyResult ["{}"; "{}"; "{}"] ++ ReplyError "Target closed" :: [])
             (mkStore [] None) in
  inj_answer e = InjectServerError "Target closed" /\
  inj_store e = mkStore [] None /\ inj_events e = [] /\
  exists c,
    inj_connection e = Some c /\ wsClosed c = true /\
    sent c = framesFrom (fun _ => "{}") 1 (take 4 (injectCommandRequests "hi")).
Proof.
  refine (postCdpInject_partial (fun _ => "{}") "hi" false "t" true exampleTargets _ 0
            ["{}"; "{}"; "{}"] "Target closed" [] (mkStore [] None) _ _ _ _).
  - reflexivity.
  - vm_compute. reflexivity.
  - vm_compute. reflexivity.
  - vm_compute. lia.
Defined.

(** ** The inbox *)

Lemma inboxRun_cons (op : InboxOp) (ops : list InboxOp) (inbox : list InboxEntry) :
  inboxRun (op :: ops) inbox =
    (fst (fst (inboxStep op inbox)) :: fst (inboxRun ops (snd (fst (inboxStep op inbox)))),
     snd (inboxRun ops (snd (fst (inboxStep op inbox))))).
Proof.
  cbn [inboxRun]. destruct (inboxStep op inbox) as [[answer inbox'] count]. cbn [fst snd].
  destruct (inboxRun ops inbox'); reflexivity.
Qed.

(** X26.  The inbox hands out every accepted message exactly once: over
    any sequence of [POST /api/inbox] and [GET /api/inbox/read] requests,
    the entries returned by the reads, followed by what is still in the
    inbox, are the entries that were there at the start followed by the
    accepted posts, in the order of their arrival.  A post without a
    message is refused and adds nothing, and each read reports as [count]
    the number of entries it returns. *)
Theorem inbox_exactly_once (ops : list InboxOp) (inbox : list InboxEntry) :
  handedOut (fst (inboxRun ops inbox)) ++ snd (inboxRun ops inbox) =
    inbox ++ acceptedPosts ops /\
  length (fst (inboxRun ops inbox)) = length ops /\
  countsAgree (fst (inboxRun ops inbox)).
Proof.
  revert inbox. induction ops as [|op ops IH]; intros inbox.
  - cbn. rewrite app_nil_r. repeat split.
  - rewrite inboxRun_cons. cbn [fst snd length].
    destruct op as [message timestamp|]; cbn [inboxStep acceptedPosts].
    + unfold postInbox. destruct (Js.truthy message); cbn [negb fst snd handedOut countsAgree].
      * destruct (IH (inbox ++ [mkInboxEntry (orEmpty message) "mobile" timestamp]))
          as (Hout & Hlen & Hcount).
        rewrite Hout, <- app_assoc, Hlen. repeat split. exact Hcount.
      * destruct (IH inbox) as (Hout & Hlen & Hcount).
        rewrite Hout, Hlen. repeat split. exact Hcount.
    + unfold readInbox. cbn [fst snd handedOut countsAgree].
      destruct (IH []) as (Hout & Hlen & Hcount).
      rewrite <- app_assoc, Hout, Hlen. cbn [app]. repeat split. exact Hcount.
Qed.

(** ** File endpoints *)

Lemma includesString_In (x : string) (xs : list string) :
  includesString x xs = true <-> In x xs.
Proof.
  unfold includesString. rewrite existsb_exists. split.
  - intros (y & Hy & Heq). apply String.eqb_eq in Heq. subst y. exact Hy.
  - intros Hx. exists x. split; [exact Hx | apply String.eqb_refl].
Qed.

Lemma text_not_image (ext : string) :
  includesString ext textExtensions = true -> includesString ext imageExtensions = false.
Proof.
  rewrite includesString_In. unfold textExtensions. cbn [In].
  intros H. repeat (destruct H as [<-|H]; [reflexivity|]). contradiction.
Qed.

(** X27.  A path outside the workspace, as [pathStartsWith] sees it, is
    refused by all three file endpoints, and nothing is written.
    [/api/files/save] and [/api/files/raw] answer 403 whatever the file
    system holds; [/api/files/content] tests existence first, so it answers
    403 for a path that exists and 404 for one that does not. *)
Theorem files_outside_workspace (isWindows : bool) (resolve extname basename : string -> string)
    (filePath content workspace : string) (fs : Fs) :
  Js.truthy (Some filePath) = true ->
  pathStartsWith isWindows (resolve filePath) (resolve workspace) = false ->
  postFilesSave isWindows resolve extname (Some filePath) (Some content) workspace fs =
    (FileError 403 "Access denied - outside workspace", None) /\
  getFilesRaw isWindows resolve extname (Some filePath) workspace fs =
    FileError 403 "Access denied - outside workspace" /\
  getFilesContent isWindows resolve extname basename (Some filePath) workspace fs =
    if existsSync fs filePath
    then FileError 403 "Access denied - outside workspace"
    else FileError 404 "File not found".
Proof.
  intros Htruthy Hout.
  unfold postFilesSave, getFilesRaw, getFilesContent.
  rewrite Htruthy. cbn [negb orEmpty]. rewrite Hout. cbn [negb].
  split; [reflexivity|]. split; [reflexivity|].
  destruct (existsSync fs filePath); reflexivity.
Qed.

Lemma files_outside_workspace_witness :
  getFilesContent false (fun p => p) exampleExtname (fun p => p)
    (Some "/etc/passwd") "/ws" exampleFs = FileError 404 "File not found" /\
  getFilesRaw false (fun p => p) exampleExtname (Some "/etc/passwd") "/ws" exampleFs =
    FileError 403 "Access denied - outside workspace".
Proof.
  destruct (files_outside_workspace false (fun p => p) exampleExtname (fun p => p)
              "/etc/passwd" "x" "/ws" exampleFs eq_refl eq_refl) as (_ & Hraw & Hcontent).
  split; [exact Hcontent | exact Hraw].
Defined.

(** X28.  [POST /api/files/save] writes only to a file that already
    exists, lies inside the workspace as [pathStartsWith] sees it, and has
    one of the text extensions: it never creates a file.  What it writes is
    the given content at the given path, and it then answers with
    success. *)
Theorem postFilesSave_guarded (isWindows : bool) (resolve extname : string -> string)
    (filePath content : option string) (workspace : string) (fs : Fs)
    (path text : string) :
  snd (postFilesSave isWindows resolve extname filePath content workspace fs) =
    Some (path, text) ->
  filePath = Some path /\ content = Some text /\
  fst (postFilesSave isWindows resolve extname filePath content workspace fs) =
    FileSaved path /\
  existsSync fs path = true /\
  pathStartsWith isWindows (resolve path) (resolve workspace) = true /\
  includesString (Js.toLowerCase (extname path)) textExtensions = true /\
  writeFileSync fs path text = Returned tt.
Proof.
  unfold postFilesSave.
  destruct (Js.truthy filePath) eqn:Htruthy; cbn [negb]; [|discriminate].
  destruct filePath as [p|]; [|discriminate]. cbn [orEmpty].
  destruct content as [c|]; [|discriminate].
  destruct (pathStartsWith isWindows (resolve p) (resolve workspace)) eqn:Hin;
    cbn [negb]; [|discriminate].
  destruct (existsSync fs p) eqn:Hex; cbn [negb]; [|discriminate].
  destruct (includesString (Js.toLowerCase (extname p)) textExtensions) eqn:Hext;
    cbn [negb]; [|discriminate].
  destruct (writeFileSync fs p c) as [[]|message] eqn:Hw; cbn [fst snd]; [|discriminate].
  intros [= <- <-]. repeat split; assumption.
Qed.

Lemma postFilesSave_guarded_witness :
  existsSync exampleFs "/ws/notes.md" = true /\
  pathStartsWith false "/ws/notes.md" "/ws" = true.
Proof.
  destruct (postFilesSave_guarded false (fun p => p) exampleExtname
              (Some "/ws/notes.md") (Some "# new") "/ws" exampleFs "/ws/notes.md" "# new"
              eq_refl) as (_ & _ & _ & Hex & Hin & _).
  split; [exact Hex | exact Hin].
Defined.

(** X29.  No path is served both as text and as an image.  When
    [/api/files/content] returns the content of a file, the file exists,
    is inside the workspace as [pathStartsWith] sees it, is no directory
    and has at most 1 MiB, and [/api/files/raw] refuses the same path as
    not being an image. *)
Theorem getFilesContent_served (isWindows : bool) (resolve extname basename : string -> string)
    (filePath : option string) (workspace : string) (fs : Fs)
    (path name extension : string) (size : N) (content : string) :
  getFilesContent isWindows resolve extname basename filePath workspace fs =
    FileContent path name extension size content ->
  filePath = Some path /\
  existsSync fs path = true /\
  pathStartsWith isWindows (resolve path) (resolve workspace) = true /\
  statSync fs path = Returned (mkStat false size) /\ (size <= 1024 * 1024)%N /\
  readFileSync fs path = Returned content /\
  getFilesRaw isWindows resolve extname filePath workspace fs =
    FileError 400 "Only image files supported".
Proof.
  unfold getFilesContent, getFilesRaw.
  destruct (Js.truthy filePath) eqn:Htruthy; cbn [negb]; [|discriminate].
  destruct filePath as [p|]; [|discriminate]. cbn [orEmpty].
  destruct (existsSync fs p) eqn:Hex; cbn [negb]; [|discriminate].
  destruct (pathStartsWith isWindows (resolve p) (resolve workspace)) eqn:Hin;
    cbn [negb]; [|discriminate].
  destruct (statSync fs p) as [[isDir sz]|message] eqn:Hstat; [|discriminate].
  cbn [stat_isDirectory stat_size].
  destruct isDir; [discriminate|].
  destruct (N.ltb_spec (1024 * 1024) sz) as [Hbig|Hsmall]; [discriminate|].
  destruct (includesString (Js.toLowerCase (extname p)) textExtensions) eqn:Hext;
    cbn [negb]; [|discriminate].
  destruct (readFileSync fs p) as [text|message] eqn:Hread; [|discriminate].
  intros [= <- <- <- <- <-].
  rewrite (text_not_image _ Hext). cbn [negb].
  repeat split; assumption.
Qed.

Lemma getFilesContent_served_witness :
  getFilesRaw false (fun p => p) exampleExtname (Some "/ws/notes.md") "/ws" exampleFs =
    FileError 400 "Only image files supported".
Proof.
  apply (getFilesContent_served false (fun p => p) exampleExtname (fun p => p)
           (Some "/ws/notes.md") "/ws" exampleFs "/ws/notes.md" "/ws/notes.md" ".md" 120
           "# notes" eq_refl).
Defined.

Lemma pathStartsWith_app (isWindows : bool) (prefix rest : string) :
  pathStartsWith isWindows (prefix +:+ rest) prefix = true.
Proof.
  unfold pathStartsWith, Js.startsWith. destruct isWindows; apply prefix_true_iff.
  - exists (Js.toLowerCase rest). apply toLowerCase_app.
  - exists rest. reflexivity.
Qed.

(** X30.  The workspace guard of [POST /api/files/save] looks at the text
    of the resolved paths only: every existing file with a text extension
    whose resolved path continues the text of the resolved workspace path
    passes it and is written, whether the continuation starts with a
    separator or not; the answer is an error only if the write itself
    throws.  With the workspace [/ws], a file of the sibling folder
    [/ws-old] is accepted. *)
Theorem postFilesSave_accepts (isWindows : bool) (resolve extname : string -> string)
    (filePath content workspace rest : string) (fs : Fs) :
  Js.truthy (Some filePath) = true ->
  resolve filePath = resolve workspace +:+ rest ->
  existsSync fs filePath = true ->
  includesString (Js.toLowerCase (extname filePath)) textExtensions = true ->
  postFilesSave isWindows resolve extname (Some filePath) (Some content) workspace fs =
    match writeFileSync fs filePath content with
    | Returned _ => (FileSaved filePath, Some (filePath, content))
    | Thrown message => (FileError 500 message, None)
    end.
Proof.
  intros Htruthy Hres Hex Hext. unfold postFilesSave.
  rewrite Htruthy. cbn [negb orEmpty].
  rewrite Hres, pathStartsWith_app, Hex, Hext. cbn [negb]. reflexivity.
Qed.

Lemma postFilesSave_accepts_witness :
  postFilesSave false (fun p => p) exampleExtname (Some "/ws-old/a.txt") (Some "changed")
    "/ws" exampleFs =
  (FileSaved "/ws-old/a.txt", Some ("/ws-old/a.txt", "changed")).
Proof.
  apply (postFilesSave_accepts false (fun p => p) exampleExtname "/ws-old/a.txt" "changed"
           "/ws" "-old/a.txt" exampleFs); reflexivity.
Defined.
